(** * RoutesFormer: path encoding, constrained greedy decoding and metrics

    A shallow embedding of the Python sources
    [src/utils.py], [src/data_loader.py], [src/routesformer.py] and
    [src/metrics.py], followed by the properties proved about them.

    Conventions of the embedding.
    - Link (segment) ids, token indices and node ids are Python integers: [Z].
    - Python floats are IEEE binary64 numbers: the kernel's primitive [float].
    - A Python call either returns a value or raises: [result].
    - Dictionaries keyed by ids are [gmap]s; a dictionary whose iteration
      order is observable is an association list.
    - The learned predictor, networkx's shortest path, nltk's BLEU, numpy's
      mean and random permutation are capabilities the code consumes; they
      are record fields or explicit arguments. *)

From Stdlib Require Import ZArith Lia PrimFloat FloatOps SpecFloat FloatAxioms.
From stdpp Require Import gmap list strings.

Local Open Scope Z_scope.

(** ** Python values, exceptions and indexing *)

Inductive exn : Type :=
  | IndexError
  | KeyError
  | ValueError
  | OverflowError
  | ZeroDivisionError
  | ExternalError.

Inductive result (A : Type) : Type :=
  | Ok (a : A)
  | Raise (e : exn).
Arguments Ok {A} a.
Arguments Raise {A} e.

Definition bind {A B : Type} (r : result A) (k : A → result B) : result B :=
  match r with
  | Ok a => k a
  | Raise e => Raise e
  end.

Notation "x ←? r ; k" := (bind r (fun x => k))
  (at level 100, r at next level, right associativity, only parsing).

(** [seq[i]] for a Python sequence: negative indices count from the end,
    anything outside [-len, len) raises [IndexError]. *)
Definition py_getitem {A : Type} (l : list A) (i : Z) : result A :=
  let n := Z.of_nat (length l) in
  let j := if i <? 0 then n + i else i in
  if (0 <=? j) && (j <? n) then
    match l !! Z.to_nat j with
    | Some x => Ok x
    | None => Raise IndexError
    end
  else Raise IndexError.

(** [x in seq] for a sequence of integers. *)
Definition py_in (x : Z) (l : list Z) : bool := existsb (Z.eqb x) l.

(** [range(n)] as indices. *)
Definition py_range (n : Z) : list Z := Z.of_nat <$> seq 0 (Z.to_nat n).

(** [np.isnan]. *)
Definition np_isnan (x : float) : bool := negb (PrimFloat.eqb x x).

(** [int(x)] on a float: truncation toward zero; NaN and the infinities raise. *)
Definition py_int (x : float) : result Z :=
  match Prim2SF x with
  | S754_zero _ => Ok 0
  | S754_nan => Raise ValueError
  | S754_infinity _ => Raise OverflowError
  | S754_finite s m e =>
      let a := if 0 <=? e then Z.pos m * 2 ^ e else Z.pos m / 2 ^ (- e) in
      Ok (if s then - a else a)
  end.

(** [float(n)] of a Python integer small enough to be represented exactly
    (path lengths, edit distances). *)
Definition py_float (n : Z) : float :=
  SF2Prim (binary_normalize prec emax n 0 false).

(** ** utils.py *)

(** The loop of [is_path_subsequence_of_path]: [sub_idx] is the number of
    elements of [subsequence] matched so far. *)
Fixpoint subsequence_scan (subsequence : list Z) (sub_idx : nat)
    (sequence : list Z) : bool :=
  match sequence with
  | [] => Nat.eqb sub_idx (length subsequence)
  | item :: rest =>
      if Nat.ltb sub_idx (length subsequence)
         && match subsequence !! sub_idx with
            | Some s => item =? s
            | None => false
            end
      then
        if Nat.eqb (S sub_idx) (length subsequence) then true
        else subsequence_scan subsequence (S sub_idx) rest
      else subsequence_scan subsequence sub_idx rest
  end.

Definition is_path_subsequence_of_path (subsequence sequence : list Z) : bool :=
  if Nat.eqb (length subsequence) 0 then true
  else subsequence_scan subsequence 0 sequence.

(** ** data_loader.py *)

(** [mask_ratio : Union[float, str]]: a keep ratio, or the string ['OD']. *)
Inductive mask_ratio : Type :=
  | OD
  | Ratio (r : float).

(** The loop shared by both samplers: keep index [i] when it is the first
    or the last index of the path, or when [keep i] holds. *)
Definition keep_links (path : list Z) (keep : Z → Z → bool) : list Z :=
  let n := Z.of_nat (length path) in
  fold_left
    (fun acc i =>
       match path !! Z.to_nat i with
       | Some x =>
           if (i =? 0) || (i =? n - 1) || keep i x then acc ++ [x] else acc
       | None => acc
       end)
    (py_range n) [].

(** [prepare_discontinuous_path]; [permutation] is the value drawn by
    [np.random.permutation(len(path))]. *)
Definition prepare_discontinuous_path (permutation : list Z) (path : list Z)
    (ratio : mask_ratio) : result (list Z) :=
  match ratio with
  | OD =>
      o ←? py_getitem path 0;
      d ←? py_getitem path (-1);
      Ok [o; d]
  | Ratio r =>
      k ←? py_int (PrimFloat.mul (PrimFloat.sub 1 r)
                      (py_float (Z.of_nat (length path))));
      let link_num := Z.max 0 (k - 2) in
      let per := take (Z.to_nat link_num) permutation in
      Ok (keep_links path (fun i _ => py_in i per))
  end.

(** The body of the loop of [prepare_sparse_observations] for one path. *)
Definition sparse_observation (avi_ids : list Z) (path : list Z) : list Z :=
  keep_links path (fun _ x => py_in x avi_ids).

(** [prepare_sparse_observations]: with [path_idxs = None] every path of the
    dictionary is processed, otherwise the listed ones ([KeyError] when one
    is missing). Returns the ['paths'] entry of the result. *)
Definition prepare_sparse_observations (gt_paths : gmap Z (list Z))
    (avi_ids : list Z) (path_idxs : option (list Z)) : result (gmap Z (list Z)) :=
  match path_idxs with
  | None => Ok (sparse_observation avi_ids <$> gt_paths)
  | Some idxs =>
      fold_left
        (fun acc path_i =>
           sparse_paths ←? acc;
           match gt_paths !! path_i with
           | Some path => Ok (<[path_i := sparse_observation avi_ids path]> sparse_paths)
           | None => Raise KeyError
           end)
        idxs (Ok ∅)
  end.

(** ** routesformer.py *)

(** The four special tokens ['bos'], ['eos'], ['mos'], ['pos']. *)
Inductive token : Type := bos | eos | mos | pos.

Definition tokens : list token := [bos; eos; mos; pos].

(** The road network: a networkx graph with its [graph] attributes.
    [edges_count] is [len(list(network.edges))]; [link_nodes_dict] keeps the
    dictionary's iteration order; [nx_shortest_path a b] is
    [nx.shortest_path(network, a, b)], [None] when it raises;
    [edge_LENGTH a b] is [network.edges[a, b]['LENGTH']]. *)
Record Network : Type := {
  edges_count : nat;
  neighbor_links_O : gmap Z (list Z);
  link_nodes_dict : list (Z * (Z * Z));
  nx_shortest_path : Z → Z → option (list Z);
  edge_LENGTH : Z → Z → option float
}.

Definition get_num_links (network : Network) : Z :=
  Z.of_nat (edges_count network).

Record ExperimentConfig : Type := {
  max_len : Z;
  train_mask_ratios : list mask_ratio;
  is_mask_token : bool;
  attributes_dict : gmap string Z
}.

Record MethodConfig : Type := {
  path_generation_method : string;
  graph_constraint : bool;
  discontinuous_path_attention : string;
  allow_decoupled_trying : bool
}.

(** [RoutesFormerTransformer.predict(src, tgt)[-1, 0, :]]: the scores of the
    next token, given the encoded source and the generated prefix. *)
Record Transformer : Type := {
  predict : list (list Z) → list Z → list float
}.

(** The loop [for i, token in enumerate(self.tokens)] of both constructors. *)
Definition make_token_indexs (network : Network) : token → Z :=
  fun t =>
    get_num_links network +
    match t with bos => 0 | eos => 1 | mos => 2 | pos => 3 end.

Record DataGenerator : Type := {
  dg_max_len : Z;
  dg_train_mask_ratios : list mask_ratio;
  dg_is_mask_token : bool;
  dg_attributes_dict : gmap string Z;
  dg_token_indexs : token → Z;
  is_onehot_embedding : bool
}.

Definition DataGenerator_init (network : Network)
    (experiment_config : ExperimentConfig) (method_config : MethodConfig)
    : DataGenerator :=
  {| dg_max_len := max_len experiment_config;
     dg_train_mask_ratios := train_mask_ratios experiment_config;
     dg_is_mask_token := is_mask_token experiment_config;
     dg_attributes_dict := attributes_dict experiment_config;
     dg_token_indexs := make_token_indexs network;
     is_onehot_embedding :=
       bool_decide (attributes_dict experiment_config !! "onehot_embedding" = None) |}.

(** The first argument of [construct_point_info]: a token name or a link id. *)
Inductive point : Type :=
  | Token (t : token)
  | Link (l : Z).

(** [v = np.zeros(size); v[i] = 1]. *)
Definition np_onehot (size i : Z) : result (list Z) :=
  let j := if i <? 0 then size + i else i in
  if (0 <=? j) && (j <? size) then
    Ok (<[Z.to_nat j := 1]> (replicate (Z.to_nat size) 0))
  else Raise IndexError.

Definition construct_point_info (self : DataGenerator) (link : point)
    (network : Network) : result (list Z) :=
  let index :=
    match link with
    | Token t => dg_token_indexs self t
    | Link l => l
    end in
  if is_onehot_embedding self then
    onehot_embedding ←? np_onehot (get_num_links network + Z.of_nat (length tokens)) index;
    Ok (onehot_embedding ++ [0])
  else Ok [index; 0].

(** [neighbor_links_O.get(link, [])]. *)
Definition downstream (network : Network) (link : Z) : list Z :=
  default [] (neighbor_links_O network !! link).

(** The [while len(path_src) < self.max_len] loop; it runs at most
    [max_len] times, which is the fuel. *)
Fixpoint pad_loop (fuel : nat) (limit : Z) (pad : result (list Z))
    (path_src : list (list Z)) : result (list (list Z)) :=
  match fuel with
  | O => Ok path_src
  | S fuel' =>
      if Z.of_nat (length path_src) <? limit then
        point_info ←? pad;
        pad_loop fuel' limit pad (path_src ++ [point_info])
      else Ok path_src
  end.

(** The body of [for i in range(len(S_path) - 1)]. A failure inside the
    [try] is swallowed by the bare [except]. *)
Definition encode_link (self : DataGenerator) (network : Network)
    (S_path : list Z) (acc : result (list (list Z))) (i : Z)
    : result (list (list Z)) :=
  path_src ←? acc;
  a ←? py_getitem S_path i;
  point_info ←? construct_point_info self (Link a) network;
  let path_src := path_src ++ [point_info] in
  match py_getitem S_path (i + 1) with
  | Ok b =>
      if negb (py_in b (downstream network a)) then
        match construct_point_info self (Token mos) network with
        | Ok mask_info => Ok (path_src ++ [mask_info])
        | Raise _ => Ok path_src
        end
      else Ok path_src
  | Raise _ => Ok path_src
  end.

(** [S_dict['paths'][path_i]]. *)
Definition lookup_path (S_dict : gmap Z (list Z)) (path_i : Z) : result (list Z) :=
  match S_dict !! path_i with
  | Some p => Ok p
  | None => Raise KeyError
  end.

Definition encode_discontinuous_path (self : DataGenerator) (network : Network)
    (S_dict : gmap Z (list Z)) (path_i : Z) : result (list (list Z)) :=
  S_path ←? lookup_path S_dict path_i;
  begin_info ←? construct_point_info self (Token bos) network;
  path_src ←? fold_left (encode_link self network S_path)
                (py_range (Z.of_nat (length S_path) - 1)) (Ok [begin_info]);
  last_link ←? py_getitem S_path (-1);
  last_info ←? construct_point_info self (Link last_link) network;
  end_info ←? construct_point_info self (Token eos) network;
  pad_loop (Z.to_nat (dg_max_len self)) (dg_max_len self)
    (construct_point_info self (Token pos) network)
    (path_src ++ [last_info] ++ [end_info]).

Record RoutesFormer : Type := {
  rf_max_len : Z;
  rf_attributes_dict : gmap string Z;
  rf_token_indexs : token → Z;
  rf_path_generation_method : string;
  rf_graph_constraint : bool;
  rf_discontinuous_path_attention : string;
  rf_allow_decoupled_trying : bool;
  use_shortest_path : bool;
  verbose : bool;
  data_generator : DataGenerator;
  model : Transformer
}.

(** [RoutesFormer.__init__]; the transformer that the constructor builds
    from [model_config] is passed as the capability it provides. *)
Definition RoutesFormer_init (network : Network)
    (experiment_config : ExperimentConfig) (model_config : Transformer)
    (method_config : MethodConfig) : RoutesFormer :=
  {| rf_max_len := max_len experiment_config;
     rf_attributes_dict := attributes_dict experiment_config;
     rf_token_indexs := make_token_indexs network;
     rf_path_generation_method := path_generation_method method_config;
     rf_graph_constraint := graph_constraint method_config;
     rf_discontinuous_path_attention := discontinuous_path_attention method_config;
     rf_allow_decoupled_trying := allow_decoupled_trying method_config;
     use_shortest_path := false;
     verbose := false;
     data_generator := DataGenerator_init network experiment_config method_config;
     model := model_config |}.

(** [test.py] assigns the attribute after loading the model. *)
Definition set_use_shortest_path (self : RoutesFormer) (b : bool) : RoutesFormer :=
  {| rf_max_len := rf_max_len self;
     rf_attributes_dict := rf_attributes_dict self;
     rf_token_indexs := rf_token_indexs self;
     rf_path_generation_method := rf_path_generation_method self;
     rf_graph_constraint := rf_graph_constraint self;
     rf_discontinuous_path_attention := rf_discontinuous_path_attention self;
     rf_allow_decoupled_trying := rf_allow_decoupled_trying self;
     use_shortest_path := b;
     verbose := verbose self;
     data_generator := data_generator self;
     model := model self |}.

(** *** Greedy decoding *)

(** [predict_val[possible_neighbor_links]]: indexing the score vector by a
    list of indices. *)
Fixpoint torch_index (predict_val : list float) (indices : list Z)
    : result (list float) :=
  match indices with
  | [] => Ok []
  | i :: rest =>
      x ←? py_getitem predict_val i;
      xs ←? torch_index predict_val rest;
      Ok (x :: xs)
  end.

(** Whether [x] replaces the running maximum [m]: a NaN is the greatest
    value and the first maximal element is kept. *)
Definition torch_greater (x m : float) : bool :=
  if np_isnan m then false
  else if np_isnan x then true
  else PrimFloat.ltb m x.

(** One pass that yields [(torch.max(v), torch.argmax(v))] for a non-empty
    vector: [best] is the running maximum found at index [best_i], [i] is
    the index of the head of the remaining elements. *)
Fixpoint torch_max_from (best : float) (best_i i : nat) (v : list float)
    : float * nat :=
  match v with
  | [] => (best, best_i)
  | x :: rest =>
      if torch_greater x best then torch_max_from x i (S i) rest
      else torch_max_from best best_i (S i) rest
  end.

Definition torch_max (v : list float) : float :=
  match v with
  | [] => 0%float
  | x :: rest => fst (torch_max_from x 0 1 rest)
  end.

Definition torch_argmax (v : list float) : nat :=
  match v with
  | [] => 0%nat
  | x :: rest => snd (torch_max_from x 0 1 rest)
  end.

(** The decoder's state: the generated tokens [tgt] (the tensor's single
    row) and [s_path_idx]. *)
Record decoder_state : Type := {
  tgt : list Z;
  s_path_idx : nat
}.

(** What one pass through the loop body does. *)
Inductive control : Type :=
  | Continue (st : decoder_state)
  | Break (st : decoder_state).

(** The model-driven choice shared by the two prediction branches:
    [None] stands for [break]. *)
Definition model_choice (predict_val : list float)
    (possible_neighbor_links : list Z) : result (option Z) :=
  if (Z.of_nat (length possible_neighbor_links) <=? 0) then Ok None
  else
    link_probabilities ←? torch_index predict_val possible_neighbor_links;
    if PrimFloat.leb (torch_max link_probabilities) 0 then Ok None
    else
      link ←? py_getitem possible_neighbor_links
                (Z.of_nat (torch_argmax link_probabilities));
      Ok (Some link).

(** The tail of the loop body: the end condition, then the append. *)
Definition commit (self : RoutesFormer) (generated : list Z) (idx : nat)
    (possible_neighbor_link : Z) : control :=
  if possible_neighbor_link =? rf_token_indexs self eos then
    Break {| tgt := generated; s_path_idx := idx |}
  else
    Continue {| tgt := generated ++ [possible_neighbor_link]; s_path_idx := idx |}.

(** The body of [for current_step in range(self.max_len)]. *)
Definition decode_step (self : RoutesFormer) (network : Network)
    (src : list (list Z)) (S_path : list Z) (st : decoder_state)
    : result control :=
  let predict_val := predict (model self) src (tgt st) in
  last_token ←? py_getitem (tgt st) (-1);
  if last_token =? rf_token_indexs self bos then
    possible_neighbor_link ←? py_getitem S_path 0;
    Ok (commit self (tgt st) 1 possible_neighbor_link)
  else
    let current_link := last_token in
    let possible_neighbor_links := downstream network current_link in
    let all_obs_included := is_path_subsequence_of_path S_path (tgt st) in
    if Nat.ltb (s_path_idx st) (length S_path) && negb all_obs_included then
      next_obs_link ←? py_getitem S_path (Z.of_nat (s_path_idx st));
      if py_in next_obs_link possible_neighbor_links then
        Ok (commit self (tgt st) (S (s_path_idx st)) next_obs_link)
      else
        choice ←? model_choice predict_val possible_neighbor_links;
        match choice with
        | None => Ok (Break st)
        | Some link => Ok (commit self (tgt st) (s_path_idx st) link)
        end
    else if all_obs_included then
      Ok (commit self (tgt st) (s_path_idx st) (rf_token_indexs self eos))
    else
      choice ←? model_choice predict_val possible_neighbor_links;
      match choice with
      | None => Ok (Break st)
      | Some link => Ok (commit self (tgt st) (s_path_idx st) link)
      end.

(** The loop itself: [steps] passes are left. *)
Fixpoint decode_loop (self : RoutesFormer) (network : Network)
    (src : list (list Z)) (S_path : list Z) (steps : nat)
    (st : decoder_state) : result decoder_state :=
  match steps with
  | O => Ok st
  | S steps' =>
      c ←? decode_step self network src S_path st;
      match c with
      | Break st' => Ok st'
      | Continue st' => decode_loop self network src S_path steps' st'
      end
  end.

(** [if x in l: l.remove(x)]: drop the first occurrence. *)
Fixpoint remove_first (x : Z) (l : list Z) : list Z :=
  match l with
  | [] => []
  | y :: rest => if y =? x then rest else y :: remove_first x rest
  end.

(** The greedy part of [_predict_path_argmax]: the generated path with the
    begin token removed. *)
Definition greedy_path (self : RoutesFormer) (network : Network)
    (S_dict : gmap Z (list Z)) (path_i : Z) : result (list Z) :=
  S_path ←? lookup_path S_dict path_i;
  src ←? encode_discontinuous_path (data_generator self) network S_dict path_i;
  st ←? decode_loop self network src S_path (Z.to_nat (rf_max_len self))
          {| tgt := [rf_token_indexs self bos]; s_path_idx := 0 |};
  Ok (remove_first (rf_token_indexs self bos) (tgt st)).

(** *** Shortest-path fallback *)

(** [link_nodes_dict[link]]. *)
Definition link_nodes (network : Network) (link : Z) : result (Z * Z) :=
  match list_find (fun e => fst e = link) (link_nodes_dict network) with
  | Some (_, (_, nodes)) => Ok nodes
  | None => Raise KeyError
  end.

(** The inner [for link, (n1, n2) in link_nodes_dict.items()] with its
    [break]: the first link that joins [from_node] to [to_node]. *)
Definition find_link (network : Network) (from_node to_node : Z) : list Z :=
  match list_find (fun e => fst (snd e) = from_node ∧ snd (snd e) = to_node)
          (link_nodes_dict network) with
  | Some (_, (link, _)) => [link]
  | None => []
  end.

(** The links along a node path: [for j in range(len(nodes) - 1)]. *)
Fixpoint links_along (network : Network) (nodes : list Z) : list Z :=
  match nodes with
  | from_node :: ((to_node :: _) as rest) =>
      find_link network from_node to_node ++ links_along network rest
  | _ => []
  end.

(** The body of [for i in range(len(S_path))] for [i >= 1]. *)
Definition stitch (network : Network) (acc : result (list Z))
    (prev_link curr_link : Z) : result (list Z) :=
  complete_path ←? acc;
  prev_nodes ←? link_nodes network prev_link;
  curr_nodes ←? link_nodes network curr_link;
  let prev_end_node := snd prev_nodes in
  let curr_start_node := fst curr_nodes in
  let gap :=
    if bool_decide (prev_end_node ≠ curr_start_node) then
      match nx_shortest_path network prev_end_node curr_start_node with
      | Some shortest_path_nodes => links_along network shortest_path_nodes
      | None => []
      end
    else [] in
  Ok (complete_path ++ gap ++ [curr_link]).

Fixpoint stitch_from (network : Network) (acc : result (list Z))
    (prev_link : Z) (rest : list Z) : result (list Z) :=
  match rest with
  | [] => acc
  | curr_link :: rest' =>
      stitch_from network (stitch network acc prev_link curr_link) curr_link rest'
  end.

(** [complete_path] of the fallback; a [Raise] is caught by the outer
    [try] of the caller. *)
Definition shortest_path_fallback (network : Network) (S_path : list Z)
    : result (list Z) :=
  match S_path with
  | [] => Ok []
  | first :: rest => stitch_from network (Ok [first]) first rest
  end.

Definition _predict_path_argmax (self : RoutesFormer) (network : Network)
    (S_dict : gmap Z (list Z)) (path_i : Z) : result (gmap (list Z) float) :=
  S_path ←? lookup_path S_dict path_i;
  generated ←? greedy_path self network S_dict path_i;
  if is_path_subsequence_of_path S_path generated then
    Ok {[ generated := 1%float ]}
  else if use_shortest_path self then
    match shortest_path_fallback network S_path with
    | Ok complete_path =>
        if negb (Nat.eqb (length complete_path) 0)
           && is_path_subsequence_of_path S_path complete_path
        then Ok {[ complete_path := 1%float ]}
        else Ok ∅
    | Raise _ => Ok ∅
    end
  else Ok ∅.

Definition predict_path (self : RoutesFormer) (network : Network)
    (S_dict : gmap Z (list Z)) (path_i : Z) : result (gmap (list Z) float) :=
  if String.eqb (rf_path_generation_method self) "argmax" then
    _predict_path_argmax self network S_dict path_i
  else Ok ∅.

(** ** metrics.py *)

(** [matrix[i][j]] and [matrix[i][j] = v] on a list of rows; every index the
    code uses is in range. *)
Definition matrix_get (matrix : list (list Z)) (i j : nat) : Z :=
  default 0 (matrix !! i ≫= fun row => row !! j).

Definition matrix_set (matrix : list (list Z)) (i j : nat) (v : Z)
    : list (list Z) :=
  match matrix !! i with
  | Some row => <[i := <[j := v]> row]> matrix
  | None => matrix
  end.

Definition levenshtein_distance (path1 path2 : list Z) : Z :=
  let len1 := length path1 in
  let len2 := length path2 in
  let matrix :=
    (fun i => (fun j => Z.of_nat (i + j)) <$> seq 0 (S len2)) <$> seq 0 (S len1) in
  let matrix :=
    fold_left
      (fun matrix i =>
         fold_left
           (fun matrix j =>
              let d :=
                if bool_decide (path1 !! (i - 1)%nat = path2 !! (j - 1)%nat)
                then 0 else 1 in
              matrix_set matrix i j
                (Z.min (Z.min (matrix_get matrix (i - 1) j + 1)
                              (matrix_get matrix i (j - 1) + 1))
                       (matrix_get matrix (i - 1) (j - 1) + d)))
           (seq 1 len2) matrix)
      (seq 1 len1) matrix in
  matrix_get matrix len1 len2.

(** [seq[a:b]]. *)
Definition py_slice {A : Type} (l : list A) (a b : Z) : list A :=
  let n := Z.of_nat (length l) in
  let clamp i := Z.max 0 (Z.min n (if i <? 0 then n + i else i)) in
  drop (Z.to_nat (clamp a)) (take (Z.to_nat (clamp b)) l).

(** Python's [min(x, y)] on floats: [y] when [y < x], otherwise [x]. *)
Definition py_min (x y : float) : float :=
  if PrimFloat.ltb y x then y else x.

(** [a / b] on Python integers. *)
Definition py_truediv_int (a b : Z) : result float :=
  if b =? 0 then Raise ZeroDivisionError
  else Ok (PrimFloat.div (py_float a) (py_float b)).

(** [x / y] on Python floats. *)
Definition py_truediv (x y : float) : result float :=
  if PrimFloat.eqb y 0 then Raise ZeroDivisionError
  else Ok (PrimFloat.div x y).

(** The sparse-observation dictionary: its ['paths'] and, when present, its
    ['S_GT_link_idxs'] entries. *)
Record SparseDict : Type := {
  S_paths : gmap Z (list Z);
  S_GT_link_idxs : option (gmap Z (list Z))
}.

(** The common prologue of the per-path metrics: the ground-truth path,
    clipped to the observed span unless [is_global_path]. *)
Definition ground_truth_path (gt_paths : gmap Z (list Z)) (s_dict : SparseDict)
    (path_i : Z) (is_global_path : bool) : result (list Z) :=
  gt_path ←? lookup_path gt_paths path_i;
  if negb is_global_path then
    match S_GT_link_idxs s_dict with
    | None => Raise KeyError
    | Some idxs =>
        s_gt_link_idx ←? lookup_path idxs path_i;
        first ←? py_getitem s_gt_link_idx 0;
        last ←? py_getitem s_gt_link_idx (-1);
        Ok (py_slice gt_path first (last + 1))
    end
  else Ok gt_path.

(** [idxs is None or path_i in idxs]. *)
Definition selected (idxs : option (list Z)) (path_i : Z) : bool :=
  match idxs with
  | None => true
  | Some l => py_in path_i l
  end.

Section Metrics.

(** [nltk]'s [sentence_bleu] with unigram weights, [np.mean] on a
    non-empty list, and the iteration order of [set(pred_path)]. *)
Variable sentence_bleu : list (list Z) → list Z → result float.
Variable np_mean : list float → float.
Variable py_set : list Z → list Z.

Definition calculate_bleu (reference_paths : list (list Z))
    (predicted_path : list Z) : float :=
  match sentence_bleu reference_paths predicted_path with
  | Ok bleu => bleu
  | Raise _ => 0%float
  end.

Definition calculate_path_bleu (gt_paths : gmap Z (list Z)) (s_dict : SparseDict)
    (path_probabilities : list (list Z * float)) (path_i : Z)
    (is_global_path : bool) : result float :=
  if Nat.eqb (length path_probabilities) 0 then Ok 0%float
  else
    gt_path ←? ground_truth_path gt_paths s_dict path_i is_global_path;
    let reference_paths := [gt_path] in
    Ok (fold_left
          (fun bleu_score '(pred_path, prob) =>
             PrimFloat.add bleu_score
               (PrimFloat.mul prob (calculate_bleu reference_paths pred_path)))
          path_probabilities 0%float).

Definition calculate_path_ed (gt_paths : gmap Z (list Z)) (s_dict : SparseDict)
    (path_probabilities : list (list Z * float)) (path_i : Z)
    (is_global_path : bool) : result float :=
  if Nat.eqb (length path_probabilities) 0 then Ok 1%float
  else
    gt_path ←? ground_truth_path gt_paths s_dict path_i is_global_path;
    fold_left
      (fun acc '(pred_path, prob) =>
         edit_distance ←? acc;
         let ed := levenshtein_distance gt_path pred_path in
         ratio ←? py_truediv_int ed (Z.of_nat (length gt_path));
         let normalized_ed := py_min ratio 1 in
         Ok (PrimFloat.add edit_distance (PrimFloat.mul prob normalized_ed)))
      path_probabilities (Ok 0%float).

(** [network.edges[node1, node2]['LENGTH']] of a link. *)
Definition link_length (network : Network) (link : Z) : result float :=
  nodes ←? link_nodes network link;
  match edge_LENGTH network (fst nodes) (snd nodes) with
  | Some len => Ok len
  | None => Raise KeyError
  end.

(** [total += length(link)] over the links of [links] that satisfy [keep]. *)
Definition sum_lengths (network : Network) (keep : Z → bool) (links : list Z)
    : result float :=
  fold_left
    (fun acc link =>
       total ←? acc;
       if keep link then
         len ←? link_length network link;
         Ok (PrimFloat.add total len)
       else Ok total)
    links (Ok 0%float).

Definition calculate_path_tlla (network : Network) (gt_paths : gmap Z (list Z))
    (s_dict : SparseDict) (path_probabilities : list (list Z * float))
    (path_i : Z) (is_global_path : bool) : result float :=
  if Nat.eqb (length path_probabilities) 0 then Ok 0%float
  else
    gt_path ←? ground_truth_path gt_paths s_dict path_i is_global_path;
    gt_length ←? sum_lengths network (fun _ => true) gt_path;
    fold_left
      (fun acc '(pred_path, prob) =>
         tlla ←? acc;
         let unique_pred_path := py_set pred_path in
         matched_length ←?
           sum_lengths network (fun link => py_in link gt_path) unique_pred_path;
         ratio ←? py_truediv matched_length gt_length;
         Ok (PrimFloat.add tlla (PrimFloat.mul prob ratio)))
      path_probabilities (Ok 0%float).

(** The loop shared by the three aggregators: the per-path values of the
    selected paths, with [worst] in place of a NaN. *)
Definition collect_scores (per_path : list (list Z * float) → Z → result float)
    (worst : float)
    (all_path_probabilities : list (Z * list (list Z * float)))
    (idxs : option (list Z)) : result (list float) :=
  fold_left
    (fun acc '(path_i, path_probs) =>
       scores ←? acc;
       if selected idxs path_i then
         score ←? per_path path_probs path_i;
         if negb (np_isnan score) then Ok (scores ++ [score])
         else Ok (scores ++ [worst])
       else Ok scores)
    all_path_probabilities (Ok []).

(** [np.mean(scores) if scores else worst]. *)
Definition mean_or (worst : float) (scores : list float) : float :=
  if Nat.eqb (length scores) 0 then worst else np_mean scores.

Definition calculate_paths_bleu (gt_paths : gmap Z (list Z)) (s_dict : SparseDict)
    (all_path_probabilities : list (Z * list (list Z * float)))
    (is_global_path : bool) (idxs : option (list Z)) : result float :=
  bleu_scores ←?
    collect_scores
      (fun path_probs path_i =>
         calculate_path_bleu gt_paths s_dict path_probs path_i is_global_path)
      0%float all_path_probabilities idxs;
  Ok (mean_or 0%float bleu_scores).

Definition calculate_paths_ed (gt_paths : gmap Z (list Z)) (s_dict : SparseDict)
    (all_path_probabilities : list (Z * list (list Z * float)))
    (is_global_path : bool) (idxs : option (list Z)) : result float :=
  edit_distances ←?
    collect_scores
      (fun path_probs path_i =>
         calculate_path_ed gt_paths s_dict path_probs path_i is_global_path)
      1%float all_path_probabilities idxs;
  Ok (mean_or 1%float edit_distances).

Definition calculate_paths_tlla (network : Network) (gt_paths : gmap Z (list Z))
    (s_dict : SparseDict)
    (all_path_probabilities : list (Z * list (list Z * float)))
    (is_global_path : bool) (idxs : option (list Z)) : result float :=
  tlla_values ←?
    collect_scores
      (fun path_probs path_i =>
         calculate_path_tlla network gt_paths s_dict path_probs path_i is_global_path)
      0%float all_path_probabilities idxs;
  Ok (mean_or 0%float tlla_values).

End Metrics.

(** ** The encoder's contract, in the words of the specification *)

(** The observed links in order, with one [mos] marker between every two
    consecutive links [(a, b)] such that [b] is not downstream-adjacent to
    [a], and nothing between adjacent ones. *)
Fixpoint with_discontinuities (network : Network) (S_path : list Z) : list point :=
  match S_path with
  | [] => []
  | a :: rest =>
      Link a ::
      match rest with
      | [] => []
      | b :: _ =>
          (if py_in b (downstream network a) then [] else [Token mos])
          ++ with_discontinuities network rest
      end
  end.

(** Begin token, observed links with their markers, end token. *)
Definition encoded_content (network : Network) (S_path : list Z) : list point :=
  Token bos :: with_discontinuities network S_path ++ [Token eos].

(** The content followed by as many [pos] tokens as are missing to [limit]. *)
Definition encoded_points (network : Network) (limit : Z) (S_path : list Z)
    : list point :=
  let content := encoded_content network S_path in
  content ++ replicate (Z.to_nat (limit - Z.of_nat (length content))) (Token pos).

(** The integer a point stands for. *)
Definition point_index (self : DataGenerator) (p : point) : Z :=
  match p with
  | Token t => dg_token_indexs self t
  | Link l => l
  end.

(** An index that [np.zeros(num_links + 4)] accepts. *)
Definition onehot_index (network : Network) (i : Z) : Prop :=
  - (get_num_links network + 4) ≤ i < get_num_links network + 4.

(** With one-hot rows, the tokens and the observed links index the row. *)
Definition indexable (self : DataGenerator) (network : Network)
    (S_path : list Z) : Prop :=
  is_onehot_embedding self = true →
  (∀ t, onehot_index network (dg_token_indexs self t))
  ∧ Forall (onehot_index network) S_path.

(** The row [construct_point_info] builds when it returns. *)
Definition point_row (self : DataGenerator) (network : Network) (p : point)
    : list Z :=
  let index := point_index self p in
  if is_onehot_embedding self then
    let size := get_num_links network + Z.of_nat (length tokens) in
    <[Z.to_nat (if index <? 0 then size + index else index) := 1]>
      (replicate (Z.to_nat size) 0) ++ [0]
  else [index; 0].

(** ** Decoder runs *)

(** The state before the first pass. *)
Definition initial_state (self : RoutesFormer) : decoder_state :=
  {| tgt := [rf_token_indexs self bos]; s_path_idx := 0 |}.

(** [reaches k st st']: [k] passes through the loop body lead from [st] to
    [st'], none of them leaving the loop. *)
Inductive reaches (self : RoutesFormer) (network : Network)
    (src : list (list Z)) (S_path : list Z)
    : nat → decoder_state → decoder_state → Prop :=
  | reaches_here (st : decoder_state) :
      reaches self network src S_path 0 st st
  | reaches_step (k : nat) (st st' st'' : decoder_state) :
      decode_step self network src S_path st = Ok (Continue st') →
      reaches self network src S_path k st' st'' →
      reaches self network src S_path (S k) st st''.

(** The state a pass through the loop body leaves behind. *)
Definition control_state (c : control) : decoder_state :=
  match c with
  | Continue st => st
  | Break st => st
  end.

(** A link id of the network. *)
Definition segment (network : Network) (x : Z) : Prop :=
  0 ≤ x < get_num_links network.

#[global] Instance segment_dec (network : Network) (x : Z) :
  Decision (segment network x).
Proof. unfold segment. apply _. Defined.

(** Every recorded downstream neighbour is a link id. *)
Definition adjacency_closed (network : Network) : Prop :=
  map_Forall (fun _ neighbours => Forall (segment network) neighbours)
    (neighbor_links_O network).

(** Every key of [link_nodes_dict] is a link id. *)
Definition link_nodes_closed (network : Network) : Prop :=
  Forall (fun entry => segment network (fst entry)) (link_nodes_dict network).

(** ** The four-link cycle of the specification's scenario *)

(** Links [0: 0→1], [1: 1→2], [2: 2→3], [3: 3→0]; the shortest node path
    from [a] to [b] walks the cycle. *)
Definition cycle_network : Network :=
  {| edges_count := 4;
     neighbor_links_O := {[ 0 := [1]; 1 := [2]; 2 := [3]; 3 := [0] ]};
     link_nodes_dict := [(0, (0, 1)); (1, (1, 2)); (2, (2, 3)); (3, (3, 0))];
     nx_shortest_path := fun a b =>
       if (0 <=? a) && (a <? 4) && (0 <=? b) && (b <? 4) then
         Some ((fun k => (a + k) mod 4) <$> py_range ((b - a) mod 4 + 1))
       else None;
     edge_LENGTH := fun a b =>
       if (0 <=? a) && (a <? 4) && (b =? (a + 1) mod 4) then Some 1%float
       else None |}.

(** The cycle with the downstream adjacency of link [2] emptied. *)
Definition broken_cycle_network : Network :=
  {| edges_count := 4;
     neighbor_links_O := {[ 0 := [1]; 1 := [2]; 2 := []; 3 := [0] ]};
     link_nodes_dict := link_nodes_dict cycle_network;
     nx_shortest_path := nx_shortest_path cycle_network;
     edge_LENGTH := edge_LENGTH cycle_network |}.

(** A single link with no downstream neighbour. *)
Definition single_link_network : Network :=
  {| edges_count := 1;
     neighbor_links_O := ∅;
     link_nodes_dict := [(0, (0, 1))];
     nx_shortest_path := fun _ _ => None;
     edge_LENGTH := fun _ _ => Some 1%float |}.

(** The settings of [config.py]. *)
#[warnings="-inexact-float"]
Definition default_experiment_config : ExperimentConfig :=
  {| max_len := 30;
     train_mask_ratios :=
       [Ratio 0.1; Ratio 0.3; Ratio 0.5; Ratio 0.7; Ratio 0.9; OD];
     is_mask_token := true;
     attributes_dict := {[ "onehot_embedding" := -1 ]} |}.

Definition default_method_config : MethodConfig :=
  {| path_generation_method := "argmax";
     graph_constraint := true;
     discontinuous_path_attention := "global";
     allow_decoupled_trying := false |}.

(** A predictor whose every score is positive. *)
Definition positive_scores (transformer : Transformer) (vocabulary : nat) : Prop :=
  ∀ src generated,
    length (predict transformer src generated) = vocabulary
    ∧ Forall (fun p => PrimFloat.ltb 0 p = true) (predict transformer src generated).

(** A predictor that gives every one of the [vocabulary] tokens the same
    score. *)
Definition uniform_transformer (vocabulary : nat) (score : float) : Transformer :=
  {| predict := fun _ _ => replicate vocabulary score |}.

(** The scenario's decoder and its sparse observation [(0, 3)] of the
    ground truth [(0, 1, 2, 3)]. *)
Definition cycle_decoder : RoutesFormer :=
  RoutesFormer_init cycle_network default_experiment_config
    (uniform_transformer 8 0.125) default_method_config.

Definition cycle_observations : gmap Z (list Z) := {[ 0 := [0; 3] ]}.

(** The same decoder on the cycle whose link [2] has no downstream
    neighbour, and one on the single link. *)
Definition broken_cycle_decoder : RoutesFormer :=
  RoutesFormer_init broken_cycle_network default_experiment_config
    (uniform_transformer 8 0.125) default_method_config.

Definition single_link_decoder : RoutesFormer :=
  RoutesFormer_init single_link_network default_experiment_config
    (uniform_transformer 5 0.125) default_method_config.

Definition single_link_observations : gmap Z (list Z) := {[ 0 := [0] ]}.

(** A decoder on the cycle whose predictor scores every token [0.0], and
    the sparse observation [(0, 1)] of two adjacent links. *)
Definition zero_score_decoder : RoutesFormer :=
  RoutesFormer_init cycle_network default_experiment_config
    (uniform_transformer 8 0) default_method_config.

Definition adjacent_observations : gmap Z (list Z) := {[ 0 := [0; 1] ]}.

(** ** Paths in the graph *)

(** Every link of the path is followed by one of its downstream
    neighbours. *)
Fixpoint connected (network : Network) (path : list Z) : Prop :=
  match path with
  | a :: rest =>
      match rest with
      | [] => True
      | b :: _ => b ∈ downstream network a ∧ connected network rest
      end
  | [] => True
  end.

(** Every observed link is a key of [link_nodes_dict]. *)
Definition link_nodes_known (network : Network) (S_path : list Z) : Prop :=
  Forall (fun link => ∃ nodes, link_nodes network link = Ok nodes) S_path.

(** ** routesformer.py: training targets *)

(** The [while len(path_tgt_y) < self.max_len] loop of
    [create_sequence_target]; it runs at most [max_len] times. *)
Fixpoint pad_target_loop (fuel : nat) (limit pad : Z) (path_tgt_y : list Z)
    : list Z :=
  match fuel with
  | O => path_tgt_y
  | S fuel' =>
      if Z.of_nat (length path_tgt_y) <? limit then
        pad_target_loop fuel' limit pad (path_tgt_y ++ [pad])
      else path_tgt_y
  end.

Definition create_sequence_target (self : DataGenerator)
    (GT_dict : gmap Z (list Z)) (path_i : Z) : result (list Z) :=
  GT_path ←? lookup_path GT_dict path_i;
  Ok (pad_target_loop (Z.to_nat (dg_max_len self)) (dg_max_len self)
        (dg_token_indexs self pos)
        ([dg_token_indexs self bos] ++ GT_path ++ [dg_token_indexs self eos])).

(** [np.array(rows)] for rows that must have one length: numpy refuses a
    ragged list ([ValueError]; versions before 1.24 build an array of
    objects instead, and the slices below then raise [IndexError]). *)
Definition np_array {A : Type} (rows : list (list A)) : result (list (list A)) :=
  match rows with
  | [] => Ok rows
  | first :: _ =>
      if forallb (fun row => Nat.eqb (length row) (length first)) rows
      then Ok rows else Raise ValueError
  end.

(** The loop of [_create_samples_from_dict]: the encoded source and the
    target of each path, in order. *)
Definition collect_samples (self : DataGenerator) (network : Network)
    (GT_dict S_dict : gmap Z (list Z)) (path_idxs : list Z)
    : result (list (list (list Z)) * list (list Z)) :=
  fold_left
    (fun acc path_i =>
       sofar ←? acc;
       path_src ←? encode_discontinuous_path self network S_dict path_i;
       path_tgt_y ←? create_sequence_target self GT_dict path_i;
       Ok (fst sofar ++ [path_src], snd sofar ++ [path_tgt_y]))
    path_idxs (Ok ([], [])).

(** [_create_samples_from_dict]: sources, decoder inputs [y[:, :-1]] and
    labels [y[:, 1:]]. An empty array has one dimension, so slicing it in
    two raises [IndexError]. *)
Definition _create_samples_from_dict (self : DataGenerator) (network : Network)
    (GT_dict S_dict : gmap Z (list Z)) (path_idxs : list Z)
    : result (list (list (list Z)) * list (list Z) * list (list Z)) :=
  samples ←? collect_samples self network GT_dict S_dict path_idxs;
  path_srcs ←? np_array (fst samples);
  path_tgts_y ←? np_array (snd samples);
  match path_tgts_y with
  | [] => Raise IndexError
  | _ =>
      Ok (path_srcs,
          (fun row => removelast row) <$> path_tgts_y,
          (fun row => tail row) <$> path_tgts_y)
  end.

(** ** models.py: padding masks *)

(** [tensor.float()] on an integer entry, as the integer that the
    binary32 value holds: 24 bits are kept, rounding to nearest, ties to
    even. *)
Definition torch_float (n : Z) : Z :=
  let a := Z.abs n in
  let e := Z.max 0 (Z.log2 a - 23) in
  let ulp := 2 ^ e in
  let q := a / ulp in
  let r := a mod ulp in
  let q :=
    if 2 * r <? ulp then q
    else if ulp <? 2 * r then q + 1
    else if Z.even q then q else q + 1 in
  Z.sgn n * (q * ulp).

(** The same rounding by the Standard Library's IEEE 754 specification,
    for binary32: 24 bits, exponents below 128. *)
Definition binary32_of_Z (n : Z) : option Z :=
  match binary_normalize 24 128 n 0 false with
  | S754_zero _ => Some 0
  | S754_finite s m e =>
      Some ((if s then -1 else 1)
            * (if 0 <=? e then Z.pos m * 2 ^ e else Z.pos m / 2 ^ (- e)))
  | _ => None
  end.

(** [tensor.long()] on an integer-valued binary32 entry; the conversion is
    defined only for the values that int64 holds. *)
Definition torch_long (x : Z) : result Z :=
  if (- 2 ^ 63 <=? x) && (x <? 2 ^ 63) then Ok x else Raise OverflowError.

(** [get_key_padding_mask(tokens, 'src', token_indexs, is_onehot_embedding)]
    on one sequence of the batch. The rows of the encoder reach the model
    as a binary32 tensor ([torch.from_numpy(src).float()]); a position is
    masked when its one-hot row has a [1] in the slot of ['pos'], or when
    its first entry, converted back with [.long()], is the index of
    ['pos']. *)
Fixpoint src_key_padding_mask (token_indexs : token → Z)
    (is_onehot : bool) (tokens : list (list Z)) : result (list bool) :=
  match tokens with
  | [] => Ok []
  | row :: rest =>
      x ←? py_getitem (torch_float <$> row)
             (if is_onehot then token_indexs pos else 0);
      masked ←? (if is_onehot then Ok (x =? 1)
                 else (index ←? torch_long x; Ok (index =? token_indexs pos)));
      mask ←? src_key_padding_mask token_indexs is_onehot rest;
      Ok (masked :: mask)
  end.

(** The points that stand for padding. *)
Definition is_padding (p : point) : bool :=
  match p with
  | Token pos => true
  | _ => false
  end.

(** [get_key_padding_mask(tokens, 'tgt', ...)] on one sequence. *)
Definition tgt_key_padding_mask (token_indexs : token → Z) (tokens : list Z)
    : list bool :=
  (fun t => t =? token_indexs pos) <$> tokens.

(** The invariant of the loop on well-formed inputs: the generated links
    are link ids, consecutive ones are adjacent, the first one is the first
    observation, and as soon as the sparse path is covered the last one is
    the last observation. *)
Definition greedy_invariant (self : RoutesFormer) (network : Network)
    (S_path : list Z) (st : decoder_state) : Prop :=
  ∃ generated,
    tgt st = rf_token_indexs self bos :: generated
    ∧ Forall (segment network) generated
    ∧ connected network generated
    ∧ (generated ≠ [] → head generated = head S_path)
    ∧ (S_path `sublist_of` generated → last generated = last S_path).


(** ** data_loader.py: training samples and the split *)

(** The body of the loop of [prepare_training_samples]; the state is the
    number of samples drawn so far and the dictionary built so far, and
    [draw k] is the permutation that the [k]-th call of
    [prepare_discontinuous_path] draws. *)
Definition training_step (draw : nat → list Z) (gt_paths : gmap Z (list Z))
    (ratio : mask_ratio) (acc : result (nat * gmap Z (list Z))) (path_i : Z)
    : result (nat * gmap Z (list Z)) :=
  state ←? acc;
  path ←? lookup_path gt_paths path_i;
  sparse ←? prepare_discontinuous_path (draw (fst state)) path ratio;
  Ok (S (fst state), <[path_i := sparse]> (snd state)).

(** [prepare_training_samples]: with [path_idxs = None] the keys of the
    dictionary are processed. *)
Definition prepare_training_samples (draw : nat → list Z)
    (gt_paths : gmap Z (list Z)) (ratio : mask_ratio)
    (path_idxs : option (list Z)) : result (gmap Z (list Z)) :=
  let idxs :=
    match path_idxs with
    | None => fst <$> map_to_list gt_paths
    | Some l => l
    end in
  state ←? fold_left (training_step draw gt_paths ratio) idxs (Ok (0%nat, ∅));
  Ok (snd state).

(** What a training sample of the path [path_i] has to be. *)
Definition sampled_from (gt_paths : gmap Z (list Z)) (ratio : mask_ratio)
    (path_i : Z) (sparse : list Z) : Prop :=
  ∃ path, gt_paths !! path_i = Some path
    ∧ head sparse = head path ∧ last sparse = last path
    ∧ (ratio ≠ OD ∨ (2 ≤ length path)%nat →
       is_path_subsequence_of_path sparse path = true).

(** [train_test_split]; [per] is the value drawn by
    [np.random.permutation(path_num)]. *)
Definition train_test_split (per : list Z) (gt_paths : gmap Z (list Z))
    (train_ratio : float) : result (list Z * list Z) :=
  let path_num := Z.of_nat (size gt_paths) in
  train_num ←? py_int (PrimFloat.mul (py_float path_num) train_ratio);
  Ok (py_slice per 0 train_num,
      py_slice per train_num (Z.of_nat (length per))).

(** The links that [keep_links] keeps from position [i] on, where [n] is
    the length of the whole path. *)
Fixpoint keep_from (n : Z) (keep : Z → Z → bool) (i : Z) (links : list Z)
    : list Z :=
  match links with
  | [] => []
  | x :: rest =>
      (if (i =? 0) || (i =? n - 1) || keep i x then [x] else [])
      ++ keep_from n keep (i + 1) rest
  end.

(** ** metrics.py: the table of [levenshtein_distance] *)

(** The update of one cell, the inner loop and the initial table of
    [levenshtein_distance]. *)
Definition levenshtein_cell (path1 path2 : list Z) (i : nat)
    (matrix : list (list Z)) (j : nat) : list (list Z) :=
  let d :=
    if bool_decide (path1 !! (i - 1)%nat = path2 !! (j - 1)%nat)
    then 0 else 1 in
  matrix_set matrix i j
    (Z.min (Z.min (matrix_get matrix (i - 1) j + 1)
                  (matrix_get matrix i (j - 1) + 1))
           (matrix_get matrix (i - 1) (j - 1) + d)).

Definition levenshtein_row (path1 path2 : list Z) (matrix : list (list Z))
    (i : nat) : list (list Z) :=
  fold_left (levenshtein_cell path1 path2 i) (seq 1 (length path2)) matrix.

Definition levenshtein_table (path1 path2 : list Z) : list (list Z) :=
  (fun i => (fun j => Z.of_nat (i + j)) <$> seq 0 (S (length path2)))
    <$> seq 0 (S (length path1)).

(** The distance between the first [i] links of [path1] and the first [j]
    links of [path2], by the recurrence that the table is filled with. *)
Fixpoint lev_prefix (path1 path2 : list Z) (i : nat) : nat → Z :=
  match i with
  | O => fun j => Z.of_nat j
  | S i' =>
      fix row (j : nat) : Z :=
        match j with
        | O => Z.of_nat (S i')
        | S j' =>
            Z.min (Z.min (lev_prefix path1 path2 i' (S j') + 1) (row j' + 1))
                  (lev_prefix path1 path2 i' j'
                   + (if bool_decide (path1 !! i' = path2 !! j') then 0 else 1))
        end
  end.

(** The state of the table when the loops are about to fill the cell
    [(i, j)]: the rows above, the cells to the left, and the first row and
    column hold the distance of the prefixes. *)
Definition levenshtein_cells (path1 path2 : list Z) (matrix : list (list Z))
    (i j : nat) : Prop :=
  length matrix = S (length path1)
  ∧ Forall (fun row => length row = S (length path2)) matrix
  ∧ ∀ a b : nat,
      (a ≤ length path1)%nat → (b ≤ length path2)%nat →
      (a < i ∨ (a = i ∧ b < j) ∨ a = 0 ∨ b = 0)%nat →
      matrix_get matrix a b = lev_prefix path1 path2 a b.

(** ** generate_sample_data.py *)

(** An edge [(u, v, data)] of [G.edges(data=True)] with its ['EDGEID']. *)
Definition edge : Type := Z * Z * Z.

Definition edge_u (e : edge) : Z := e.1.1.
Definition edge_v (e : edge) : Z := e.1.2.
Definition edge_id (e : edge) : Z := e.2.

(** [d[node].append(link_id)] on a [defaultdict(list)]. *)
Definition append_link (d : gmap Z (list Z)) (node link_id : Z)
    : gmap Z (list Z) :=
  <[node := default [] (d !! node) ++ [link_id]]> d.

(** The first loop of [create_neighbor_links]: [node_to_outgoing_links]
    and [node_to_incoming_links]. *)
Definition node_to_links (edges : list edge)
    : gmap Z (list Z) * gmap Z (list Z) :=
  fold_left
    (fun maps e =>
       (append_link maps.1 (edge_u e) (edge_id e),
        append_link maps.2 (edge_v e) (edge_id e)))
    edges (∅, ∅).

(** [create_neighbor_links]: the pair [(neighbor_links_O,
    neighbor_links_D)]. *)
Definition create_neighbor_links (edges : list edge)
    : gmap Z (list Z) * gmap Z (list Z) :=
  let node_to_outgoing_links := (node_to_links edges).1 in
  let node_to_incoming_links := (node_to_links edges).2 in
  fold_left
    (fun maps e =>
       (<[edge_id e := default [] (node_to_outgoing_links !! edge_v e)]> maps.1,
        <[edge_id e := default [] (node_to_incoming_links !! edge_u e)]> maps.2))
    edges (∅, ∅).

(** The links that leave, and that enter, a node, in the order of the
    edges. *)
Definition outgoing (edges : list edge) (node : Z) : list Z :=
  edge_id <$> filter (fun e => edge_u e = node) edges.

Definition incoming (edges : list edge) (node : Z) : list Z :=
  edge_id <$> filter (fun e => edge_v e = node) edges.

(** The link [b] starts at the node where the link [a] ends. *)
Definition adjacent (edges : list edge) (a b : Z) : Prop :=
  ∃ ua va vb, (ua, va, a) ∈ edges ∧ (va, vb, b) ∈ edges.

(** The draws of one attempt of [generate_random_path]: the index of the
    start edge, the target length, and the choice among the available
    neighbours made when the path has [k] links. *)
Record attempt_draws : Type := {
  start_edge : Z;
  target_length : Z;
  next_choice : nat → list Z → Z
}.

(** The [while len(path) < target_length] loop; it appends one link per
    turn, so [target_length] turns are enough fuel. *)
Fixpoint extend_path (fuel : nat) (neighbor_links : gmap Z (list Z))
    (choice : nat → list Z → Z) (target : Z) (path : list Z)
    (current_link : Z) : list Z :=
  match fuel with
  | O => path
  | S fuel' =>
      if Z.of_nat (length path) <? target then
        let neighbors := default [] (neighbor_links !! current_link) in
        match neighbors with
        | [] => path
        | _ :: _ =>
            let n := Z.of_nat (length path) in
            let recent := py_slice path (- Z.min 3 n) n in
            let available_neighbors :=
              List.filter (fun n => negb (py_in n recent)) neighbors in
            let available_neighbors :=
              match available_neighbors with
              | [] => neighbors
              | _ :: _ => available_neighbors
              end in
            let next_link := choice (length path) available_neighbors in
            extend_path fuel' neighbor_links choice target
              (path ++ [next_link]) next_link
        end
      else path
  end.

(** One turn of the [for _ in range(max_attempts)] loop, up to the test
    of the length. *)
Definition random_attempt (all_links : list edge)
    (neighbor_links : gmap Z (list Z)) (min_length max_length : Z)
    (draws : attempt_draws) : result (list Z) :=
  if Nat.eqb (length all_links) 0 then Raise ValueError
  else
    e ←? py_getitem all_links (start_edge draws);
    let current_link := edge_id e in
    if max_length + 1 <=? min_length then Raise ValueError
    else
      Ok (extend_path (Z.to_nat (target_length draws)) neighbor_links
            (next_choice draws) (target_length draws)
            [current_link] current_link).

Fixpoint attempts_loop (all_links : list edge)
    (neighbor_links : gmap Z (list Z)) (min_length max_length : Z)
    (attempts : list attempt_draws) (path : list Z) : result (list Z) :=
  match attempts with
  | [] => Ok (py_slice path 0 (Z.max min_length (Z.of_nat (length path))))
  | draws :: rest =>
      path ←? random_attempt all_links neighbor_links min_length max_length draws;
      if min_length <=? Z.of_nat (length path) then Ok path
      else attempts_loop all_links neighbor_links min_length max_length rest path
  end.

(** [generate_random_path] with [max_attempts = 1 + len(more)]: at least
    one attempt is made, as with the default of 100. *)
Definition generate_random_path (all_links : list edge)
    (neighbor_links : gmap Z (list Z)) (min_length max_length : Z)
    (first : attempt_draws) (more : list attempt_draws) : result (list Z) :=
  attempts_loop all_links neighbor_links min_length max_length (first :: more) [].

(** [G.add_edge(u, v, EDGEID=int(edge_id), ...)] followed by
    [edge_id += 1], on the list of edges in creation order (which is the
    order of [G.edges] as long as no ordered pair of nodes is joined
    twice) and the counter. *)
Definition add_edge (state : list edge * Z) (u v : Z) : list edge * Z :=
  (state.1 ++ [(u, v, state.2)], state.2 + 1).

(** The body of the edge loops of [create_grid_network] for the node of
    row [i] and column [j]: the right, downward, left and upward edge. *)
Definition grid_cell (m n i : Z) (state : list edge * Z) (j : Z)
    : list edge * Z :=
  let current := i * n + j in
  let state :=
    if j <? n - 1 then add_edge state current (i * n + (j + 1)) else state in
  let state :=
    if i <? m - 1 then add_edge state current ((i + 1) * n + j) else state in
  let state :=
    if 0 <? j then add_edge state current (i * n + (j - 1)) else state in
  if 0 <? i then add_edge state current ((i - 1) * n + j) else state.

(** The edges of [create_grid_network(m, n)] with their ['EDGEID']s. *)
Definition create_grid_network (m n : Z) : list edge :=
  (fold_left
     (fun state i => fold_left (grid_cell m n i) (py_range n) state)
     (py_range m) ([], 0)).1.

(** The ordered pairs of nodes joined from the node of row [i] and column
    [j], and in the whole grid. *)
Definition grid_neighbours (m n i j : Z) : list (Z * Z) :=
  let current := i * n + j in
  (if j <? n - 1 then [(current, i * n + (j + 1))] else [])
  ++ (if i <? m - 1 then [(current, (i + 1) * n + j)] else [])
  ++ (if 0 <? j then [(current, i * n + (j - 1))] else [])
  ++ (if 0 <? i then [(current, (i - 1) * n + j)] else []).

Definition grid_pairs (m n : Z) : list (Z * Z) :=
  py_range m ≫= fun i => py_range n ≫= fun j => grid_neighbours m n i j.

(** The pairs numbered from 0 in their order. *)
Definition number_edges (pairs : list (Z * Z)) : list edge :=
  imap (fun k pair => (pair, Z.of_nat k)) pairs.

Definition numbered (pairs : list (Z * Z)) (state : list edge * Z) : Prop :=
  state.2 = Z.of_nat (length pairs) ∧ state.1 = number_edges pairs.

(** ** The cycle as sample data *)

(** The edges of the four-link cycle, its ground-truth path, and an
    attempt that starts at the first edge, aims at four links and always
    takes the first available neighbour. *)
Definition cycle_edges : list edge :=
  [(0, 1, 0); (1, 2, 1); (2, 3, 2); (3, 0, 3)].

Definition cycle_ground_truth : gmap Z (list Z) := {[ 0 := [0; 1; 2; 3] ]}.

Definition first_neighbour : attempt_draws :=
  {| start_edge := 0;
     target_length := 4;
     next_choice := fun _ available => default 0 (head available) |}.

(** Four one-link paths, for the split. *)
Definition four_paths : gmap Z (list Z) :=
  {[ 0 := [0]; 1 := [1]; 2 := [2]; 3 := [3] ]}.

(** A network read back from the sample data of the 2 x 2 grid. *)
Definition two_by_two_network : Network :=
  {| edges_count := length (create_grid_network 2 2);
     neighbor_links_O := (create_neighbor_links (create_grid_network 2 2)).1;
     link_nodes_dict :=
       (fun e => (edge_id e, (edge_u e, edge_v e))) <$> create_grid_network 2 2;
     nx_shortest_path := fun _ _ => None;
     edge_LENGTH := fun _ _ => None |}.

(** ** metrics.py: the Jensen-Shannon divergence *)





(** A key of the route dictionaries: a path as a tuple, or ['unseen']. *)
Inductive route : Type := Path (links : list Z) | Unseen.

#[global] Instance route_eq_dec : EqDecision route.
Proof. solve_decision. Defined.

















(** * Properties *)

(** ** Subsequence validation *)

Lemma drop_lookup_cons (sub : list Z) (i : nat) (s : Z) :
  sub !! i = Some s → drop i sub = s :: drop (S i) sub.
Proof.
  revert i. induction sub as [|a sub IH]; intros [|i] H; simplify_eq/=; auto.
Qed.

Lemma sublist_cons_same (s : Z) (l k : list Z) :
  s :: l `sublist_of` s :: k ↔ l `sublist_of` k.
Proof.
  split; [|apply sublist_skip].
  rewrite sublist_cons_r. intros [H|(l' & Heq & H)]; [|by simplify_eq].
  apply sublist_cons_l in H as (k1 & k2 & -> & H).
  by apply sublist_inserts_l, sublist_cons.
Qed.

Lemma sublist_cons_other (s item : Z) (l k : list Z) :
  item ≠ s → s :: l `sublist_of` item :: k ↔ s :: l `sublist_of` k.
Proof.
  intros Hne. split; [|apply sublist_cons].
  rewrite sublist_cons_r. intros [H|(l' & Heq & H)]; [done|by simplify_eq].
Qed.

Lemma subsequence_scan_sublist (sub sequence : list Z) (i : nat) :
  (i ≤ length sub)%nat →
  subsequence_scan sub i sequence = true ↔ drop i sub `sublist_of` sequence.
Proof.
  revert i. induction sequence as [|item rest IH]; intros i Hi;
    cbn [subsequence_scan].
  - rewrite Nat.eqb_eq, sublist_nil_r. split.
    + intros ->. apply drop_all.
    + intros H. apply (f_equal length) in H. rewrite length_drop in H. simpl in H. lia.
  - destruct (Nat.ltb_spec i (length sub)) as [Hlt|Hge]; cbn [andb].
    + destruct (lookup_lt_is_Some_2 sub i Hlt) as [s Hs]. rewrite Hs.
      rewrite (drop_lookup_cons _ _ _ Hs).
      destruct (Z.eqb_spec item s) as [->|Hne].
      * rewrite sublist_cons_same.
        destruct (Nat.eqb_spec (S i) (length sub)) as [Heq|Hneq].
        -- rewrite drop_ge by lia. split; auto using sublist_nil_l.
        -- apply IH. lia.
      * rewrite sublist_cons_other by done.
        rewrite <- (drop_lookup_cons _ _ _ Hs). by apply IH.
    + rewrite IH by done. rewrite drop_ge by lia.
      split; auto using sublist_nil_l.
Qed.

Lemma is_path_subsequence_of_path_sublist (needle haystack : list Z) :
  is_path_subsequence_of_path needle haystack = true ↔ needle `sublist_of` haystack.
Proof.
  unfold is_path_subsequence_of_path.
  destruct (Nat.eqb_spec (length needle) 0) as [H0|Hn].
  - destruct needle; [|done]. split; auto using sublist_nil_l.
  - rewrite subsequence_scan_sublist by lia. by rewrite drop_0.
Qed.

Lemma py_slice_drop_last (x : Z) (s : list Z) :
  length (py_slice (x :: s) 0 (-1)) = length s.
Proof.
  unfold py_slice. cbn [length]. rewrite length_drop, length_take.
  assert (Hn : Z.of_nat (S (length s)) = Z.of_nat (length s) + 1) by lia.
  rewrite Hn. cbn [Z.ltb Z.compare length]. lia.
Qed.

(** C7. [is_path_subsequence_of_path needle haystack] is true exactly when
    [needle] can be obtained from [haystack] by deleting elements (same
    relative order, not necessarily contiguous); hence it is true on
    [(s, s)], true for the empty needle, and false on [(s, s[:-1])] for
    every non-empty [s = x :: s']. *)
Theorem is_path_subsequence_of_path_correct :
  (∀ needle haystack : list Z,
     is_path_subsequence_of_path needle haystack = true
     ↔ needle `sublist_of` haystack)
  ∧ (∀ s : list Z, is_path_subsequence_of_path s s = true)
  ∧ (∀ haystack : list Z, is_path_subsequence_of_path [] haystack = true)
  ∧ (∀ (x : Z) (s' : list Z),
       is_path_subsequence_of_path (x :: s') (py_slice (x :: s') 0 (-1)) = false).
Proof.
  split; [apply is_path_subsequence_of_path_sublist|].
  split; [intros s; by apply is_path_subsequence_of_path_sublist|].
  split; [done|].
  intros x s'. apply not_true_is_false.
  rewrite is_path_subsequence_of_path_sublist. intros H.
  apply sublist_length in H. rewrite py_slice_drop_last in H. simpl in H. lia.
Qed.

(** ** Sparse observations *)

Lemma py_range_S (k : nat) :
  py_range (Z.of_nat (S k)) = py_range (Z.of_nat k) ++ [Z.of_nat k].
Proof.
  unfold py_range. rewrite !Nat2Z.id, seq_S, fmap_app. done.
Qed.

(** The kept links after the first [k] indices: a subsequence of the first
    [k] links that starts like the path and, once the whole path has been
    visited, ends like it. *)
Lemma keep_links_prefix (path : list Z) (keep : Z → Z → bool) (k : nat) :
  (k ≤ length path)%nat →
  let kept :=
    fold_left
      (fun acc i =>
         match path !! Z.to_nat i with
         | Some x =>
             if (i =? 0) || (i =? Z.of_nat (length path) - 1) || keep i x
             then acc ++ [x] else acc
         | None => acc
         end)
      (py_range (Z.of_nat k)) [] in
  kept `sublist_of` take k path
  ∧ ((0 < k)%nat → head kept = head path)
  ∧ (k = length path → last kept = last path).
Proof.
  induction k as [|k IH]; intros Hk; cbn zeta.
  - cbn. split; [done|]. split; [lia|].
    intros Hn. destruct path; [done|discriminate].
  - rewrite py_range_S, fold_left_app. cbn [fold_left].
    destruct IH as (Hsub & Hhead & _); [lia|].
    set (kept := fold_left _ _ _) in *.
    rewrite Nat2Z.id.
    destruct (lookup_lt_is_Some_2 path k ltac:(lia)) as [x Hx]. rewrite Hx.
    rewrite (take_S_r _ _ _ Hx).
    assert (Hlast : S k = length path → last path = Some x).
    { intros Hn. rewrite last_lookup, <- Hn. done. }
    destruct ((Z.of_nat k =? 0) || (Z.of_nat k =? Z.of_nat (length path) - 1)
              || keep (Z.of_nat k) x) eqn:Hc.
    + split; [by apply sublist_app|]. split.
      * intros _. destruct k as [|k].
        -- apply sublist_nil_r in Hsub. rewrite Hsub. cbn.
           destruct path; simplify_eq/=. done.
        -- specialize (Hhead ltac:(lia)).
           destruct kept as [|y kept']; [|done].
           destruct path; simplify_eq/=.
      * intros Hn. rewrite last_snoc. by rewrite Hlast.
    + apply orb_false_iff in Hc as [Hc _]. apply orb_false_iff in Hc as [H0 H1].
      apply Z.eqb_neq in H0, H1.
      split; [by apply sublist_inserts_r|]. split.
      * intros _. apply Hhead. lia.
      * intros Hn. lia.
Qed.

Lemma keep_links_anchors (path : list Z) (keep : Z → Z → bool) :
  keep_links path keep `sublist_of` path
  ∧ head (keep_links path keep) = head path
  ∧ last (keep_links path keep) = last path.
Proof.
  destruct (keep_links_prefix path keep (length path) ltac:(lia))
    as (Hsub & Hhead & Hlast).
  rewrite firstn_all in Hsub. unfold keep_links.
  split; [done|]. split; [|by apply Hlast].
  destruct path as [|a path]; [done|]. apply Hhead. simpl. lia.
Qed.

(** The sampler with a float ratio: whenever it returns (the ratio is not a
    NaN or an infinity), and whatever the permutation drawn, the result
    keeps the first and the last link and is a subsequence of the path. *)
Lemma prepare_discontinuous_path_ratio (permutation path : list Z) (r : float)
    (sparse : list Z) :
  prepare_discontinuous_path permutation path (Ratio r) = Ok sparse →
  head sparse = head path ∧ last sparse = last path
  ∧ (length sparse ≤ length path)%nat.
Proof.
  unfold prepare_discontinuous_path.
  destruct (py_int _) as [k|e]; [|discriminate]. cbn. intros [= <-].
  destruct (keep_links_anchors path
              (fun i _ => py_in i (take (Z.to_nat (0 `max` (k - 2))) permutation)))
    as (Hsub & Hhead & Hlast).
  repeat split; [done..|]. by apply sublist_length.
Qed.

(** The detector-based sampler keeps the first and the last link too. *)
Lemma sparse_observation_anchors (avi_ids path : list Z) :
  head (sparse_observation avi_ids path) = head path
  ∧ last (sparse_observation avi_ids path) = last path
  ∧ (length (sparse_observation avi_ids path) ≤ length path)%nat.
Proof.
  destruct (keep_links_anchors path (fun _ x => py_in x avi_ids))
    as (Hsub & Hhead & Hlast).
  repeat split; [done..|]. by apply sublist_length.
Qed.

(** With ['OD'] the sampler returns the two ends of the path, also when
    they are the same link. *)
Lemma prepare_discontinuous_path_OD (permutation : list Z) (o : Z) (rest : list Z) :
  prepare_discontinuous_path permutation (o :: rest) OD
  = Ok [o; default o (last rest)].
Proof.
  unfold prepare_discontinuous_path.
  assert (H0 : py_getitem (o :: rest) 0 = Ok o) by done.
  rewrite H0. cbn [bind].
  assert (H1 : py_getitem (o :: rest) (-1) = Ok (default o (last rest))).
  { unfold py_getitem. cbn [length]. cbn [Z.ltb Z.compare].
    replace (Z.of_nat (S (length rest)) + -1) with (Z.of_nat (length rest)) by lia.
    rewrite Nat2Z.id.
    destruct (Z.leb_spec 0 (Z.of_nat (length rest))); [|lia].
    destruct (Z.ltb_spec (Z.of_nat (length rest)) (Z.of_nat (S (length rest)))); [|lia].
    cbn [andb].
    assert (Hl : (o :: rest) !! length rest = Some (default o (last rest))).
    { change (length rest) with (pred (length (o :: rest))).
      rewrite <- last_lookup, last_cons. by destruct (last rest). }
    by rewrite Hl. }
  rewrite H1. done.
Qed.

(** C4. On the one-link path [[5]] with the ['OD'] ratio the sampler
    returns [[5; 5]]: two observations for a path of one link, whatever
    permutation is drawn. *)
Theorem prepare_discontinuous_path_OD_single_link :
  ∀ permutation : list Z,
    prepare_discontinuous_path permutation [5] OD = Ok [5; 5]
    ∧ (length [5] < length [5; 5])%nat.
Proof.
  intros permutation. split; [apply prepare_discontinuous_path_OD|]. simpl. lia.
Qed.

(** ** The sequence encoder *)

Lemma construct_point_info_row (self : DataGenerator) (network : Network)
    (p : point) :
  (is_onehot_embedding self = true → onehot_index network (point_index self p)) →
  construct_point_info self p network = Ok (point_row self network p).
Proof.
  unfold construct_point_info, point_row, onehot_index.
  change (match p with Token t => dg_token_indexs self t | Link l => l end)
    with (point_index self p).
  destruct (is_onehot_embedding self); [|done].
  intros H. specialize (H eq_refl). unfold np_onehot. cbn [length tokens].
  set (size := get_num_links network + Z.of_nat 4).
  assert (Hsize : size = get_num_links network + 4) by (unfold size; lia).
  destruct (Z.ltb_spec (point_index self p) 0).
  - destruct (Z.leb_spec 0 (size + point_index self p)); [|lia].
    destruct (Z.ltb_spec (size + point_index self p) size); [|lia]. done.
  - destruct (Z.leb_spec 0 (point_index self p)); [|lia].
    destruct (Z.ltb_spec (point_index self p) size); [|lia]. done.
Qed.

Lemma py_getitem_middle {A : Type} (pre suf : list A) (x : A) :
  py_getitem (pre ++ x :: suf) (Z.of_nat (length pre)) = Ok x.
Proof.
  unfold py_getitem. rewrite length_app. cbn [length].
  destruct (Z.ltb_spec (Z.of_nat (length pre)) 0); [lia|].
  destruct (Z.leb_spec 0 (Z.of_nat (length pre))); [|lia].
  destruct (Z.ltb_spec (Z.of_nat (length pre))
              (Z.of_nat (length pre + S (length suf)))); [|lia].
  cbn [andb]. rewrite Nat2Z.id, list_lookup_middle; done.
Qed.

Lemma py_getitem_last {A : Type} (pre : list A) (x : A) :
  py_getitem (pre ++ [x]) (-1) = Ok x.
Proof.
  unfold py_getitem. rewrite length_app. cbn [length Z.ltb Z.compare].
  replace (Z.of_nat (length pre + 1) + -1) with (Z.of_nat (length pre)) by lia.
  destruct (Z.leb_spec 0 (Z.of_nat (length pre))); [|lia].
  destruct (Z.ltb_spec (Z.of_nat (length pre)) (Z.of_nat (length pre + 1))); [|lia].
  cbn [andb]. rewrite Nat2Z.id, list_lookup_middle; done.
Qed.

(** The loop over the links before the last: from index [length pre] on,
    it appends the rows of the remaining links and markers. *)
Lemma encode_links_rows (self : DataGenerator) (network : Network)
    (suf pre : list Z) (a : Z) (acc : list (list Z)) :
  indexable self network (pre ++ a :: suf) →
  fold_left (encode_link self network (pre ++ a :: suf))
    (Z.of_nat <$> seq (length pre) (length suf)) (Ok acc)
  = Ok (acc ++ (point_row self network
                  <$> removelast (with_discontinuities network (a :: suf)))).
Proof.
  revert pre a acc. induction suf as [|b suf IH]; intros pre a acc Hix.
  - cbn. by rewrite app_nil_r.
  - cbn [length seq fmap list_fmap fold_left].
    assert (Hrow : ∀ p, (∀ l, p = Link l → l ∈ pre ++ a :: b :: suf) →
              construct_point_info self p network = Ok (point_row self network p)).
    { intros p Hp. apply construct_point_info_row. intros Hoh.
      destruct (Hix Hoh) as [Htok Hlinks]. destruct p as [t|l]; [apply Htok|].
      cbn. rewrite Forall_forall in Hlinks. apply Hlinks, Hp. done. }
    assert (Hstep : encode_link self network (pre ++ a :: b :: suf) (Ok acc)
                      (Z.of_nat (length pre))
                    = Ok (acc ++ (point_row self network
                            <$> Link a :: (if py_in b (downstream network a)
                                           then [] else [Token mos])))).
    { unfold encode_link. cbn [bind]. rewrite py_getitem_middle. cbn [bind].
      rewrite Hrow;
        [|intros l [= <-]; apply elem_of_app; right; apply elem_of_cons; by left].
      cbn [bind].
      replace (Z.of_nat (length pre) + 1) with (Z.of_nat (length (pre ++ [a])))
        by (rewrite length_app; cbn; lia).
      replace (pre ++ a :: b :: suf) with ((pre ++ [a]) ++ b :: suf)
        by (by rewrite <- app_assoc).
      rewrite py_getitem_middle.
      destruct (py_in b (downstream network a)); cbn [negb].
      - done.
      - rewrite Hrow; [|intros l [=]]. by rewrite <- app_assoc. }
    rewrite Hstep.
    replace (pre ++ a :: b :: suf) with ((pre ++ [a]) ++ b :: suf) in *
      by (by rewrite <- app_assoc).
    replace (S (length pre)) with (length (pre ++ [a]))
      by (rewrite length_app; cbn; lia).
    rewrite IH by done. f_equal. rewrite <- app_assoc. f_equal.
    rewrite <- fmap_app. f_equal.
    cbn [with_discontinuities].
    destruct suf as [|c suf].
    + cbn. by destruct (py_in b (downstream network a)).
    + set (tail := with_discontinuities network (b :: c :: suf)).
      assert (Htail : tail ≠ []) by done.
      destruct (py_in b (downstream network a)); cbn [app].
      * change (removelast (Link a :: tail))
          with (match tail with [] => [] | _ => Link a :: removelast tail end).
        by destruct tail.
      * change (removelast (Link a :: Token mos :: tail))
          with (Link a :: match tail with
                          | [] => []
                          | _ => Token mos :: removelast tail
                          end).
        by destruct tail.
Qed.

Lemma with_discontinuities_last (network : Network) (S_path : list Z) (x : Z) :
  with_discontinuities network (S_path ++ [x])
  = removelast (with_discontinuities network (S_path ++ [x])) ++ [Link x].
Proof.
  induction S_path as [|a S_path IH]; [done|].
  cbn [app with_discontinuities].
  destruct (S_path ++ [x]) as [|b rest] eqn:Heq; [by destruct S_path|].
  set (mid := if py_in b (downstream network a) then [] else [Token mos]).
  remember (with_discontinuities network (b :: rest)) as tail eqn:Htail.
  assert (Hsplit : ∃ front, tail = front ++ [Link x]) by (eexists; exact IH).
  destruct Hsplit as [front ->].
  replace (Link a :: mid ++ front ++ [Link x])
    with ((Link a :: mid ++ front) ++ [Link x])
    by (cbn; by rewrite <- app_assoc).
  by rewrite removelast_last.
Qed.

Lemma pad_loop_replicate (fuel : nat) (limit : Z) (pad_row : list Z)
    (rows : list (list Z)) :
  (Z.to_nat (limit - Z.of_nat (length rows)) ≤ fuel)%nat →
  pad_loop fuel limit (Ok pad_row) rows
  = Ok (rows ++ replicate (Z.to_nat (limit - Z.of_nat (length rows))) pad_row).
Proof.
  revert rows. induction fuel as [|fuel IH]; intros rows Hfuel; cbn [pad_loop].
  - replace (Z.to_nat _) with 0%nat by lia. by rewrite app_nil_r.
  - destruct (Z.ltb_spec (Z.of_nat (length rows)) limit) as [Hlt|Hge].
    + cbn [bind]. rewrite IH by (rewrite length_app; cbn; lia).
      rewrite length_app. cbn [length].
      replace (Z.to_nat (limit - Z.of_nat (length rows)))
        with (S (Z.to_nat (limit - Z.of_nat (length rows + 1)))) by lia.
      cbn [replicate]. by rewrite <- app_assoc.
    + replace (Z.to_nat _) with 0%nat by lia. by rewrite app_nil_r.
Qed.

Lemma with_discontinuities_links (network : Network) (S_path : list Z) (l : Z) :
  Link l ∈ with_discontinuities network S_path → l ∈ S_path.
Proof.
  induction S_path as [|a S_path IH]; cbn [with_discontinuities].
  - by rewrite elem_of_nil.
  - rewrite !elem_of_cons. intros [[= ->]|H]; [by left|right].
    destruct S_path as [|b S_path]; [by apply elem_of_nil in H|].
    apply elem_of_app in H as [H|H]; [|by apply IH].
    destruct (py_in b (downstream network a)).
    + by apply elem_of_nil in H.
    + by apply list_elem_of_singleton in H.
Qed.

Lemma encoded_points_links (network : Network) (limit : Z) (S_path : list Z) (l : Z) :
  Link l ∈ encoded_points network limit S_path → l ∈ S_path.
Proof.
  unfold encoded_points, encoded_content.
  rewrite elem_of_app, elem_of_cons, elem_of_app, elem_of_replicate.
  intros [[H|[H|H]]|[H _]]; [done| |by apply list_elem_of_singleton in H|done].
  by apply with_discontinuities_links in H.
Qed.

(** The encoder returns the rows of the specified token sequence. *)
Lemma encode_discontinuous_path_rows (self : DataGenerator) (network : Network)
    (S_dict : gmap Z (list Z)) (path_i : Z) (S_path : list Z) :
  S_dict !! path_i = Some S_path →
  S_path ≠ [] →
  indexable self network S_path →
  encode_discontinuous_path self network S_dict path_i
  = Ok (point_row self network <$> encoded_points network (dg_max_len self) S_path).
Proof.
  intros Hlook Hne Hix.
  assert (Hrow : ∀ p, (∀ l, p = Link l → l ∈ S_path) →
            construct_point_info self p network = Ok (point_row self network p)).
  { intros p Hp. apply construct_point_info_row. intros Hoh.
    destruct (Hix Hoh) as [Htok Hlinks]. destruct p as [t|l]; [apply Htok|].
    cbn. rewrite Forall_forall in Hlinks. by apply Hlinks, Hp. }
  unfold encode_discontinuous_path, lookup_path. rewrite Hlook. cbn [bind].
  rewrite Hrow by (intros l [=]). cbn [bind].
  destruct S_path as [|a suf]; [done|].
  replace (py_range (Z.of_nat (length (a :: suf)) - 1))
    with (Z.of_nat <$> seq (length (@nil Z)) (length suf))
    by (unfold py_range; cbn [length]; f_equal; f_equal; lia).
  rewrite (encode_links_rows self network suf [] a) by done. cbn [bind].
  destruct (exists_last (l := a :: suf) ltac:(done)) as (pre & x & Heq).
  rewrite Heq in *. rewrite py_getitem_last. cbn [bind].
  rewrite Hrow
    by (intros l [= <-]; apply elem_of_app; right; by apply list_elem_of_singleton).
  cbn [bind].
  rewrite Hrow by (intros l [=]). cbn [bind].
  rewrite Hrow by (intros l [=]).
  match goal with |- pad_loop _ _ _ ?c = _ => set (content := c) end.
  assert (Hcontent : content
            = point_row self network <$> encoded_content network (pre ++ [x])).
  { unfold content, encoded_content.
    rewrite (with_discontinuities_last network pre x), removelast_last.
    rewrite fmap_cons, !fmap_app. cbn [fmap list_fmap app].
    rewrite <- !app_assoc. reflexivity. }
  rewrite Hcontent.
  rewrite pad_loop_replicate by lia.
  unfold encoded_points. rewrite fmap_app, fmap_replicate, length_fmap. done.
Qed.

(** C5. For a non-empty sparse path whose content (begin token, observed
    links with their markers, end token) fits in [max_len], the encoder
    returns exactly [max_len] rows, and they are, one row per token: the
    begin token, the observed links in order with one [mos] marker between
    every two consecutive links of which the second is not
    downstream-adjacent to the first (and none between adjacent ones), the
    end token, then [pos] tokens. The row of a token or of a link is
    [[index; 0]] with index rows, and with one-hot rows the vector of
    [num_links + 4] entries that holds a [1] at the index and [0]
    elsewhere, followed by a [0]; the link ids are then taken to index
    that vector. *)
Theorem encode_discontinuous_path_correct (self : DataGenerator)
    (network : Network) (S_dict : gmap Z (list Z)) (path_i : Z)
    (S_path : list Z) :
  S_dict !! path_i = Some S_path →
  S_path ≠ [] →
  indexable self network S_path →
  Z.of_nat (length (encoded_content network S_path)) ≤ dg_max_len self →
  ∃ rows : list (list Z),
    encode_discontinuous_path self network S_dict path_i = Ok rows
    ∧ Z.of_nat (length rows) = dg_max_len self
    ∧ rows
      = (fun p =>
           if is_onehot_embedding self then
             <[Z.to_nat (if point_index self p <? 0
                         then get_num_links network + 4 + point_index self p
                         else point_index self p) := 1]>
               (replicate (Z.to_nat (get_num_links network + 4)) 0) ++ [0]
           else [point_index self p; 0])
        <$> (Token bos :: with_discontinuities network S_path ++ [Token eos]
             ++ replicate
                  (Z.to_nat (dg_max_len self
                             - Z.of_nat (length (encoded_content network S_path))))
                  (Token pos)).
Proof.
  intros Hlook Hne Hix Hfit.
  exists (point_row self network <$> encoded_points network (dg_max_len self) S_path).
  split; [by apply encode_discontinuous_path_rows|].
  split.
  - rewrite length_fmap. unfold encoded_points.
    rewrite length_app, length_replicate. lia.
  - replace (Token bos :: with_discontinuities network S_path ++ [Token eos]
             ++ replicate _ (Token pos))
      with (encoded_points network (dg_max_len self) S_path)
      by (unfold encoded_points, encoded_content; cbn [app];
          by rewrite <- app_assoc).
    apply list_fmap_ext. intros _ p _. unfold point_row. cbn [length tokens].
    by replace (get_num_links network + Z.of_nat 4)
      with (get_num_links network + 4) by lia.
Qed.

(** ** The constrained decoder: shape of the result *)

Lemma bind_Ok {A B : Type} (r : result A) (k : A → result B) (b : B) :
  bind r k = Ok b → ∃ a, r = Ok a ∧ k a = Ok b.
Proof. destruct r as [a|e]; [eauto|discriminate]. Qed.

Lemma lookup_path_Ok (S_dict : gmap Z (list Z)) (path_i : Z) (S_path : list Z) :
  lookup_path S_dict path_i = Ok S_path ↔ S_dict !! path_i = Some S_path.
Proof.
  unfold lookup_path. destruct (S_dict !! path_i); split; congruence.
Qed.

(** C1. Whenever [predict_path] returns a distribution, it is either empty
    or it holds exactly one path, with mass exactly [1.0], and the sparse
    path is a subsequence of that path. *)
Theorem predict_path_single_hypothesis (self : RoutesFormer) (network : Network)
    (S_dict : gmap Z (list Z)) (path_i : Z) (d : gmap (list Z) float) :
  predict_path self network S_dict path_i = Ok d →
  d = ∅
  ∨ ∃ S_path path : list Z,
      S_dict !! path_i = Some S_path
      ∧ d = {[ path := 1%float ]}
      ∧ size d = 1%nat
      ∧ d !! path = Some 1%float
      ∧ is_path_subsequence_of_path S_path path = true.
Proof.
  unfold predict_path, _predict_path_argmax.
  destruct (String.eqb _ _); [|intros [= <-]; by left].
  intros H. apply bind_Ok in H as (S_path & HS & H).
  apply lookup_path_Ok in HS.
  apply bind_Ok in H as (generated & _ & H).
  destruct (is_path_subsequence_of_path S_path generated) eqn:Hsub.
  { injection H as <-. right. exists S_path, generated.
    rewrite map_size_singleton, lookup_singleton_eq. done. }
  destruct (use_shortest_path self); [|injection H as <-; by left].
  destruct (shortest_path_fallback network S_path) as [complete_path|e];
    [|injection H as <-; by left].
  destruct (negb _ && is_path_subsequence_of_path S_path complete_path) eqn:Hc;
    [|injection H as <-; by left].
  apply andb_true_iff in Hc as [_ Hc].
  injection H as <-. right. exists S_path, complete_path.
  rewrite map_size_singleton, lookup_singleton_eq. done.
Qed.

(** ** The constrained decoder: tokens of the generated path *)

Lemma py_in_elem (x : Z) (l : list Z) : py_in x l = true ↔ x ∈ l.
Proof.
  unfold py_in. rewrite existsb_exists. split.
  - intros (y & Hy & Heq). apply Z.eqb_eq in Heq as ->. by apply list_elem_of_In.
  - intros H. exists x. split; [by apply list_elem_of_In|apply Z.eqb_refl].
Qed.

Lemma py_getitem_elem {A : Type} (l : list A) (i : Z) (x : A) :
  py_getitem l i = Ok x → x ∈ l.
Proof.
  unfold py_getitem. destruct (_ && _); [|discriminate].
  destruct (l !! _) eqn:Hl; [|discriminate].
  intros [= <-]. by eapply list_elem_of_lookup_2.
Qed.

Lemma py_getitem_nat {A : Type} (l : list A) (i : nat) (x : A) :
  l !! i = Some x → py_getitem l (Z.of_nat i) = Ok x.
Proof.
  intros H. pose proof (lookup_lt_Some _ _ _ H) as Hlt.
  unfold py_getitem.
  destruct (Z.ltb_spec (Z.of_nat i) 0); [lia|].
  destruct (Z.leb_spec 0 (Z.of_nat i)); [|lia].
  destruct (Z.ltb_spec (Z.of_nat i) (Z.of_nat (length l))); [|lia].
  cbn [andb]. by rewrite Nat2Z.id, H.
Qed.

Lemma model_choice_elem (predict_val : list float) (neighbours : list Z) (link : Z) :
  model_choice predict_val neighbours = Ok (Some link) → link ∈ neighbours.
Proof.
  unfold model_choice. destruct (_ <=? 0); [discriminate|].
  destruct (torch_index _ _) as [probs|e]; [|discriminate]. cbn [bind].
  destruct (PrimFloat.leb _ _); [discriminate|].
  destruct (py_getitem neighbours _) as [l|e] eqn:Hl; [|discriminate].
  intros [= <-]. by eapply py_getitem_elem.
Qed.

Lemma downstream_segments (network : Network) (link : Z) :
  adjacency_closed network → Forall (segment network) (downstream network link).
Proof.
  intros Hadj. unfold downstream.
  destruct (neighbor_links_O network !! link) eqn:Hl; cbn; [|done].
  by eapply (map_Forall_lookup_1 _ _ _ _ Hadj).
Qed.

Lemma commit_extends (self : RoutesFormer) (generated : list Z) (idx : nat)
    (link : Z) :
  tgt (control_state (commit self generated idx link)) = generated
  ∨ tgt (control_state (commit self generated idx link)) = generated ++ [link].
Proof. unfold commit. destruct (_ =? _); cbn; auto. Qed.

(** One pass appends at most one token, and only a link of the sparse path
    or a downstream neighbour. *)
Lemma decode_step_extends (self : RoutesFormer) (network : Network)
    (src : list (list Z)) (S_path : list Z) (st : decoder_state) (c : control) :
  decode_step self network src S_path st = Ok c →
  tgt (control_state c) = tgt st
  ∨ ∃ link, tgt (control_state c) = tgt st ++ [link]
      ∧ (link ∈ S_path ∨ ∃ current, link ∈ downstream network current).
Proof.
  unfold decode_step. intros H.
  apply bind_Ok in H as (last_token & _ & H).
  destruct (last_token =? rf_token_indexs self bos).
  { apply bind_Ok in H as (link & Hlink & [= <-]).
    destruct (commit_extends self (tgt st) 1 link) as [->| ->]; [by left|].
    right. exists link. split; [done|]. left. by eapply py_getitem_elem. }
  assert (Hmodel : ∀ r,
    bind (model_choice (predict (model self) src (tgt st))
            (downstream network last_token)) r = Ok c →
    (∀ choice, r choice =
       match choice with
       | Some link => Ok (commit self (tgt st) (s_path_idx st) link)
       | None => Ok (Break st)
       end) →
    tgt (control_state c) = tgt st
    ∨ ∃ link, tgt (control_state c) = tgt st ++ [link]
        ∧ (link ∈ S_path ∨ ∃ current, link ∈ downstream network current)).
  { intros r Hr Hk. apply bind_Ok in Hr as (choice & Hchoice & Hr).
    rewrite Hk in Hr. destruct choice as [link|]; injection Hr as <-; [|by left].
    destruct (commit_extends self (tgt st) (s_path_idx st) link) as [->| ->];
      [by left|].
    right. exists link. split; [done|]. right. exists last_token.
    by eapply model_choice_elem. }
  destruct (_ && _).
  - apply bind_Ok in H as (anchor & Hanchor & H).
    destruct (py_in anchor _).
    + injection H as <-.
      destruct (commit_extends self (tgt st) (S (s_path_idx st)) anchor)
        as [->| ->]; [by left|].
      right. exists anchor. split; [done|]. left. by eapply py_getitem_elem.
    + by eapply Hmodel.
  - destruct (is_path_subsequence_of_path S_path (tgt st)).
    + injection H as <-. left. unfold commit. by rewrite Z.eqb_refl.
    + by eapply Hmodel.
Qed.

Lemma decode_loop_extends (self : RoutesFormer) (network : Network)
    (src : list (list Z)) (S_path : list Z) (steps : nat)
    (st st' : decoder_state) :
  decode_loop self network src S_path steps st = Ok st' →
  ∃ appended,
    tgt st' = tgt st ++ appended
    ∧ Forall (fun link => link ∈ S_path ∨ ∃ current, link ∈ downstream network current)
        appended.
Proof.
  revert st. induction steps as [|steps IH]; intros st; cbn [decode_loop].
  - intros [= <-]. exists []. by rewrite app_nil_r.
  - intros H. apply bind_Ok in H as (c & Hstep & H).
    apply decode_step_extends in Hstep.
    assert (Hone : ∃ appended,
      tgt (control_state c) = tgt st ++ appended
      ∧ Forall (fun link => link ∈ S_path
                  ∨ ∃ current, link ∈ downstream network current) appended).
    { destruct Hstep as [->|(link & -> & Hlink)].
      - exists []. by rewrite app_nil_r.
      - exists [link]. split; [done|]. by constructor. }
    destruct Hone as (one & Hone & Hall).
    destruct c as [st1|st1]; cbn in Hone.
    + apply IH in H as (more & -> & Hmore). exists (one ++ more).
      rewrite Hone, <- app_assoc. split; [done|]. by apply Forall_app.
    + injection H as <-. by exists one.
Qed.

Lemma remove_first_head (x : Z) (l : list Z) : remove_first x (x :: l) = l.
Proof. cbn. by rewrite Z.eqb_refl. Qed.

Lemma remove_first_sublist (x : Z) (l : list Z) : remove_first x l `sublist_of` l.
Proof.
  induction l as [|y l IH]; cbn; [done|].
  destruct (y =? x); [by apply sublist_cons|by apply sublist_skip].
Qed.

(** The greedy path holds only links of the sparse path and downstream
    neighbours of some link. *)
Lemma greedy_path_tokens (self : RoutesFormer) (network : Network)
    (S_dict : gmap Z (list Z)) (path_i : Z) (S_path generated : list Z) :
  S_dict !! path_i = Some S_path →
  greedy_path self network S_dict path_i = Ok generated →
  Forall (fun link => link ∈ S_path ∨ ∃ current, link ∈ downstream network current)
    generated.
Proof.
  intros Hlook H. unfold greedy_path in H.
  apply lookup_path_Ok in Hlook. rewrite Hlook in H. cbn [bind] in H.
  apply bind_Ok in H as (src & _ & H).
  apply bind_Ok in H as (st & Hloop & [= <-]).
  apply decode_loop_extends in Hloop as (appended & -> & Hall).
  cbn [tgt app]. by rewrite remove_first_head.
Qed.

Lemma find_link_segments (network : Network) (from_node to_node : Z) :
  link_nodes_closed network →
  Forall (segment network) (find_link network from_node to_node).
Proof.
  intros Hclosed. unfold find_link.
  destruct (list_find _ _) as [[i [link nodes]]|] eqn:Hfind; [|done].
  apply list_find_Some in Hfind as (Hi & _ & _).
  constructor; [|done].
  unfold link_nodes_closed in Hclosed. rewrite Forall_forall in Hclosed.
  apply (Hclosed (link, nodes)). by eapply list_elem_of_lookup_2.
Qed.

Lemma links_along_segments (network : Network) (nodes : list Z) :
  link_nodes_closed network →
  Forall (segment network) (links_along network nodes).
Proof.
  intros Hclosed. induction nodes as [|a [|b nodes] IH]; cbn; [done..|].
  apply Forall_app. split; [by apply find_link_segments|done].
Qed.

Lemma stitch_from_segments (network : Network) (rest : list Z)
    (acc : result (list Z)) (prev_link : Z) (complete_path : list Z) :
  link_nodes_closed network →
  Forall (segment network) rest →
  (∀ sofar, acc = Ok sofar → Forall (segment network) sofar) →
  stitch_from network acc prev_link rest = Ok complete_path →
  Forall (segment network) complete_path.
Proof.
  intros Hclosed. revert acc prev_link.
  induction rest as [|curr rest IH]; intros acc prev Hrest Hacc; cbn.
  - intros ->. by apply Hacc.
  - apply Forall_cons in Hrest as [Hcurr Hrest].
    apply IH; [done|].
    intros sofar Hs. unfold stitch in Hs.
    apply bind_Ok in Hs as (before & -> & Hs).
    apply bind_Ok in Hs as (prev_nodes & _ & Hs).
    apply bind_Ok in Hs as (curr_nodes & _ & [= <-]).
    apply Forall_app. split; [by apply Hacc|].
    apply Forall_app. split; [|by constructor].
    destruct (bool_decide _); [|done].
    destruct (nx_shortest_path _ _ _); [by apply links_along_segments|done].
Qed.

Lemma shortest_path_fallback_segments (network : Network)
    (S_path complete_path : list Z) :
  link_nodes_closed network →
  Forall (segment network) S_path →
  shortest_path_fallback network S_path = Ok complete_path →
  Forall (segment network) complete_path.
Proof.
  intros Hclosed HS. unfold shortest_path_fallback.
  destruct S_path as [|first rest]; [by intros [= <-]|].
  apply Forall_cons in HS as [Hfirst Hrest].
  apply stitch_from_segments; [done..|].
  intros sofar [= <-]. by constructor.
Qed.

(** C10. On a network whose adjacency lists and link-node dictionary hold
    link ids, and for a sparse path of link ids, every path that
    [predict_path] returns, greedy or stitched, holds only link ids: none of
    the reserved indices [num_links .. num_links + 3] occurs in it. *)
Theorem predict_path_only_segments (self : RoutesFormer) (network : Network)
    (S_dict : gmap Z (list Z)) (path_i : Z) (S_path : list Z)
    (d : gmap (list Z) float) :
  adjacency_closed network →
  link_nodes_closed network →
  S_dict !! path_i = Some S_path →
  Forall (segment network) S_path →
  predict_path self network S_dict path_i = Ok d →
  ∀ path : list Z, is_Some (d !! path) →
  ∀ x : Z, x ∈ path →
    segment network x ∧ ∀ t : token, x ≠ make_token_indexs network t.
Proof.
  intros Hadj Hclosed Hlook HS Hd path Hpath.
  assert (Hseg : Forall (segment network) path).
  { unfold predict_path, _predict_path_argmax in Hd.
    destruct (String.eqb _ _);
      [|injection Hd as <-; rewrite lookup_empty in Hpath; by destruct Hpath].
    pose proof Hlook as Hlook'. apply lookup_path_Ok in Hlook'.
    rewrite Hlook' in Hd. cbn [bind] in Hd.
    apply bind_Ok in Hd as (generated & Hgreedy & Hd).
    assert (Hkey : ∀ key : list Z, Forall (segment network) key →
              d = {[ key := 1%float ]} → Forall (segment network) path).
    { intros key Hkey ->. destruct Hpath as [v Hv].
      apply lookup_singleton_Some in Hv as [<- _]. done. }
    assert (Hempty : d = ∅ → Forall (segment network) path).
    { intros ->. rewrite lookup_empty in Hpath. by destruct Hpath. }
    destruct (is_path_subsequence_of_path S_path generated).
    { injection Hd as <-. eapply Hkey; [|done].
      eapply Forall_impl;
        [by eapply greedy_path_tokens|].
      intros link [Hin|[current Hin]]; cbn in *.
      - rewrite Forall_forall in HS. by apply HS.
      - pose proof (downstream_segments network current Hadj) as Hds.
        rewrite Forall_forall in Hds. by apply Hds. }
    destruct (use_shortest_path self); [|injection Hd as <-; by apply Hempty].
    destruct (shortest_path_fallback network S_path) as [complete_path|e] eqn:Hfb;
      [|injection Hd as <-; by apply Hempty].
    destruct (_ && _); injection Hd as <-; [|by apply Hempty].
    eapply Hkey; [|done]. by eapply shortest_path_fallback_segments. }
  intros x Hx. rewrite Forall_forall in Hseg. specialize (Hseg x Hx).
  split; [done|]. intros t ->. unfold segment, make_token_indexs in Hseg.
  destruct t; lia.
Qed.

(** ** The constrained decoder: no exception on well-formed inputs *)

Lemma py_getitem_last_nonempty {A : Type} (l : list A) :
  l ≠ [] → ∃ x, py_getitem l (-1) = Ok x.
Proof.
  intros Hne. destruct (exists_last Hne) as (pre & x & ->).
  exists x. apply py_getitem_last.
Qed.

Lemma torch_index_returns (predict_val : list float) (indices : list Z) :
  Forall (fun i => 0 ≤ i < Z.of_nat (length predict_val)) indices →
  ∃ probs, torch_index predict_val indices = Ok probs
           ∧ length probs = length indices.
Proof.
  induction 1 as [|i indices Hi _ (probs & IH & Hlen)]; cbn [torch_index].
  - by exists [].
  - destruct (lookup_lt_is_Some_2 predict_val (Z.to_nat i) ltac:(lia)) as [x Hx].
    apply py_getitem_nat in Hx. rewrite Z2Nat.id in Hx by lia.
    rewrite Hx, IH. cbn [bind]. exists (x :: probs). split; [done|].
    cbn [length]. by rewrite Hlen.
Qed.

Lemma torch_max_from_index (best : float) (best_i i : nat) (v : list float) :
  (best_i < i)%nat →
  (snd (torch_max_from best best_i i v) < i + length v)%nat.
Proof.
  revert best best_i i. induction v as [|x v IH]; intros best best_i i Hlt;
    cbn [torch_max_from snd length]; [lia|].
  destruct (torch_greater x best).
  - specialize (IH x i (S i) ltac:(lia)). lia.
  - specialize (IH best best_i (S i) ltac:(lia)). lia.
Qed.

Lemma torch_argmax_index (v : list float) :
  v ≠ [] → (torch_argmax v < length v)%nat.
Proof.
  destruct v as [|x v]; [done|]. intros _. cbn [torch_argmax length].
  pose proof (torch_max_from_index x 0 1 v ltac:(lia)). lia.
Qed.

Lemma model_choice_returns (predict_val : list float) (neighbours : list Z) :
  Forall (fun i => 0 ≤ i < Z.of_nat (length predict_val)) neighbours →
  ∃ choice, model_choice predict_val neighbours = Ok choice.
Proof.
  intros Hin. unfold model_choice.
  destruct (Z.leb_spec (Z.of_nat (length neighbours)) 0) as [|Hlen]; [by eexists|].
  destruct (torch_index_returns _ _ Hin) as (probs & -> & Hprobs). cbn [bind].
  destruct (PrimFloat.leb _ _); [by eexists|].
  assert (Hne : probs ≠ []) by (destruct probs; [cbn in Hprobs; lia|done]).
  pose proof (torch_argmax_index probs Hne) as Harg.
  destruct (lookup_lt_is_Some_2 neighbours (torch_argmax probs) ltac:(lia))
    as [link Hlink].
  rewrite (py_getitem_nat _ _ _ Hlink). cbn [bind]. by eexists.
Qed.

Lemma commit_nonempty (self : RoutesFormer) (generated : list Z) (idx : nat)
    (link : Z) :
  generated ≠ [] → tgt (control_state (commit self generated idx link)) ≠ [].
Proof.
  intros Hne. destruct (commit_extends self generated idx link) as [->| ->];
    [done|]. by destruct generated.
Qed.

(** A pass returns, and leaves a non-empty prefix, when the sparse path is
    non-empty and the score vector covers the candidates. *)
Lemma decode_step_returns (self : RoutesFormer) (network : Network)
    (src : list (list Z)) (S_path : list Z) (st : decoder_state) :
  S_path ≠ [] →
  tgt st ≠ [] →
  adjacency_closed network →
  (∀ src generated,
     get_num_links network ≤ Z.of_nat (length (predict (model self) src generated))) →
  ∃ c, decode_step self network src S_path st = Ok c
       ∧ tgt (control_state c) ≠ [].
Proof.
  intros HS Hne Hadj Hvocab. unfold decode_step.
  destruct (py_getitem_last_nonempty (tgt st) Hne) as [last_token ->].
  cbn [bind].
  assert (Hmodel : ∃ choice,
    model_choice (predict (model self) src (tgt st)) (downstream network last_token)
    = Ok choice).
  { apply model_choice_returns.
    eapply Forall_impl; [by apply downstream_segments|].
    intros link Hlink. unfold segment in Hlink. cbn.
    specialize (Hvocab src (tgt st)). lia. }
  destruct Hmodel as [choice Hchoice].
  assert (Hk : ∃ c,
    match choice with
    | Some link => Ok (commit self (tgt st) (s_path_idx st) link)
    | None => Ok (Break st)
    end = Ok c ∧ tgt (control_state c) ≠ []).
  { destruct choice as [link|]; eexists; (split; [done|]);
      [by apply commit_nonempty|done]. }
  destruct (last_token =? rf_token_indexs self bos).
  { destruct S_path as [|origin S_path]; [done|].
    change (py_getitem (origin :: S_path) 0) with (Ok origin). cbn [bind].
    eexists. split; [done|]. by apply commit_nonempty. }
  destruct (Nat.ltb_spec (s_path_idx st) (length S_path)) as [Hlt|Hge];
    cbn [andb].
  - destruct (is_path_subsequence_of_path S_path (tgt st)); cbn [negb].
    + eexists. split; [done|]. by apply commit_nonempty.
    + destruct (lookup_lt_is_Some_2 S_path _ Hlt) as [anchor Ha].
      rewrite (py_getitem_nat _ _ _ Ha). cbn [bind].
      destruct (py_in anchor _).
      * eexists. split; [done|]. by apply commit_nonempty.
      * rewrite Hchoice. cbn [bind]. exact Hk.
  - destruct (is_path_subsequence_of_path S_path (tgt st)).
    + eexists. split; [done|]. by apply commit_nonempty.
    + rewrite Hchoice. cbn [bind]. exact Hk.
Qed.

Lemma decode_loop_returns (self : RoutesFormer) (network : Network)
    (src : list (list Z)) (S_path : list Z) (steps : nat) (st : decoder_state) :
  S_path ≠ [] →
  tgt st ≠ [] →
  adjacency_closed network →
  (∀ src generated,
     get_num_links network ≤ Z.of_nat (length (predict (model self) src generated))) →
  ∃ st', decode_loop self network src S_path steps st = Ok st'.
Proof.
  intros HS Hne Hadj Hvocab. revert st Hne.
  induction steps as [|steps IH]; intros st Hne; cbn [decode_loop]; [by eexists|].
  destruct (decode_step_returns self network src S_path st HS Hne Hadj Hvocab)
    as (c & -> & Hc).
  cbn [bind]. destruct c as [st'|st']; [by apply IH|by eexists].
Qed.

(** For a non-empty sparse path, an adjacency over link ids and a score
    vector that covers the link ids, [predict_path] raises nothing: it
    returns a distribution. *)
Lemma predict_path_returns (self : RoutesFormer) (network : Network)
    (S_dict : gmap Z (list Z)) (path_i : Z) (S_path : list Z) :
  S_dict !! path_i = Some S_path →
  S_path ≠ [] →
  indexable (data_generator self) network S_path →
  adjacency_closed network →
  (∀ src generated,
     get_num_links network ≤ Z.of_nat (length (predict (model self) src generated))) →
  ∃ d, predict_path self network S_dict path_i = Ok d.
Proof.
  intros Hlook HS Hix Hadj Hvocab.
  unfold predict_path. destruct (String.eqb _ _); [|by eexists].
  unfold _predict_path_argmax, greedy_path.
  pose proof Hlook as Hlook'. apply lookup_path_Ok in Hlook'. rewrite Hlook'.
  cbn [bind].
  rewrite (encode_discontinuous_path_rows _ _ _ _ S_path) by done. cbn [bind].
  destruct (decode_loop_returns self network
              (point_row (data_generator self) network
                 <$> encoded_points network (dg_max_len (data_generator self)) S_path)
              S_path (Z.to_nat (rf_max_len self))
              {| tgt := [rf_token_indexs self bos]; s_path_idx := 0 |}
              HS ltac:(done) Hadj Hvocab) as [st' ->].
  cbn [bind].
  destruct (is_path_subsequence_of_path S_path _); [by eexists|].
  destruct (use_shortest_path self); [|by eexists].
  destruct (shortest_path_fallback network S_path); [|by eexists].
  destruct (_ && _); by eexists.
Qed.

(** ** The constrained decoder: dead ends *)

Lemma decode_loop_reaches (self : RoutesFormer) (network : Network)
    (src : list (list Z)) (S_path : list Z) (k : nat) (st st' : decoder_state) :
  reaches self network src S_path k st st' →
  ∀ m, decode_loop self network src S_path (k + m) st
       = decode_loop self network src S_path m st'.
Proof.
  induction 1 as [st|k st st1 st2 Hstep _ IH]; intros m; [done|].
  cbn [Nat.add decode_loop]. rewrite Hstep. cbn [bind]. apply IH.
Qed.

Lemma model_choice_dead_end (predict_val : list float) (neighbours : list Z) :
  neighbours = []
  ∨ (∃ probs, torch_index predict_val neighbours = Ok probs
              ∧ PrimFloat.leb (torch_max probs) 0 = true) →
  model_choice predict_val neighbours = Ok None.
Proof.
  unfold model_choice. intros [->|(probs & Hprobs & Hmax)]; [done|].
  destruct (_ <=? 0); [done|]. rewrite Hprobs. cbn [bind]. by rewrite Hmax.
Qed.

(** The pass that finds no admissible continuation leaves the loop without
    appending. *)
Lemma decode_step_dead_end (self : RoutesFormer) (network : Network)
    (src : list (list Z)) (S_path : list Z) (st : decoder_state) (current : Z) :
  py_getitem (tgt st) (-1) = Ok current →
  current ≠ rf_token_indexs self bos →
  is_path_subsequence_of_path S_path (tgt st) = false →
  (∀ anchor, S_path !! s_path_idx st = Some anchor →
             anchor ∉ downstream network current) →
  (downstream network current = []
   ∨ ∃ probs,
       torch_index (predict (model self) src (tgt st)) (downstream network current)
       = Ok probs
       ∧ PrimFloat.leb (torch_max probs) 0 = true) →
  decode_step self network src S_path st = Ok (Break st).
Proof.
  intros Hlast Hbos Hcov Hanchor Hdead. unfold decode_step.
  rewrite Hlast. cbn [bind].
  destruct (Z.eqb_spec current (rf_token_indexs self bos)) as [|_]; [done|].
  rewrite Hcov. cbn [negb]. rewrite andb_true_r.
  rewrite (model_choice_dead_end _ _ Hdead). cbn [bind].
  destruct (Nat.ltb_spec (s_path_idx st) (length S_path)) as [Hlt|Hge]; [|done].
  destruct (lookup_lt_is_Some_2 S_path _ Hlt) as [anchor Ha].
  rewrite (py_getitem_nat _ _ _ Ha). cbn [bind].
  destruct (py_in anchor (downstream network current)) eqn:Hin; [|done].
  apply py_in_elem in Hin. by apply Hanchor in Ha.
Qed.

(** C3, as the code has it. With the fallback disabled: if, once a link has
    been committed, the sparse path is not yet a subsequence of the
    generated prefix, the pending anchor (if any) is not among the current
    link's downstream candidates, and the candidate list is empty or the
    largest score among the candidates is [<= 0], then the pass commits
    nothing, the loop ends, and [predict_path] returns the empty
    distribution, without raising. *)
Theorem dead_end_yields_empty (self : RoutesFormer) (network : Network)
    (S_dict : gmap Z (list Z)) (path_i : Z) (S_path : list Z)
    (src : list (list Z)) (k : nat) (st : decoder_state) (current : Z) :
  rf_path_generation_method self = "argmax" →
  use_shortest_path self = false →
  S_dict !! path_i = Some S_path →
  encode_discontinuous_path (data_generator self) network S_dict path_i = Ok src →
  reaches self network src S_path k (initial_state self) st →
  (k < Z.to_nat (rf_max_len self))%nat →
  py_getitem (tgt st) (-1) = Ok current →
  current ≠ rf_token_indexs self bos →
  is_path_subsequence_of_path S_path (tgt st) = false →
  (∀ anchor, S_path !! s_path_idx st = Some anchor →
             anchor ∉ downstream network current) →
  (downstream network current = []
   ∨ ∃ probs,
       torch_index (predict (model self) src (tgt st)) (downstream network current)
       = Ok probs
       ∧ PrimFloat.leb (torch_max probs) 0 = true) →
  decode_step self network src S_path st = Ok (Break st)
  ∧ predict_path self network S_dict path_i = Ok ∅.
Proof.
  intros Hmethod Hflag Hlook Hsrc Hreach Hk Hlast Hbos Hcov Hanchor Hdead.
  pose proof (decode_step_dead_end self network src S_path st current
                Hlast Hbos Hcov Hanchor Hdead) as Hstep.
  split; [done|].
  unfold predict_path, _predict_path_argmax, greedy_path.
  rewrite Hmethod. cbn [String.eqb].
  replace (String.eqb "argmax" "argmax") with true by done.
  apply lookup_path_Ok in Hlook. rewrite Hlook. cbn [bind].
  rewrite Hsrc. cbn [bind].
  replace (Z.to_nat (rf_max_len self))
    with (k + S (Z.to_nat (rf_max_len self) - S k))%nat by lia.
  rewrite (decode_loop_reaches _ _ _ _ _ _ _ Hreach).
  cbn [decode_loop]. rewrite Hstep. cbn [bind].
  destruct (is_path_subsequence_of_path S_path
              (remove_first (rf_token_indexs self bos) (tgt st))) eqn:Hsub.
  - apply is_path_subsequence_of_path_sublist in Hsub.
    assert (Hfull : is_path_subsequence_of_path S_path (tgt st) = true).
    { apply is_path_subsequence_of_path_sublist.
      etrans; [exact Hsub|apply remove_first_sublist]. }
    congruence.
  - by rewrite Hflag.
Qed.

(** ** The constrained decoder on the four-link cycle *)

Lemma positive_not_le (p : float) :
  PrimFloat.ltb 0 p = true → PrimFloat.leb p 0 = false.
Proof.
  rewrite ltb_spec, leb_spec. change (Prim2SF 0) with (S754_zero false).
  unfold SFltb, SFleb, SFcompare.
  destruct (Prim2SF p) as [s|s| |s m e]; try discriminate;
    destruct s; try discriminate; reflexivity.
Qed.

(** With a single candidate whose score is positive, the model's choice is
    that candidate. *)
Lemma model_choice_single (predict_val : list float) (candidate : Z) (p : float) :
  py_getitem predict_val candidate = Ok p →
  PrimFloat.ltb 0 p = true →
  model_choice predict_val [candidate] = Ok (Some candidate).
Proof.
  intros Hp Hpos. unfold model_choice. cbn [length Z.of_nat Z.leb Z.compare Pos.of_succ_nat].
  cbn [torch_index]. rewrite Hp. cbn [bind torch_max torch_max_from fst].
  rewrite (positive_not_le _ Hpos). reflexivity.
Qed.

Lemma positive_scores_getitem (transformer : Transformer) (vocabulary : nat)
    (src : list (list Z)) (generated : list Z) (i : nat) :
  positive_scores transformer vocabulary →
  (i < vocabulary)%nat →
  ∃ p, py_getitem (predict transformer src generated) (Z.of_nat i) = Ok p
       ∧ PrimFloat.ltb 0 p = true.
Proof.
  intros Hpos Hi. destruct (Hpos src generated) as [Hlen Hall].
  destruct (lookup_lt_is_Some_2 (predict transformer src generated) i ltac:(lia))
    as [p Hp].
  exists p. split; [by apply py_getitem_nat|].
  rewrite Forall_forall in Hall. by eapply Hall, list_elem_of_lookup_2.
Qed.

Section Cycle.

Variable experiment_config : ExperimentConfig.
Variable transformer : Transformer.
Variable method_config : MethodConfig.

Local Abbreviation decoder :=
  (RoutesFormer_init cycle_network experiment_config transformer method_config).

(** After the begin token the first observed link is committed, whatever
    the predictor says. *)
Lemma cycle_step_origin (src : list (list Z)) :
  decode_step decoder cycle_network src [0; 3] (initial_state decoder)
  = Ok (Continue {| tgt := [4; 0]; s_path_idx := 1 |}).
Proof. reflexivity. Qed.

Hypothesis scores : positive_scores transformer 8.

(** Link [3] is not adjacent to link [0]: the model chooses among the
    candidates of [0], that is link [1]. *)
Lemma cycle_step_gap_1 (src : list (list Z)) :
  decode_step decoder cycle_network src [0; 3]
    {| tgt := [4; 0]; s_path_idx := 1 |}
  = Ok (Continue {| tgt := [4; 0; 1]; s_path_idx := 1 |}).
Proof.
  destruct (positive_scores_getitem transformer 8 src [4; 0] 1 scores ltac:(lia))
    as (p & Hp & Hpos).
  unfold decode_step. cbn [tgt s_path_idx].
  change (py_getitem [4; 0] (-1)) with (Ok 0 : result Z). cbn [bind].
  change (downstream cycle_network 0) with [1].
  change (model decoder) with transformer.
  rewrite (model_choice_single _ 1 p Hp Hpos). reflexivity.
Qed.

Lemma cycle_step_gap_2 (src : list (list Z)) :
  decode_step decoder cycle_network src [0; 3]
    {| tgt := [4; 0; 1]; s_path_idx := 1 |}
  = Ok (Continue {| tgt := [4; 0; 1; 2]; s_path_idx := 1 |}).
Proof.
  destruct (positive_scores_getitem transformer 8 src [4; 0; 1] 2 scores ltac:(lia))
    as (p & Hp & Hpos).
  unfold decode_step. cbn [tgt s_path_idx].
  change (py_getitem [4; 0; 1] (-1)) with (Ok 1 : result Z). cbn [bind].
  change (downstream cycle_network 1) with [2].
  change (model decoder) with transformer.
  rewrite (model_choice_single _ 2 p Hp Hpos). reflexivity.
Qed.

(** Link [3] is adjacent to link [2]: the anchor is forced. *)
Lemma cycle_step_anchor (src : list (list Z)) :
  decode_step decoder cycle_network src [0; 3]
    {| tgt := [4; 0; 1; 2]; s_path_idx := 1 |}
  = Ok (Continue {| tgt := [4; 0; 1; 2; 3]; s_path_idx := 2 |}).
Proof. reflexivity. Qed.

(** Every observation is covered: the end token is chosen and the loop
    ends. *)
Lemma cycle_step_end (src : list (list Z)) :
  decode_step decoder cycle_network src [0; 3]
    {| tgt := [4; 0; 1; 2; 3]; s_path_idx := 2 |}
  = Ok (Break {| tgt := [4; 0; 1; 2; 3]; s_path_idx := 2 |}).
Proof. reflexivity. Qed.

Lemma cycle_loop (src : list (list Z)) (steps : nat) :
  (4 ≤ steps)%nat →
  decode_loop decoder cycle_network src [0; 3] steps (initial_state decoder)
  = Ok {| tgt := [4; 0; 1; 2; 3]; s_path_idx := 2 |}.
Proof.
  intros Hsteps.
  destruct steps as [|[|[|[|steps]]]]; [lia..|].
  cbn [decode_loop].
  rewrite cycle_step_origin. cbn [bind].
  rewrite cycle_step_gap_1. cbn [bind].
  rewrite cycle_step_gap_2. cbn [bind].
  rewrite cycle_step_anchor. cbn [bind].
  destruct steps as [|steps]; [done|].
  cbn [decode_loop]. by rewrite cycle_step_end.
Qed.

Lemma cycle_indexable :
  indexable (data_generator decoder) cycle_network [0; 3].
Proof.
  intros _. unfold onehot_index.
  change (get_num_links cycle_network) with 4. split.
  - intros t.
    change (dg_token_indexs (data_generator decoder) t)
      with (make_token_indexs cycle_network t).
    unfold make_token_indexs. change (get_num_links cycle_network) with 4.
    destruct t; lia.
  - repeat constructor; lia.
Qed.

Lemma cycle_greedy_path :
  4 ≤ max_len experiment_config →
  greedy_path decoder cycle_network cycle_observations 0 = Ok [0; 1; 2; 3].
Proof.
  intros Hlen. unfold greedy_path.
  change (lookup_path cycle_observations 0) with (Ok [0; 3] : result (list Z)).
  cbn [bind].
  rewrite (encode_discontinuous_path_rows _ _ _ _ [0; 3]);
    [|done|done|apply cycle_indexable].
  cbn [bind]. rewrite cycle_loop by (cbn; lia). reflexivity.
Qed.

End Cycle.

(** C2. On the four-link cycle with the sparse observation [(0, 3)]: the
    first pass commits link [0] whatever the predictor returns; and with a
    predictor whose scores are all positive (a uniform positive one in
    particular) and a step budget [max_len >= 4], [_predict_path_argmax]
    returns exactly the path [(0, 1, 2, 3)] with probability [1.0]. *)
Theorem cycle_scenario (experiment_config : ExperimentConfig)
    (transformer : Transformer) (method_config : MethodConfig) :
  4 ≤ max_len experiment_config →
  positive_scores transformer 8 →
  (∀ (any : Transformer) (src : list (list Z)),
     let decoder :=
       RoutesFormer_init cycle_network experiment_config any method_config in
     decode_step decoder cycle_network src [0; 3] (initial_state decoder)
     = Ok (Continue {| tgt := [rf_token_indexs decoder bos; 0]; s_path_idx := 1 |}))
  ∧ _predict_path_argmax
      (RoutesFormer_init cycle_network experiment_config transformer method_config)
      cycle_network cycle_observations 0
    = Ok {[ [0; 1; 2; 3] := 1%float ]}.
Proof.
  intros Hlen Hscores. split.
  - intros any src. apply cycle_step_origin.
  - unfold _predict_path_argmax.
    change (lookup_path cycle_observations 0) with (Ok [0; 3] : result (list Z)).
    cbn [bind].
    rewrite cycle_greedy_path by done. reflexivity.
Qed.

(** ** The shortest-path switch *)

Lemma downstream_ext (network network' : Network) (link : Z) :
  neighbor_links_O network = neighbor_links_O network' →
  downstream network link = downstream network' link.
Proof. unfold downstream. by intros ->. Qed.

Lemma construct_point_info_ext (dg : DataGenerator) (network network' : Network)
    (p : point) :
  edges_count network = edges_count network' →
  construct_point_info dg p network = construct_point_info dg p network'.
Proof. unfold construct_point_info, get_num_links. by intros ->. Qed.

Lemma encode_discontinuous_path_ext (dg : DataGenerator)
    (network network' : Network) (S_dict : gmap Z (list Z)) (path_i : Z) :
  edges_count network = edges_count network' →
  neighbor_links_O network = neighbor_links_O network' →
  encode_discontinuous_path dg network S_dict path_i
  = encode_discontinuous_path dg network' S_dict path_i.
Proof.
  intros He Hn. unfold encode_discontinuous_path.
  destruct (lookup_path S_dict path_i) as [S_path|e]; [|done]. cbn [bind].
  rewrite !(construct_point_info_ext dg network network') by done.
  destruct (construct_point_info dg (Token bos) network') as [begin_info|e];
    [|done]. cbn [bind].
  assert (Hfold : ∀ indices acc,
    fold_left (encode_link dg network S_path) indices acc
    = fold_left (encode_link dg network' S_path) indices acc).
  { induction indices as [|i indices IH]; intros acc; [done|].
    cbn [fold_left]. rewrite IH. f_equal. unfold encode_link.
    destruct acc as [path_src|e]; [|done]. cbn [bind].
    destruct (py_getitem S_path i) as [a|e]; [|done]. cbn [bind].
    rewrite !(construct_point_info_ext dg network network') by done.
    by rewrite (downstream_ext network network'). }
  rewrite Hfold.
  destruct (fold_left _ _ _) as [path_src|e]; [|done]. cbn [bind].
  destruct (py_getitem S_path (-1)) as [last_link|e]; [|done]. cbn [bind].
  by rewrite !(construct_point_info_ext dg network network').
Qed.

Lemma decode_loop_ext (self : RoutesFormer) (network network' : Network)
    (src : list (list Z)) (S_path : list Z) (steps : nat) (st : decoder_state) :
  neighbor_links_O network = neighbor_links_O network' →
  decode_loop self network src S_path steps st
  = decode_loop self network' src S_path steps st.
Proof.
  intros Hn. revert st. induction steps as [|steps IH]; intros st; [done|].
  cbn [decode_loop].
  assert (Hstep : decode_step self network src S_path st
                  = decode_step self network' src S_path st).
  { unfold decode_step.
    destruct (py_getitem (tgt st) (-1)) as [last_token|e]; [|done]. cbn [bind].
    by rewrite (downstream_ext network network'). }
  rewrite Hstep. clear Hstep.
  destruct (decode_step self network' src S_path st) as [[st'|st']|e];
    cbn [bind]; auto.
Qed.

(** The greedy path reads the network's link count and downstream adjacency
    only. *)
Lemma greedy_path_ext (self : RoutesFormer) (network network' : Network)
    (S_dict : gmap Z (list Z)) (path_i : Z) :
  edges_count network = edges_count network' →
  neighbor_links_O network = neighbor_links_O network' →
  greedy_path self network S_dict path_i = greedy_path self network' S_dict path_i.
Proof.
  intros He Hn. unfold greedy_path.
  destruct (lookup_path S_dict path_i) as [S_path|e]; [|done]. cbn [bind].
  rewrite (encode_discontinuous_path_ext _ network network') by done.
  destruct (encode_discontinuous_path _ _ _ _) as [src|e]; [|done]. cbn [bind].
  by rewrite (decode_loop_ext self network network').
Qed.

(** Without the switch, [predict_path] is the validated greedy path. *)
Lemma predict_path_without_fallback (self : RoutesFormer) (network : Network)
    (S_dict : gmap Z (list Z)) (path_i : Z) :
  use_shortest_path self = false →
  predict_path self network S_dict path_i
  = if String.eqb (rf_path_generation_method self) "argmax" then
      S_path ←? lookup_path S_dict path_i;
      generated ←? greedy_path self network S_dict path_i;
      Ok (if is_path_subsequence_of_path S_path generated
          then {[ generated := 1%float ]} else ∅)
    else Ok ∅.
Proof.
  intros Hflag. unfold predict_path, _predict_path_argmax.
  destruct (String.eqb _ _); [|done].
  destruct (lookup_path S_dict path_i) as [S_path|e]; [|done]. cbn [bind].
  destruct (greedy_path self network S_dict path_i) as [generated|e]; [|done].
  cbn [bind]. rewrite Hflag.
  by destruct (is_path_subsequence_of_path S_path generated).
Qed.

(** C9. The constructor sets [use_shortest_path] to [False] whatever the
    configurations are. Hence on a fresh instance [predict_path] is the
    validated greedy path, and its result is the same on two networks that
    differ only in their shortest paths, link-node dictionary and lengths,
    which the greedy part never reads.
    Once the attribute is set after construction the fallback runs: on the
    cycle whose link [2] has lost its downstream adjacency, the fresh
    decoder returns the empty distribution and the mutated one the stitched
    path. *)
Theorem fresh_decoder_never_falls_back :
  (∀ network experiment_config transformer method_config,
     use_shortest_path
       (RoutesFormer_init network experiment_config transformer method_config)
     = false)
  ∧ (∀ network0 experiment_config transformer method_config
       network S_dict path_i,
       let self :=
         RoutesFormer_init network0 experiment_config transformer method_config in
       predict_path self network S_dict path_i
       = if String.eqb (path_generation_method method_config) "argmax" then
           S_path ←? lookup_path S_dict path_i;
           generated ←? greedy_path self network S_dict path_i;
           Ok (if is_path_subsequence_of_path S_path generated
               then {[ generated := 1%float ]} else ∅)
         else Ok ∅)
  ∧ (∀ network0 experiment_config transformer method_config
       links adjacency nodes nodes' shortest shortest' lengths lengths'
       S_dict path_i,
       let self :=
         RoutesFormer_init network0 experiment_config transformer method_config in
       predict_path self
         {| edges_count := links; neighbor_links_O := adjacency;
            link_nodes_dict := nodes; nx_shortest_path := shortest;
            edge_LENGTH := lengths |} S_dict path_i
       = predict_path self
           {| edges_count := links; neighbor_links_O := adjacency;
              link_nodes_dict := nodes'; nx_shortest_path := shortest';
              edge_LENGTH := lengths' |} S_dict path_i)
  ∧ (predict_path broken_cycle_decoder broken_cycle_network cycle_observations 0
     = Ok ∅
     ∧ predict_path (set_use_shortest_path broken_cycle_decoder true)
         broken_cycle_network cycle_observations 0
       = Ok {[ [0; 1; 2; 3] := 1%float ]}).
Proof.
  split; [done|]. split; [|split].
  - intros. by apply predict_path_without_fallback.
  - intros network0 ec tr mc links adjacency nodes nodes' shortest shortest'
      lengths lengths' S_dict path_i self.
    rewrite !predict_path_without_fallback by done.
    by rewrite (greedy_path_ext self
                  {| edges_count := links; neighbor_links_O := adjacency;
                     link_nodes_dict := nodes; nx_shortest_path := shortest;
                     edge_LENGTH := lengths |}
                  {| edges_count := links; neighbor_links_O := adjacency;
                     link_nodes_dict := nodes'; nx_shortest_path := shortest';
                     edge_LENGTH := lengths' |}).
  - split; vm_compute; reflexivity.
Qed.

(** ** Metrics on degenerate inputs *)

(** An empty predicted distribution gives the worst-case constants. *)
Lemma empty_distribution_worst_case
    (sentence_bleu : list (list Z) → list Z → result float)
    (py_set : list Z → list Z) (network : Network)
    (gt_paths : gmap Z (list Z)) (s_dict : SparseDict) (path_i : Z)
    (is_global_path : bool) :
  calculate_path_ed gt_paths s_dict [] path_i is_global_path = Ok 1%float
  ∧ calculate_path_bleu sentence_bleu gt_paths s_dict [] path_i is_global_path
    = Ok 0%float
  ∧ calculate_path_tlla py_set network gt_paths s_dict [] path_i is_global_path
    = Ok 0%float.
Proof. done. Qed.

Lemma collect_scores_raise (per_path : list (list Z * float) → Z → result float)
    (worst : float) (idxs : option (list Z))
    (all_path_probabilities : list (Z * list (list Z * float))) (e : exn) :
  fold_left
    (fun acc '(path_i, path_probs) =>
       scores ←? acc;
       if selected idxs path_i then
         score ←? per_path path_probs path_i;
         if negb (np_isnan score) then Ok (scores ++ [score])
         else Ok (scores ++ [worst])
       else Ok scores)
    all_path_probabilities (Raise e)
  = Raise e.
Proof.
  induction all_path_probabilities as [|[path_i path_probs] rest IH]; [done|].
  cbn [fold_left bind]. apply IH.
Qed.

(** The values an aggregator averages: a per-path value that is a NaN has
    been replaced by the worst-case constant, so none of them is a NaN. *)
Lemma collect_scores_no_nan (per_path : list (list Z * float) → Z → result float)
    (worst : float) (all_path_probabilities : list (Z * list (list Z * float)))
    (idxs : option (list Z)) (scores : list float) :
  np_isnan worst = false →
  collect_scores per_path worst all_path_probabilities idxs = Ok scores →
  Forall (fun x => np_isnan x = false) scores.
Proof.
  intros Hworst. unfold collect_scores.
  assert (Hgen : ∀ sofar,
    Forall (fun x => np_isnan x = false) sofar →
    fold_left
      (fun acc '(path_i, path_probs) =>
         scores ←? acc;
         if selected idxs path_i then
           score ←? per_path path_probs path_i;
           if negb (np_isnan score) then Ok (scores ++ [score])
           else Ok (scores ++ [worst])
         else Ok scores)
      all_path_probabilities (Ok sofar) = Ok scores →
    Forall (fun x => np_isnan x = false) scores).
  { induction all_path_probabilities as [|[path_i path_probs] rest IH];
      intros sofar Hsofar; cbn [fold_left bind].
    - by intros [= <-].
    - destruct (selected idxs path_i); [|by apply IH].
      destruct (per_path path_probs path_i) as [score|e]; cbn [bind].
      + destruct (np_isnan score) eqn:Hnan; cbn [negb]; apply IH;
          apply Forall_app; (split; [done|]); by constructor.
      + by rewrite collect_scores_raise. }
  by apply Hgen.
Qed.

(** One selected path: its value, or the worst-case constant in place of a
    NaN, is what is averaged. *)
Lemma collect_scores_one (per_path : list (list Z * float) → Z → result float)
    (worst : float) (path_i : Z) (path_probs : list (list Z * float))
    (score : float) :
  per_path path_probs path_i = Ok score →
  collect_scores per_path worst [(path_i, path_probs)] None
  = Ok [if np_isnan score then worst else score].
Proof.
  intros H. unfold collect_scores. cbn [fold_left bind selected].
  rewrite H. cbn [bind]. by destruct (np_isnan score).
Qed.

Lemma sum_lengths_none (network : Network) (links : list Z) :
  sum_lengths network (fun link => py_in link []) links = Ok 0%float.
Proof.
  unfold sum_lengths. induction links as [|link links IH]; [done|].
  cbn [fold_left bind py_in existsb]. exact IH.
Qed.

(** C6. A ground-truth path of length zero with a non-empty predicted
    distribution yields no NaN for the aggregators to replace: the edit
    distance and the length accuracy of that path raise
    [ZeroDivisionError], and so do their aggregators, whatever [np.mean]
    and the order of [set] are. *)
Theorem zero_length_ground_truth_raises (np_mean : list float → float)
    (py_set : list Z → list Z) (network : Network) :
  let gt_paths : gmap Z (list Z) := {[ 0 := [] ]} in
  let s_dict := {| S_paths := {[ 0 := [] ]}; S_GT_link_idxs := None |} in
  let path_probabilities := [([1], 1%float)] in
  calculate_path_ed gt_paths s_dict path_probabilities 0 true
  = Raise ZeroDivisionError
  ∧ calculate_paths_ed np_mean gt_paths s_dict [(0, path_probabilities)] true None
    = Raise ZeroDivisionError
  ∧ calculate_path_tlla py_set network gt_paths s_dict path_probabilities 0 true
    = Raise ZeroDivisionError
  ∧ calculate_paths_tlla np_mean py_set network gt_paths s_dict
      [(0, path_probabilities)] true None
    = Raise ZeroDivisionError.
Proof.
  cbn zeta.
  assert (Htlla : calculate_path_tlla py_set network {[ 0 := [] ]}
                    {| S_paths := {[ 0 := [] ]}; S_GT_link_idxs := None |}
                    [([1], 1%float)] 0 true = Raise ZeroDivisionError).
  { unfold calculate_path_tlla. cbn [length Nat.eqb].
    change (ground_truth_path {[ 0 := [] ]} _ 0 true) with (Ok [] : result (list Z)).
    cbn [bind]. change (sum_lengths network (fun _ => true) []) with (Ok 0%float).
    cbn [bind fold_left]. by rewrite sum_lengths_none. }
  split; [done|]. split; [done|]. split; [done|].
  unfold calculate_paths_tlla, collect_scores. cbn [fold_left bind selected].
  by rewrite Htlla.
Qed.

(** ** The Jensen-Shannon divergence *)




























(** * Instances *)

(** The docstring examples of [is_path_subsequence_of_path]. *)
Example is_path_subsequence_of_path_docstring :
  is_path_subsequence_of_path [1; 3; 5] [1; 2; 3; 4; 5] = true
  ∧ is_path_subsequence_of_path [1; 4; 2] [1; 2; 3; 4; 5] = false.
Proof. split; reflexivity. Qed.

(** The sampler of the docstring: ratio [0.25] on five links keeps one
    interior link, the first of the permutation drawn. *)
Example prepare_discontinuous_path_docstring :
  prepare_discontinuous_path [2; 0; 4; 1; 3] [1; 2; 3; 4; 5] (Ratio 0.25)
  = Ok [1; 3; 5].
Proof. reflexivity. Qed.

(** The edit distance of the specification's scenario. *)
Example levenshtein_distance_scenario :
  levenshtein_distance [5; 6; 7] [5; 7] = 1
  ∧ calculate_path_ed {[ 0 := [5; 6; 7] ]}
      {| S_paths := ∅; S_GT_link_idxs := None |}
      [([5; 6; 7], 1%float)] 0 true = Ok 0%float.
Proof. split; reflexivity. Qed.

(** An instance of C1: the cycle scenario. *)
Lemma predict_path_single_hypothesis_witness :
  ({[ [0; 1; 2; 3] := 1%float ]} : gmap (list Z) float) = ∅
  ∨ ∃ S_path path : list Z,
      cycle_observations !! 0 = Some S_path
      ∧ ({[ [0; 1; 2; 3] := 1%float ]} : gmap (list Z) float) = {[ path := 1%float ]}
      ∧ size ({[ [0; 1; 2; 3] := 1%float ]} : gmap (list Z) float) = 1%nat
      ∧ ({[ [0; 1; 2; 3] := 1%float ]} : gmap (list Z) float) !! path = Some 1%float
      ∧ is_path_subsequence_of_path S_path path = true.
Proof.
  apply (predict_path_single_hypothesis cycle_decoder cycle_network
           cycle_observations 0).
  vm_compute. reflexivity.
Defined.

(** An instance of C2: the settings of [config.py] and the uniform
    predictor over the eight tokens. *)
Lemma cycle_scenario_witness :
  (∀ (any : Transformer) (src : list (list Z)),
     let decoder :=
       RoutesFormer_init cycle_network default_experiment_config any
         default_method_config in
     decode_step decoder cycle_network src [0; 3] (initial_state decoder)
     = Ok (Continue {| tgt := [rf_token_indexs decoder bos; 0]; s_path_idx := 1 |}))
  ∧ _predict_path_argmax cycle_decoder cycle_network cycle_observations 0
    = Ok {[ [0; 1; 2; 3] := 1%float ]}.
Proof.
  apply (cycle_scenario default_experiment_config (uniform_transformer 8 0.125)
           default_method_config).
  - vm_compute. discriminate.
  - intros src generated. split; [reflexivity|].
    repeat constructor.
Defined.

(** An instance of C3: on the cycle whose link [2] has no downstream
    neighbour, decoding stops after [(0, 1, 2)]. *)
Lemma dead_end_yields_empty_witness :
  ∃ src : list (list Z),
    decode_step broken_cycle_decoder broken_cycle_network src [0; 3]
      {| tgt := [4; 0; 1; 2]; s_path_idx := 1 |}
    = Ok (Break {| tgt := [4; 0; 1; 2]; s_path_idx := 1 |})
    ∧ predict_path broken_cycle_decoder broken_cycle_network cycle_observations 0
      = Ok ∅.
Proof.
  eexists.
  apply (dead_end_yields_empty broken_cycle_decoder broken_cycle_network
           cycle_observations 0 [0; 3] _ 3
           {| tgt := [4; 0; 1; 2]; s_path_idx := 1 |} 2).
  - reflexivity.
  - reflexivity.
  - reflexivity.
  - vm_compute. reflexivity.
  - eapply reaches_step; [vm_compute; reflexivity|].
    eapply reaches_step; [vm_compute; reflexivity|].
    eapply reaches_step; [vm_compute; reflexivity|].
    apply reaches_here.
  - vm_compute. lia.
  - reflexivity.
  - vm_compute. discriminate.
  - reflexivity.
  - intros anchor _. vm_compute. apply not_elem_of_nil.
  - left. reflexivity.
Defined.

(** C3 as stated fails in two ways. Once the sparse path is covered: on a
    single link with no downstream neighbour and the sparse path [(0)], the
    candidate list of the committed origin is empty, the fallback is
    disabled, and [predict_path] returns the path [(0)] with probability
    [1.0], not the empty distribution. When the pending anchor is a
    candidate: on the cycle with the sparse path [(0, 1)] and a predictor
    that scores every token [0.0], the largest score among the candidates
    of link [0] is [<= 0], yet the pass commits the anchor [1] and
    [predict_path] returns the path [(0, 1)]. *)
Lemma dead_end_claim_fails :
  (∃ (src : list (list Z)) (st : decoder_state),
     rf_path_generation_method single_link_decoder = "argmax"
     ∧ use_shortest_path single_link_decoder = false
     ∧ encode_discontinuous_path (data_generator single_link_decoder)
         single_link_network single_link_observations 0 = Ok src
     ∧ reaches single_link_decoder single_link_network src [0] 1
         (initial_state single_link_decoder) st
     ∧ (1 < Z.to_nat (rf_max_len single_link_decoder))%nat
     ∧ py_getitem (tgt st) (-1) = Ok 0
     ∧ 0 ≠ rf_token_indexs single_link_decoder bos
     ∧ downstream single_link_network 0 = []
     ∧ predict_path single_link_decoder single_link_network
         single_link_observations 0
       = Ok {[ [0] := 1%float ]}
     ∧ predict_path single_link_decoder single_link_network
         single_link_observations 0
       ≠ Ok ∅)
  ∧ (∃ (src : list (list Z)) (st : decoder_state),
       rf_path_generation_method zero_score_decoder = "argmax"
       ∧ use_shortest_path zero_score_decoder = false
       ∧ encode_discontinuous_path (data_generator zero_score_decoder)
           cycle_network adjacent_observations 0 = Ok src
       ∧ reaches zero_score_decoder cycle_network src [0; 1] 1
           (initial_state zero_score_decoder) st
       ∧ (1 < Z.to_nat (rf_max_len zero_score_decoder))%nat
       ∧ py_getitem (tgt st) (-1) = Ok 0
       ∧ 0 ≠ rf_token_indexs zero_score_decoder bos
       ∧ is_path_subsequence_of_path [0; 1] (tgt st) = false
       ∧ (∃ probs,
            torch_index (predict (model zero_score_decoder) src (tgt st))
              (downstream cycle_network 0) = Ok probs
            ∧ PrimFloat.leb (torch_max probs) 0 = true)
       ∧ decode_step zero_score_decoder cycle_network src [0; 1] st
         = Ok (Continue {| tgt := tgt st ++ [1]; s_path_idx := 2 |})
       ∧ predict_path zero_score_decoder cycle_network adjacent_observations 0
         ≠ Ok ∅).
Proof.
  assert (Hne : ∀ (key : list Z) (r : result (gmap (list Z) float)),
            r = Ok {[ key := 1%float ]} → r ≠ Ok ∅).
  { intros key r -> Heq.
    apply (f_equal (fun r : result (gmap (list Z) float) =>
                      match r with Ok m => m !! key | Raise _ => None end)) in Heq.
    cbn beta iota in Heq.
    rewrite lookup_singleton_eq, lookup_empty in Heq. discriminate. }
  split.
  - eexists. exists {| tgt := [1; 0]; s_path_idx := 1 |}.
    split; [reflexivity|]. split; [reflexivity|].
    split; [vm_compute; reflexivity|].
    split; [eapply reaches_step; [vm_compute; reflexivity|apply reaches_here]|].
    split; [vm_compute; lia|]. split; [reflexivity|].
    split; [vm_compute; discriminate|]. split; [reflexivity|].
    assert (H : predict_path single_link_decoder single_link_network
                  single_link_observations 0 = Ok {[ [0] := 1%float ]})
      by (vm_compute; reflexivity).
    split; [exact H|]. by apply (Hne [0]).
  - eexists. exists {| tgt := [4; 0]; s_path_idx := 1 |}.
    split; [reflexivity|]. split; [reflexivity|].
    split; [vm_compute; reflexivity|].
    split; [eapply reaches_step; [vm_compute; reflexivity|apply reaches_here]|].
    split; [vm_compute; lia|]. split; [reflexivity|].
    split; [vm_compute; discriminate|]. split; [reflexivity|].
    split; [exists [0%float]; split; reflexivity|].
    split; [vm_compute; reflexivity|].
    apply (Hne [0; 1]). vm_compute. reflexivity.
Qed.

(** An instance of C5: the sparse path [(0, 3)] on the cycle, thirty
    positions, index rows: begin [4], link [0], marker [6], link [3], end
    [5], then twenty-five times pad [7]. *)
Lemma encode_discontinuous_path_correct_witness :
  ∃ rows : list (list Z),
    encode_discontinuous_path (data_generator cycle_decoder) cycle_network
      cycle_observations 0 = Ok rows
    ∧ Z.of_nat (length rows) = 30
    ∧ rows = [4; 0] :: [0; 0] :: [6; 0] :: [3; 0] :: [5; 0]
             :: replicate 25 [7; 0].
Proof.
  apply (encode_discontinuous_path_correct (data_generator cycle_decoder)
           cycle_network cycle_observations 0 [0; 3]).
  - reflexivity.
  - discriminate.
  - intros Honehot. vm_compute in Honehot. discriminate.
  - vm_compute. discriminate.
Defined.

(** An instance of C10: link [2] of the path decoded on the cycle. *)
Lemma predict_path_only_segments_witness :
  segment cycle_network 2 ∧ ∀ t : token, 2 ≠ make_token_indexs cycle_network t.
Proof.
  refine (predict_path_only_segments cycle_decoder cycle_network
            cycle_observations 0 [0; 3] {[ [0; 1; 2; 3] := 1%float ]}
            _ _ _ _ _ [0; 1; 2; 3] _ 2 _).
  - unfold adjacency_closed. apply (bool_decide_unpack _). vm_compute. exact I.
  - unfold link_nodes_closed. apply (bool_decide_unpack _). vm_compute. exact I.
  - reflexivity.
  - apply (bool_decide_unpack _). vm_compute. exact I.
  - vm_compute. reflexivity.
  - exists 1%float. apply lookup_singleton_eq.
  - apply (bool_decide_unpack _). vm_compute. exact I.
Defined.

(** An empty sparse path makes the encoder raise, and [predict_path] with
    it; an unsupported generation method returns the empty distribution. *)
Example predict_path_degenerate_inputs :
  predict_path cycle_decoder cycle_network {[ 0 := [] ]} 0 = Raise IndexError
  ∧ predict_path
      (RoutesFormer_init cycle_network default_experiment_config
         (uniform_transformer 8 0.125)
         {| path_generation_method := "shortest_path";
            graph_constraint := true;
            discontinuous_path_attention := "global";
            allow_decoupled_trying := false |})
      cycle_network cycle_observations 0
    = Ok ∅.
Proof. split; vm_compute; reflexivity. Qed.



(** * Further properties *)

(** ** The greedy path: length, connectivity, origin and destination *)

Lemma decode_loop_length (self : RoutesFormer) (network : Network)
    (src : list (list Z)) (S_path : list Z) (steps : nat)
    (st st' : decoder_state) :
  decode_loop self network src S_path steps st = Ok st' →
  (length (tgt st') ≤ length (tgt st) + steps)%nat.
Proof.
  revert st. induction steps as [|steps IH]; intros st; cbn [decode_loop].
  - intros [= <-]. lia.
  - intros H. apply bind_Ok in H as (c & Hstep & H).
    apply decode_step_extends in Hstep.
    assert (Hc : (length (tgt (control_state c)) ≤ S (length (tgt st)))%nat).
    { destruct Hstep as [->|(link & -> & _)]; [lia|].
      rewrite length_app. cbn. lia. }
    destruct c as [st1|st1]; cbn in Hc.
    + apply IH in H. lia.
    + injection H as <-. lia.
Qed.

(** X1. The greedy path never holds more links than the step budget
    [max_len]. *)
Theorem greedy_path_length (self : RoutesFormer) (network : Network)
    (S_dict : gmap Z (list Z)) (path_i : Z) (generated : list Z) :
  greedy_path self network S_dict path_i = Ok generated →
  Z.of_nat (length generated) ≤ Z.max 0 (rf_max_len self).
Proof.
  unfold greedy_path. intros H.
  apply bind_Ok in H as (S_path & _ & H).
  apply bind_Ok in H as (src & _ & H).
  apply bind_Ok in H as (st & Hloop & [= <-]).
  pose proof (decode_loop_length _ _ _ _ _ _ _ Hloop) as Hlen.
  apply decode_loop_extends in Hloop as (appended & Happ & _).
  cbn [tgt app] in Happ, Hlen. rewrite Happ in *.
  rewrite remove_first_head. cbn [length] in Hlen. lia.
Qed.

(** What a pass appends, and when: the first observed link after the begin
    token; otherwise a downstream neighbour of the last link, and only
    while the sparse path is not yet covered. *)
Lemma decode_step_cases (self : RoutesFormer) (network : Network)
    (src : list (list Z)) (S_path : list Z) (st : decoder_state) (c : control) :
  decode_step self network src S_path st = Ok c →
  tgt (control_state c) = tgt st
  ∨ ∃ link last_token,
      tgt (control_state c) = tgt st ++ [link]
      ∧ py_getitem (tgt st) (-1) = Ok last_token
      ∧ ((last_token = rf_token_indexs self bos ∧ S_path !! 0%nat = Some link)
         ∨ (last_token ≠ rf_token_indexs self bos
            ∧ link ∈ downstream network last_token
            ∧ is_path_subsequence_of_path S_path (tgt st) = false)).
Proof.
  unfold decode_step. intros H.
  apply bind_Ok in H as (last_token & Hlast & H).
  destruct (Z.eqb_spec last_token (rf_token_indexs self bos)) as [Hbos|Hbos].
  { apply bind_Ok in H as (link & Hlink & [= <-]).
    destruct (commit_extends self (tgt st) 1 link) as [->| ->]; [by left|].
    right. exists link, last_token. split; [done|]. split; [done|]. left.
    split; [done|]. destruct S_path as [|origin S_path]; [done|].
    cbn in Hlink. by injection Hlink as ->. }
  destruct (is_path_subsequence_of_path S_path (tgt st)) eqn:Hcov.
  { rewrite andb_false_r in H. injection H as <-. left.
    unfold commit. by rewrite Z.eqb_refl. }
  assert (Hmodel : ∀ r,
    bind (model_choice (predict (model self) src (tgt st))
            (downstream network last_token)) r = Ok c →
    (∀ choice, r choice =
       match choice with
       | Some link => Ok (commit self (tgt st) (s_path_idx st) link)
       | None => Ok (Break st)
       end) →
    tgt (control_state c) = tgt st
    ∨ ∃ link last_token',
        tgt (control_state c) = tgt st ++ [link]
        ∧ Ok last_token = Ok last_token'
        ∧ ((last_token' = rf_token_indexs self bos ∧ S_path !! 0%nat = Some link)
           ∨ (last_token' ≠ rf_token_indexs self bos
              ∧ link ∈ downstream network last_token'
              ∧ false = false))).
  { intros r Hr Hk. apply bind_Ok in Hr as (choice & Hchoice & Hr).
    rewrite Hk in Hr. destruct choice as [link|]; injection Hr as <-; [|by left].
    destruct (commit_extends self (tgt st) (s_path_idx st) link) as [->| ->];
      [by left|].
    right. exists link, last_token. split; [done|]. split; [done|]. right.
    split; [done|]. split; [|done]. by eapply model_choice_elem. }
  rewrite Hlast. cbn [negb] in H. rewrite andb_true_r in H.
  destruct (Nat.ltb _ _).
  - apply bind_Ok in H as (anchor & Hanchor & H).
    destruct (py_in anchor _) eqn:Hin.
    + injection H as <-. apply py_in_elem in Hin.
      destruct (commit_extends self (tgt st) (S (s_path_idx st)) anchor)
        as [->| ->]; [by left|].
      right. exists anchor, last_token. split; [done|]. split; [done|]. right.
      done.
    + by eapply Hmodel.
  - by eapply Hmodel.
Qed.

Lemma connected_snoc (network : Network) (path : list Z) (a b : Z) :
  connected network (path ++ [a]) →
  b ∈ downstream network a →
  connected network ((path ++ [a]) ++ [b]).
Proof.
  intros Hc Hb. induction path as [|x path IH]; cbn; [done|].
  cbn in Hc. destruct (path ++ [a]) as [|y rest] eqn:Heq; [by destruct path|].
  cbn [app]. destruct Hc as [Hy Hc]. split; [done|]. by apply IH.
Qed.

(** The observation that completes the coverage is the last one. *)
Lemma sublist_completed (S_path generated : list Z) (x : Z) :
  ¬ S_path `sublist_of` generated →
  S_path `sublist_of` generated ++ [x] →
  last S_path = Some x.
Proof.
  intros Hnot Hsub. apply sublist_app_r in Hsub as (l1 & l2 & -> & H1 & H2).
  apply sublist_cons_r in H2 as [H2|(l' & -> & H2)].
  - apply sublist_nil_r in H2 as ->. rewrite app_nil_r in Hnot. done.
  - apply sublist_nil_r in H2 as ->. apply last_snoc.
Qed.

Lemma sublist_skip_foreign (S_path generated : list Z) (b : Z) :
  b ∉ S_path →
  S_path `sublist_of` b :: generated ↔ S_path `sublist_of` generated.
Proof.
  intros Hb. split; [|apply sublist_cons].
  rewrite sublist_cons_r. intros [H|(l' & -> & _)]; [done|].
  exfalso. apply Hb. by left.
Qed.

Lemma decode_step_invariant (self : RoutesFormer) (network : Network)
    (src : list (list Z)) (S_path : list Z) (st : decoder_state) (c : control) :
  S_path ≠ [] →
  Forall (segment network) S_path →
  adjacency_closed network →
  get_num_links network ≤ rf_token_indexs self bos →
  greedy_invariant self network S_path st →
  decode_step self network src S_path st = Ok c →
  greedy_invariant self network S_path (control_state c).
Proof.
  intros HS Hseg Hadj Hbos (generated & Htgt & Hgen & Hconn & Hhead & Hlast) Hstep.
  assert (Hforeign : rf_token_indexs self bos ∉ S_path).
  { intros Hin. rewrite Forall_forall in Hseg. apply Hseg in Hin.
    unfold segment in Hin. lia. }
  apply decode_step_cases in Hstep
    as [Hsame|(link & last_token & Happ & Hget & Hcase)].
  { exists generated. by rewrite Hsame. }
  exists (generated ++ [link]). rewrite Happ, Htgt. split; [done|].
  destruct (decide (generated = [])) as [->|Hne].
  - (* only the begin token so far *)
    cbn in Hget. rewrite Htgt in Hget. cbn in Hget. injection Hget as <-.
    destruct Hcase as [[_ Horigin]|[Hnot _]]; [|done].
    destruct S_path as [|origin S_path]; [done|].
    cbn in Horigin. injection Horigin as ->. cbn [app].
    split; [constructor; [by apply Forall_cons in Hseg as [? _]|done]|].
    split; [done|]. split; [done|].
    intros Hsub. apply sublist_length in Hsub. cbn in Hsub.
    destruct S_path; [done|cbn in Hsub; lia].
  - destruct (exists_last Hne) as (front & current & ->).
    rewrite Htgt in Hget.
    change (rf_token_indexs self bos :: front ++ [current])
      with ((rf_token_indexs self bos :: front) ++ [current]) in Hget.
    rewrite py_getitem_last in Hget. injection Hget as <-.
    assert (Hcur : segment network current).
    { rewrite Forall_forall in Hgen. apply Hgen, elem_of_app. right. by left. }
    destruct Hcase as [[Heq _]|(_ & Hlink & Hcov)];
      [unfold segment in Hcur; lia|].
    split.
    { apply Forall_app. split; [done|]. constructor; [|done].
      pose proof (downstream_segments network current Hadj) as Hds.
      rewrite Forall_forall in Hds. by apply Hds. }
    split; [by apply connected_snoc|].
    split.
    { intros _. rewrite <- Hhead by done. by destruct front. }
    intros Hsub. rewrite last_snoc. symmetry.
    eapply sublist_completed; [|exact Hsub].
    intros Hbefore.
    assert (Htrue : is_path_subsequence_of_path S_path (tgt st) = true).
    { apply is_path_subsequence_of_path_sublist. rewrite Htgt.
      by apply sublist_cons. }
    congruence.
Qed.

Lemma decode_loop_invariant (self : RoutesFormer) (network : Network)
    (src : list (list Z)) (S_path : list Z) (steps : nat)
    (st st' : decoder_state) :
  S_path ≠ [] →
  Forall (segment network) S_path →
  adjacency_closed network →
  get_num_links network ≤ rf_token_indexs self bos →
  greedy_invariant self network S_path st →
  decode_loop self network src S_path steps st = Ok st' →
  greedy_invariant self network S_path st'.
Proof.
  intros HS Hseg Hadj Hbos. revert st.
  induction steps as [|steps IH]; intros st Hinv; cbn [decode_loop].
  - by intros [= <-].
  - intros H. apply bind_Ok in H as (c & Hstep & H).
    pose proof (decode_step_invariant _ _ _ _ _ _ HS Hseg Hadj Hbos Hinv Hstep)
      as Hc.
    destruct c as [st1|st1]; cbn in Hc; [by eapply IH|].
    by injection H as <-.
Qed.

Lemma encode_empty_raises (dg : DataGenerator) (network : Network)
    (S_dict : gmap Z (list Z)) (path_i : Z) (rows : list (list Z)) :
  S_dict !! path_i = Some [] →
  encode_discontinuous_path dg network S_dict path_i ≠ Ok rows.
Proof.
  intros Hlook. unfold encode_discontinuous_path.
  apply lookup_path_Ok in Hlook. rewrite Hlook. cbn [bind].
  destruct (construct_point_info dg (Token bos) network); cbn; discriminate.
Qed.

(** The greedy path of a well-formed input satisfies the invariant. *)
Lemma greedy_path_invariant (self : RoutesFormer) (network : Network)
    (S_dict : gmap Z (list Z)) (path_i : Z) (S_path generated : list Z) :
  S_dict !! path_i = Some S_path →
  Forall (segment network) S_path →
  adjacency_closed network →
  get_num_links network ≤ rf_token_indexs self bos →
  greedy_path self network S_dict path_i = Ok generated →
  connected network generated
  ∧ (generated ≠ [] → head generated = head S_path)
  ∧ (S_path `sublist_of` generated → last generated = last S_path).
Proof.
  intros Hlook Hseg Hadj Hbos H. unfold greedy_path in H.
  pose proof Hlook as Hlook'. apply lookup_path_Ok in Hlook'.
  rewrite Hlook' in H. cbn [bind] in H.
  apply bind_Ok in H as (src & Hsrc & H).
  assert (HS : S_path ≠ []).
  { intros ->. by eapply encode_empty_raises. }
  apply bind_Ok in H as (st & Hloop & [= <-]).
  eapply decode_loop_invariant in Hloop; [|done..|].
  - destruct Hloop as (gen & -> & _ & Hconn & Hhead & Hlast).
    by rewrite remove_first_head.
  - exists []. repeat split; try done.
    intros Hsub. apply sublist_nil_r in Hsub. done.
Qed.

(** X2. On a network whose adjacency holds link ids, for a sparse path of
    link ids and a begin token outside the link ids, the greedy path
    respects the graph: every link of it is followed by one of its
    downstream neighbours. *)
Theorem greedy_path_connected (self : RoutesFormer) (network : Network)
    (S_dict : gmap Z (list Z)) (path_i : Z) (S_path generated : list Z) :
  S_dict !! path_i = Some S_path →
  Forall (segment network) S_path →
  adjacency_closed network →
  get_num_links network ≤ rf_token_indexs self bos →
  greedy_path self network S_dict path_i = Ok generated →
  connected network generated.
Proof.
  intros Hlook Hseg Hadj Hbos H.
  by destruct (greedy_path_invariant _ _ _ _ _ _ Hlook Hseg Hadj Hbos H).
Qed.

(** X3. Under the same conditions and with the fallback disabled, a path
    that [predict_path] returns starts with the first observed link, ends
    with the last observed link, and is connected in the graph. *)
Theorem predicted_path_joins_anchors (self : RoutesFormer) (network : Network)
    (S_dict : gmap Z (list Z)) (path_i : Z) (S_path path : list Z)
    (d : gmap (list Z) float) :
  use_shortest_path self = false →
  S_dict !! path_i = Some S_path →
  Forall (segment network) S_path →
  adjacency_closed network →
  get_num_links network ≤ rf_token_indexs self bos →
  predict_path self network S_dict path_i = Ok d →
  is_Some (d !! path) →
  head path = head S_path
  ∧ last path = last S_path
  ∧ connected network path.
Proof.
  intros Hflag Hlook Hseg Hadj Hbos Hd Hpath.
  rewrite predict_path_without_fallback in Hd by done.
  destruct (String.eqb _ _);
    [|injection Hd as <-; rewrite lookup_empty in Hpath; by destruct Hpath].
  pose proof Hlook as Hlook'. apply lookup_path_Ok in Hlook'.
  rewrite Hlook' in Hd. cbn [bind] in Hd.
  apply bind_Ok in Hd as (generated & Hgreedy & Hd).
  destruct (is_path_subsequence_of_path S_path generated) eqn:Hsub;
    injection Hd as <-;
    [|rewrite lookup_empty in Hpath; by destruct Hpath].
  destruct Hpath as [v Hv]. apply lookup_singleton_Some in Hv as [<- _].
  apply is_path_subsequence_of_path_sublist in Hsub.
  destruct (greedy_path_invariant _ _ _ _ _ _ Hlook Hseg Hadj Hbos Hgreedy)
    as (Hconn & Hhead & Hlast).
  assert (HS : S_path ≠ []).
  { intros ->. unfold greedy_path in Hgreedy. rewrite Hlook' in Hgreedy.
    cbn [bind] in Hgreedy. apply bind_Ok in Hgreedy as (src & Hsrc & _).
    by eapply encode_empty_raises. }
  assert (Hne : generated ≠ []).
  { intros ->. by apply sublist_nil_r in Hsub. }
  auto.
Qed.

(** ** The shortest-path fallback always validates *)

Lemma stitch_from_covers (network : Network) (rest : list Z)
    (acc : result (list Z)) (prev_link : Z) (done_links complete_path : list Z) :
  (∀ sofar, acc = Ok sofar → done_links `sublist_of` sofar) →
  stitch_from network acc prev_link rest = Ok complete_path →
  done_links ++ rest `sublist_of` complete_path.
Proof.
  revert acc prev_link done_links.
  induction rest as [|curr rest IH]; intros acc prev done_links Hacc; cbn.
  - intros ->. rewrite app_nil_r. by apply Hacc.
  - intros H.
    replace (done_links ++ curr :: rest) with ((done_links ++ [curr]) ++ rest)
      by (by rewrite <- app_assoc).
    eapply IH; [|exact H].
    intros sofar Hs. unfold stitch in Hs.
    apply bind_Ok in Hs as (before & -> & Hs).
    apply bind_Ok in Hs as (prev_nodes & _ & Hs).
    apply bind_Ok in Hs as (curr_nodes & _ & [= <-]).
    apply sublist_app; [by apply Hacc|].
    by apply sublist_inserts_l.
Qed.

(** Whatever the shortest paths are, the stitched path contains the sparse
    path as a subsequence. *)
Lemma shortest_path_fallback_covers (network : Network)
    (S_path complete_path : list Z) :
  shortest_path_fallback network S_path = Ok complete_path →
  S_path `sublist_of` complete_path.
Proof.
  unfold shortest_path_fallback. destruct S_path as [|first rest].
  - intros [= <-]. done.
  - intros H. change (first :: rest) with ([first] ++ rest).
    eapply stitch_from_covers; [|exact H]. by intros sofar [= <-].
Qed.

Lemma stitch_from_returns (network : Network) (rest : list Z)
    (sofar : list Z) (prev_link : Z) :
  (∃ nodes, link_nodes network prev_link = Ok nodes) →
  link_nodes_known network rest →
  ∃ complete_path,
    stitch_from network (Ok sofar) prev_link rest = Ok complete_path.
Proof.
  revert sofar prev_link.
  induction rest as [|curr rest IH]; intros sofar prev [pn Hprev] Hrest; cbn.
  - by eexists.
  - apply Forall_cons in Hrest as [[cn Hcurr] Hrest].
    unfold stitch. cbn [bind]. rewrite Hprev, Hcurr. cbn [bind].
    apply IH; [by eexists|done].
Qed.

(** X4. With the fallback enabled, for a sparse path all of whose links are
    keys of [link_nodes_dict], [predict_path] never returns the empty
    distribution: when the greedy path fails the validation, the stitched
    path passes it, also where no shortest path was found. *)
Theorem fallback_always_predicts (self : RoutesFormer) (network : Network)
    (S_dict : gmap Z (list Z)) (path_i : Z) (S_path : list Z)
    (d : gmap (list Z) float) :
  rf_path_generation_method self = "argmax" →
  use_shortest_path self = true →
  S_dict !! path_i = Some S_path →
  link_nodes_known network S_path →
  predict_path self network S_dict path_i = Ok d →
  ∃ path : list Z,
    d = {[ path := 1%float ]} ∧ S_path `sublist_of` path ∧ path ≠ [].
Proof.
  intros Hmethod Hflag Hlook Hknown Hd.
  unfold predict_path, _predict_path_argmax in Hd.
  rewrite Hmethod in Hd.
  replace (String.eqb "argmax" "argmax") with true in Hd by done.
  pose proof Hlook as Hlook'. apply lookup_path_Ok in Hlook'.
  rewrite Hlook' in Hd. cbn [bind] in Hd.
  apply bind_Ok in Hd as (generated & Hgreedy & Hd).
  assert (HS : S_path ≠ []).
  { intros ->. unfold greedy_path in Hgreedy. rewrite Hlook' in Hgreedy.
    cbn [bind] in Hgreedy. apply bind_Ok in Hgreedy as (src & Hsrc & _).
    by eapply encode_empty_raises. }
  assert (Hne : ∀ path, S_path `sublist_of` path → path ≠ []).
  { intros path Hsub ->. by apply sublist_nil_r in Hsub. }
  destruct (is_path_subsequence_of_path S_path generated) eqn:Hsub.
  { injection Hd as <-. apply is_path_subsequence_of_path_sublist in Hsub.
    exists generated. auto. }
  rewrite Hflag in Hd.
  assert (Hfb : ∃ cp, shortest_path_fallback network S_path = Ok cp).
  { unfold shortest_path_fallback. destruct S_path as [|first rest]; [done|].
    apply Forall_cons in Hknown as [Hfirst Hrest].
    by apply stitch_from_returns. }
  destruct Hfb as [cp Hfb]. rewrite Hfb in Hd.
  pose proof (shortest_path_fallback_covers _ _ _ Hfb) as Hcov.
  assert (Hcheck : negb (Nat.eqb (length cp) 0)
                   && is_path_subsequence_of_path S_path cp = true).
  { apply andb_true_iff. split.
    - destruct cp; [by apply Hne in Hcov|done].
    - by apply is_path_subsequence_of_path_sublist. }
  rewrite Hcheck in Hd. injection Hd as <-. exists cp. auto.
Qed.

(** ** The encoder never truncates *)

Lemma with_discontinuities_length (network : Network) (S_path : list Z) :
  S_path ≠ [] →
  (length S_path ≤ length (with_discontinuities network S_path)
   ≤ 2 * length S_path - 1)%nat.
Proof.
  induction S_path as [|a S_path IH]; [done|]. intros _.
  cbn [with_discontinuities]. destruct S_path as [|b S_path]; [cbn; lia|].
  specialize (IH ltac:(done)).
  set (tail_points := with_discontinuities network (b :: S_path)) in *.
  cbn [length] in *. rewrite length_app.
  destruct (py_in b (downstream network a)); cbn [length]; lia.
Qed.

(** X5. When the encoder returns, it has as many rows as the larger of
    [max_len] and the length of the content (begin token, observed links
    with their markers, end token): a content longer than [max_len] is
    neither truncated nor refused. The content of [n] observed links has
    between [n + 2] and [2 n + 1] positions. *)
Theorem encode_discontinuous_path_never_truncates (self : DataGenerator)
    (network : Network) (S_dict : gmap Z (list Z)) (path_i : Z)
    (S_path : list Z) (rows : list (list Z)) :
  S_dict !! path_i = Some S_path →
  indexable self network S_path →
  encode_discontinuous_path self network S_dict path_i = Ok rows →
  Z.of_nat (length rows)
  = Z.max (dg_max_len self) (Z.of_nat (length (encoded_content network S_path)))
  ∧ (length S_path + 2 ≤ length (encoded_content network S_path)
     ≤ 2 * length S_path + 1)%nat.
Proof.
  intros Hlook Hix Hrows.
  assert (HS : S_path ≠ []).
  { intros ->. by eapply encode_empty_raises. }
  rewrite (encode_discontinuous_path_rows _ _ _ _ S_path) in Hrows by done.
  assert (Hr : rows = point_row self network
                        <$> encoded_points network (dg_max_len self) S_path)
    by congruence.
  rewrite Hr. clear Hr Hrows.
  pose proof (with_discontinuities_length network S_path HS) as Hwd.
  split.
  - rewrite length_fmap. unfold encoded_points.
    rewrite length_app, length_replicate. lia.
  - unfold encoded_content. cbn [length]. rewrite length_app. cbn [length].
    assert (1 ≤ length S_path)%nat by (destruct S_path; [done|cbn; lia]). lia.
Qed.

(** ** Training targets *)

Lemma pad_target_loop_replicate (fuel : nat) (limit pad : Z) (tokens : list Z) :
  (Z.to_nat (limit - Z.of_nat (length tokens)) ≤ fuel)%nat →
  pad_target_loop fuel limit pad tokens
  = tokens ++ replicate (Z.to_nat (limit - Z.of_nat (length tokens))) pad.
Proof.
  revert tokens. induction fuel as [|fuel IH]; intros tokens Hfuel;
    cbn [pad_target_loop].
  - replace (Z.to_nat _) with 0%nat by lia. by rewrite app_nil_r.
  - destruct (Z.ltb_spec (Z.of_nat (length tokens)) limit) as [Hlt|Hge].
    + rewrite IH by (rewrite length_app; cbn; lia).
      rewrite length_app. cbn [length].
      replace (Z.to_nat (limit - Z.of_nat (length tokens)))
        with (S (Z.to_nat (limit - Z.of_nat (length tokens + 1)))) by lia.
      cbn [replicate]. by rewrite <- app_assoc.
    + replace (Z.to_nat _) with 0%nat by lia. by rewrite app_nil_r.
Qed.

(** The target of a path of the ground truth. *)
Lemma create_sequence_target_found (self : DataGenerator)
    (GT_dict : gmap Z (list Z)) (path_i : Z) (GT_path : list Z) :
  GT_dict !! path_i = Some GT_path →
  ∃ target,
    create_sequence_target self GT_dict path_i = Ok target
    ∧ target
      = dg_token_indexs self bos :: GT_path ++ [dg_token_indexs self eos]
        ++ replicate
             (Z.to_nat (dg_max_len self - Z.of_nat (length GT_path + 2)))
             (dg_token_indexs self pos)
    ∧ Z.of_nat (length target)
      = Z.max (dg_max_len self) (Z.of_nat (length GT_path + 2)).
Proof.
  intros Hlook. unfold create_sequence_target, lookup_path.
  rewrite Hlook. cbn [bind].
  eexists. split; [done|].
  assert (Hlen : length ([dg_token_indexs self bos] ++ GT_path
                         ++ [dg_token_indexs self eos])
                 = (length GT_path + 2)%nat).
  { cbn [app length]. rewrite length_app. cbn. lia. }
  rewrite pad_target_loop_replicate by lia. rewrite Hlen. split.
  - cbn [app]. by rewrite <- app_assoc.
  - rewrite length_app, length_replicate, Hlen. lia.
Qed.

(** X6. [create_sequence_target] raises [KeyError] for a missing path;
    otherwise the target is the begin token, the whole ground-truth path,
    the end token, and [pos] tokens up to [max_len]. It has
    [max (max_len, len + 2)] tokens: a path that does not fit is kept
    whole. *)
Theorem create_sequence_target_layout (self : DataGenerator)
    (GT_dict : gmap Z (list Z)) (path_i : Z) :
  match GT_dict !! path_i with
  | None => create_sequence_target self GT_dict path_i = Raise KeyError
  | Some GT_path =>
      ∃ target,
        create_sequence_target self GT_dict path_i = Ok target
        ∧ target
          = dg_token_indexs self bos :: GT_path ++ [dg_token_indexs self eos]
            ++ replicate
                 (Z.to_nat (dg_max_len self - Z.of_nat (length GT_path + 2)))
                 (dg_token_indexs self pos)
        ∧ Z.of_nat (length target)
          = Z.max (dg_max_len self) (Z.of_nat (length GT_path + 2))
  end.
Proof.
  destruct (GT_dict !! path_i) as [GT_path|] eqn:Hlook.
  - by apply create_sequence_target_found.
  - unfold create_sequence_target, lookup_path. by rewrite Hlook.
Qed.

Lemma collect_samples_raise (self : DataGenerator) (network : Network)
    (GT_dict S_dict : gmap Z (list Z)) (path_idxs : list Z) (e : exn) :
  fold_left
    (fun acc path_i =>
       sofar ←? acc;
       path_src ←? encode_discontinuous_path self network S_dict path_i;
       path_tgt_y ←? create_sequence_target self GT_dict path_i;
       Ok (fst sofar ++ [path_src], snd sofar ++ [path_tgt_y]))
    path_idxs (Raise e)
  = Raise e.
Proof. induction path_idxs as [|i path_idxs IH]; [done|]. cbn. apply IH. Qed.

Lemma collect_samples_spec (self : DataGenerator) (network : Network)
    (GT_dict S_dict : gmap Z (list Z)) (path_idxs : list Z)
    (path_srcs : list (list (list Z))) (path_tgts_y : list (list Z)) :
  collect_samples self network GT_dict S_dict path_idxs
  = Ok (path_srcs, path_tgts_y) →
  Forall2 (fun path_i src =>
             encode_discontinuous_path self network S_dict path_i = Ok src)
    path_idxs path_srcs
  ∧ Forall2 (fun path_i y => create_sequence_target self GT_dict path_i = Ok y)
      path_idxs path_tgts_y.
Proof.
  unfold collect_samples.
  assert (Hgen : ∀ srcs0 ys0,
    fold_left
      (fun acc path_i =>
         sofar ←? acc;
         path_src ←? encode_discontinuous_path self network S_dict path_i;
         path_tgt_y ←? create_sequence_target self GT_dict path_i;
         Ok (fst sofar ++ [path_src], snd sofar ++ [path_tgt_y]))
      path_idxs (Ok (srcs0, ys0)) = Ok (path_srcs, path_tgts_y) →
    ∃ srcs1 ys1,
      path_srcs = srcs0 ++ srcs1 ∧ path_tgts_y = ys0 ++ ys1
      ∧ Forall2 (fun path_i src =>
                   encode_discontinuous_path self network S_dict path_i = Ok src)
          path_idxs srcs1
      ∧ Forall2 (fun path_i y =>
                   create_sequence_target self GT_dict path_i = Ok y)
          path_idxs ys1).
  { induction path_idxs as [|i path_idxs IH]; intros srcs0 ys0; cbn [fold_left].
    - intros [= <- <-]. exists [], []. by rewrite !app_nil_r.
    - cbn [bind fst snd].
      destruct (encode_discontinuous_path self network S_dict i) as [src|e] eqn:Hsrc;
        cbn [bind]; [|by rewrite collect_samples_raise].
      destruct (create_sequence_target self GT_dict i) as [y|e] eqn:Hy;
        cbn [bind]; [|by rewrite collect_samples_raise].
      intros H. apply IH in H as (srcs1 & ys1 & -> & -> & H1 & H2).
      exists (src :: srcs1), (y :: ys1). rewrite <- !app_assoc.
      split; [done|]. split; [done|]. split; by constructor. }
  intros H. apply Hgen in H as (srcs1 & ys1 & -> & -> & H1 & H2). done.
Qed.

Lemma np_array_Ok {A : Type} (rows result_rows : list (list A)) :
  np_array rows = Ok result_rows →
  result_rows = rows
  ∧ ∀ row row', row ∈ rows → row' ∈ rows → length row = length row'.
Proof.
  unfold np_array. destruct rows as [|first rest].
  - intros [= <-]. split; [done|]. intros row row' H. by apply elem_of_nil in H.
  - destruct (forallb _ _) eqn:Hall; [|discriminate]. intros [= <-].
    split; [done|]. rewrite forallb_forall in Hall.
    intros row row' Hrow Hrow'.
    apply list_elem_of_In, Hall, Nat.eqb_eq in Hrow.
    apply list_elem_of_In, Hall, Nat.eqb_eq in Hrow'. congruence.
Qed.

(** X7. When [_create_samples_from_dict] returns, the list of indices was
    not empty, and for the [k]-th index: the source is the encoding of its
    sparse path, the decoder input is its target without the last token,
    and the label is its target without the first token, so that the label
    at a position is the token that follows the input at that position.
    All targets have one length, and so have all sources. *)
Theorem create_samples_alignment (self : DataGenerator) (network : Network)
    (GT_dict S_dict : gmap Z (list Z)) (path_idxs : list Z)
    (path_srcs : list (list (list Z))) (path_tgts path_tgts_y : list (list Z)) :
  _create_samples_from_dict self network GT_dict S_dict path_idxs
  = Ok (path_srcs, path_tgts, path_tgts_y) →
  path_idxs ≠ []
  ∧ (∀ (k : nat) (path_i : Z),
       path_idxs !! k = Some path_i →
       ∃ (src : list (list Z)) (target : list Z),
         encode_discontinuous_path self network S_dict path_i = Ok src
         ∧ create_sequence_target self GT_dict path_i = Ok target
         ∧ path_srcs !! k = Some src
         ∧ path_tgts !! k = Some (removelast target)
         ∧ path_tgts_y !! k = Some (tail target)
         ∧ (∀ j : nat,
              (S j < length target)%nat →
              tail target !! j = target !! S j
              ∧ removelast target !! j = target !! j))
  ∧ (∀ src src', src ∈ path_srcs → src' ∈ path_srcs → length src = length src')
  ∧ (∀ row row', row ∈ path_tgts_y → row' ∈ path_tgts_y →
       length row = length row').
Proof.
  unfold _create_samples_from_dict. intros H.
  apply bind_Ok in H as ([srcs ys] & Hcollect & H). cbn [fst snd] in H.
  apply bind_Ok in H as (srcs' & Hsrcs & H).
  apply bind_Ok in H as (ys' & Hys & H).
  apply np_array_Ok in Hsrcs as [-> Hsrc_len].
  apply np_array_Ok in Hys as [-> Hy_len].
  apply collect_samples_spec in Hcollect as [Hencode Htarget].
  assert (Hne : ys ≠ []) by (intros ->; discriminate).
  assert (Hres : (path_srcs, path_tgts, path_tgts_y)
                 = (srcs, (fun row => removelast row) <$> ys,
                    (fun row => tail row) <$> ys))
    by (destruct ys; [done|congruence]).
  injection Hres as -> -> ->. clear H.
  split; [intros ->; by apply Forall2_nil_inv_l in Htarget|].
  split; [|split; [done|]].
  - intros k path_i Hk.
    destruct (Forall2_lookup_l _ _ _ _ _ Hencode Hk) as (src & Hsrc & Henc).
    destruct (Forall2_lookup_l _ _ _ _ _ Htarget Hk) as (target & Htgt & Htar).
    exists src, target. split; [done|]. split; [done|]. split; [done|].
    rewrite !list_lookup_fmap, Htgt. split; [done|]. split; [done|].
    intros j Hj. split; [by destruct target|].
    assert (Htarget_ne : target ≠ []) by (intros ->; cbn in Hj; lia).
    destruct (exists_last Htarget_ne) as (front & final & Heq).
    rewrite Heq in *. clear Heq Htarget_ne.
    rewrite removelast_last. rewrite length_app in Hj. cbn in Hj.
    by rewrite lookup_app_l by lia.
  - intros row row' Hrow Hrow'.
    apply list_elem_of_fmap in Hrow as (t & -> & Ht).
    apply list_elem_of_fmap in Hrow' as (t' & -> & Ht').
    pose proof (Hy_len _ _ Ht Ht') as Hlen.
    destruct t, t'; cbn in *; lia.
Qed.

(** ** Padding masks *)

(** Integers up to [2 ^ 24] in absolute value pass through binary32
    unchanged. *)
Lemma torch_float_exact (n : Z) : Z.abs n ≤ 2 ^ 24 → torch_float n = n.
Proof.
  intros Hn. destruct (decide (Z.abs n = 2 ^ 24)) as [Heq|Hne].
  - destruct (Z.abs_eq_cases n (2 ^ 24) Heq) as [->| ->]; by vm_compute.
  - unfold torch_float.
    assert (Hlog : Z.log2 (Z.abs n) ≤ 23).
    { destruct (decide (Z.abs n = 0)) as [->|H0]; [done|].
      assert (Z.log2 (Z.abs n) < 24); [|lia].
      apply Z.log2_lt_pow2; lia. }
    rewrite Z.max_l by lia. change (2 ^ 0) with 1.
    rewrite Z.div_1_r, Z.mod_1_r, Z.mul_1_r.
    change (2 * 0 <? 1) with true. cbv iota. lia.
Qed.

Lemma torch_float_onehot (k : nat) (size : Z) :
  torch_float <$> (<[k := 1]> (replicate (Z.to_nat size) 0) ++ [0])
  = <[k := 1]> (replicate (Z.to_nat size) 0) ++ [0].
Proof.
  rewrite fmap_app, list_fmap_insert, fmap_replicate. done.
Qed.

(** The mask test on the row of a token or of a link id: true for the
    padding token only. With index rows the indices have to pass through
    binary32 unchanged. *)
Lemma padding_test_row (self : DataGenerator) (network : Network) (p : point) :
  (∀ t, dg_token_indexs self t = make_token_indexs network t) →
  (is_onehot_embedding self = false → get_num_links network + 3 ≤ 2 ^ 24) →
  (∀ l, p = Link l → segment network l) →
  ∃ x,
    py_getitem (torch_float <$> point_row self network p)
      (if is_onehot_embedding self then dg_token_indexs self pos else 0) = Ok x
    ∧ (if is_onehot_embedding self then Ok (x =? 1)
       else (index ←? torch_long x; Ok (index =? dg_token_indexs self pos)))
      = Ok (is_padding p).
Proof.
  intros Htok Hbound Hlink.
  assert (Hindex : 0 ≤ point_index self p < get_num_links network + 4
                   ∧ (point_index self p = get_num_links network + 3
                      ↔ is_padding p = true)).
  { destruct p as [t|l]; cbn.
    - rewrite Htok. unfold make_token_indexs, get_num_links.
      destruct t; cbn; split; try lia; split; (done || lia).
    - specialize (Hlink l eq_refl). unfold segment in Hlink.
      split; [lia|]. split; [lia|done]. }
  destruct Hindex as [Hrange Hpad].
  assert (Hpos : dg_token_indexs self pos = get_num_links network + 3)
    by (rewrite Htok; done).
  unfold point_row. fold (point_index self p).
  destruct (is_onehot_embedding self).
  - cbn [length tokens].
    set (size := get_num_links network + Z.of_nat 4).
    assert (Hsize : size = get_num_links network + 4) by (unfold size; lia).
    destruct (Z.ltb_spec (point_index self p) 0); [lia|].
    rewrite torch_float_onehot.
    set (row := <[Z.to_nat (point_index self p) := 1]> (replicate (Z.to_nat size) 0)).
    assert (Hlen : length row = Z.to_nat size)
      by (unfold row; by rewrite length_insert, length_replicate).
    assert (Hget : ∀ y, row !! Z.to_nat (dg_token_indexs self pos) = Some y →
              py_getitem (row ++ [0]) (dg_token_indexs self pos) = Ok y).
    { intros y Hy.
      replace (dg_token_indexs self pos)
        with (Z.of_nat (Z.to_nat (dg_token_indexs self pos))) at 1 by lia.
      apply py_getitem_nat. by rewrite lookup_app_l by lia. }
    destruct (decide (point_index self p = get_num_links network + 3)) as [Heq|Hne].
    + exists 1. split.
      * apply Hget. unfold row. rewrite Hpos, Heq.
        apply list_lookup_insert_eq. rewrite length_replicate. lia.
      * cbn. f_equal. symmetry. by apply Hpad.
    + exists 0. split.
      * apply Hget. unfold row. rewrite list_lookup_insert_ne by lia.
        apply lookup_replicate_2. lia.
      * cbn. f_equal. destruct (is_padding p); [|done]. exfalso. by apply Hne, Hpad.
  - specialize (Hbound eq_refl).
    exists (point_index self p). split.
    + cbn [fmap list_fmap]. rewrite torch_float_exact by lia. done.
    + unfold torch_long.
      destruct (Z.leb_spec (- 2 ^ 63) (point_index self p)); [|lia].
      destruct (Z.ltb_spec (point_index self p) (2 ^ 63)); [|lia].
      cbn [andb bind]. f_equal. rewrite Hpos.
      destruct (Z.eqb_spec (point_index self p) (get_num_links network + 3))
        as [Heq|Hne].
      * symmetry. by apply Hpad.
      * destruct (is_padding p); [|done]. exfalso. by apply Hne, Hpad.
Qed.

Lemma src_key_padding_mask_rows (self : DataGenerator) (network : Network)
    (points : list point) :
  (∀ t, dg_token_indexs self t = make_token_indexs network t) →
  (is_onehot_embedding self = false → get_num_links network + 3 ≤ 2 ^ 24) →
  (∀ l, Link l ∈ points → segment network l) →
  src_key_padding_mask (dg_token_indexs self) (is_onehot_embedding self)
    (point_row self network <$> points)
  = Ok (is_padding <$> points).
Proof.
  intros Htok Hbound Hlinks. induction points as [|p points IH]; [done|].
  cbn [fmap list_fmap src_key_padding_mask].
  destruct (padding_test_row self network p Htok Hbound) as (x & Hx & Hmask).
  { intros l ->. apply Hlinks. by left. }
  change (list_fmap Z Z torch_float (point_row self network p))
    with (torch_float <$> point_row self network p).
  rewrite Hx. cbn [bind]. rewrite Hmask. cbn [bind].
  change (list_fmap point (list Z) (point_row self network) points)
    with (point_row self network <$> points).
  rewrite IH by (intros l Hl; apply Hlinks; by right).
  done.
Qed.

Lemma with_discontinuities_no_padding (network : Network) (S_path : list Z) :
  is_padding <$> with_discontinuities network S_path
  = replicate (length (with_discontinuities network S_path)) false.
Proof.
  induction S_path as [|a S_path IH]; [done|].
  cbn [with_discontinuities]. destruct S_path as [|b S_path]; [done|].
  set (rest := with_discontinuities network (b :: S_path)) in *.
  destruct (py_in b (downstream network a)); cbn [app fmap list_fmap length
    replicate is_padding]; f_equal; [|f_equal]; exact IH.
Qed.

(** X8. For a generator whose token indices are those of the network and a
    sparse path of link ids, the source padding mask of the encoded path is
    false on the content (begin token, links, markers, end token) and true
    on every position after it: with one-hot rows always, with index rows
    when the index of ['pos'] is at most [2 ^ 24], so that binary32 holds
    every index. *)
Theorem src_padding_mask_marks_padding (self : DataGenerator)
    (network : Network) (S_dict : gmap Z (list Z)) (path_i : Z)
    (S_path : list Z) (rows : list (list Z)) :
  (∀ t, dg_token_indexs self t = make_token_indexs network t) →
  (is_onehot_embedding self = false → get_num_links network + 3 ≤ 2 ^ 24) →
  S_dict !! path_i = Some S_path →
  Forall (segment network) S_path →
  encode_discontinuous_path self network S_dict path_i = Ok rows →
  src_key_padding_mask (dg_token_indexs self) (is_onehot_embedding self) rows
  = Ok (replicate (length (encoded_content network S_path)) false
        ++ replicate (length rows - length (encoded_content network S_path)) true).
Proof.
  intros Htok Hbound Hlook Hseg Hrows.
  assert (HS : S_path ≠ []).
  { intros ->. by eapply encode_empty_raises. }
  assert (Hix : indexable self network S_path).
  { intros _. split.
    - intros t. rewrite Htok. unfold onehot_index, make_token_indexs, get_num_links.
      destruct t; lia.
    - eapply Forall_impl; [exact Hseg|]. intros l Hl.
      unfold segment in Hl. unfold onehot_index. lia. }
  rewrite (encode_discontinuous_path_rows _ _ _ _ S_path) in Hrows by done.
  assert (Hr : rows = point_row self network
                        <$> encoded_points network (dg_max_len self) S_path)
    by congruence.
  rewrite Hr. clear Hr Hrows.
  rewrite src_key_padding_mask_rows; [|done|done|].
  - f_equal. rewrite length_fmap. unfold encoded_points.
    rewrite fmap_app, fmap_replicate, length_app, length_replicate.
    cbn [is_padding]. f_equal.
    + unfold encoded_content. cbn [fmap list_fmap is_padding length replicate].
      f_equal.
      change (list_fmap point bool is_padding
                (with_discontinuities network S_path ++ [Token eos]))
        with (is_padding <$> (with_discontinuities network S_path ++ [Token eos])).
      rewrite fmap_app, with_discontinuities_no_padding, length_app.
      cbn [fmap list_fmap is_padding length].
      by rewrite replicate_add.
    + f_equal. lia.
  - intros l Hl. rewrite Forall_forall in Hseg.
    by apply Hseg, (encoded_points_links network (dg_max_len self)).
Qed.

(** Above that bound the mask fails: with 16777214 links the index of
    ['pos'] is [2 ^ 24 + 1], which binary32 rounds to [2 ^ 24], and the row
    of a padding position is not masked. The two definitions of the
    rounding agree there and on the neighbouring values. *)
Example src_padding_mask_binary32_limit :
  src_key_padding_mask
    (fun t => 16777214 + match t with bos => 0 | eos => 1 | mos => 2 | pos => 3 end)
    false [[16777217; 0]]
  = Ok [false]
  ∧ Forall (fun n => binary32_of_Z n = Some (torch_float n))
      [0; 1; -1; 7; 16777215; 16777216; 16777217; 16777218; 16777219;
       -16777217; 33554434; 33554438; 1099511627777; 2 ^ 63 - 1].
Proof.
  split; [vm_compute; reflexivity|].
  repeat (apply Forall_cons; split; [vm_compute; reflexivity|]).
  apply Forall_nil_2.
Qed.

(** X9. For a ground-truth path of link ids, the target padding mask of
    the training target is false on the begin token, the path and the end
    token, and true on every position after them. *)
Theorem tgt_padding_mask_marks_padding (self : DataGenerator)
    (network : Network) (GT_dict : gmap Z (list Z)) (path_i : Z)
    (GT_path target : list Z) :
  (∀ t, dg_token_indexs self t = make_token_indexs network t) →
  GT_dict !! path_i = Some GT_path →
  Forall (segment network) GT_path →
  create_sequence_target self GT_dict path_i = Ok target →
  tgt_key_padding_mask (dg_token_indexs self) target
  = replicate (length GT_path + 2) false
    ++ replicate (length target - (length GT_path + 2)) true.
Proof.
  intros Htok Hlook Hseg Htarget.
  destruct (create_sequence_target_found self GT_dict path_i GT_path Hlook)
    as (target' & Heq & -> & Hlen).
  assert (target = dg_token_indexs self bos :: GT_path
                   ++ [dg_token_indexs self eos]
                   ++ replicate
                        (Z.to_nat (dg_max_len self - Z.of_nat (length GT_path + 2)))
                        (dg_token_indexs self pos)) as -> by congruence.
  clear Heq Htarget Hlen.
  unfold tgt_key_padding_mask.
  assert (Hpath : (fun t => t =? dg_token_indexs self pos) <$> GT_path
                  = replicate (length GT_path) false).
  { clear Hlook. induction Hseg as [|l GT_path Hl _ IH]; [done|].
    cbn [fmap list_fmap length replicate]. f_equal; [|exact IH].
    apply Z.eqb_neq. rewrite Htok. unfold segment in Hl.
    unfold make_token_indexs. lia. }
  cbn [length]. rewrite !length_app, length_replicate. cbn [length].
  rewrite fmap_cons, !fmap_app, fmap_replicate, Hpath.
  cbn [fmap list_fmap].
  assert (Hb : (dg_token_indexs self bos =? dg_token_indexs self pos) = false)
    by (apply Z.eqb_neq; rewrite !Htok; unfold make_token_indexs; lia).
  assert (He : (dg_token_indexs self eos =? dg_token_indexs self pos) = false)
    by (apply Z.eqb_neq; rewrite !Htok; unfold make_token_indexs; lia).
  rewrite Hb, He, Z.eqb_refl.
  replace (length GT_path + 2)%nat with (S (length GT_path + 1)) by lia.
  cbn [replicate app]. f_equal. rewrite replicate_add. cbn [replicate].
  rewrite <- app_assoc. cbn [app]. do 3 f_equal. lia.
Qed.

(** ** Sparse observations, training samples and the split *)

Lemma keep_links_from (path : list Z) (keep : Z → Z → bool) :
  keep_links path keep = keep_from (Z.of_nat (length path)) keep 0 path.
Proof.
  unfold keep_links, py_range. rewrite Nat2Z.id.
  assert (Hgen : ∀ suf pre acc,
    path = pre ++ suf →
    fold_left
      (fun acc i =>
         match path !! Z.to_nat i with
         | Some x =>
             if (i =? 0) || (i =? Z.of_nat (length path) - 1) || keep i x
             then acc ++ [x] else acc
         | None => acc
         end)
      (Z.of_nat <$> seq (length pre) (length suf)) acc
    = acc ++ keep_from (Z.of_nat (length path)) keep (Z.of_nat (length pre)) suf).
  { induction suf as [|x suf IH]; intros pre acc Hpath.
    - cbn. by rewrite app_nil_r.
    - cbn [length seq fmap list_fmap fold_left keep_from].
      rewrite Nat2Z.id.
      assert (Hx : path !! length pre = Some x)
        by (rewrite Hpath; apply list_lookup_middle; done).
      rewrite Hx.
      change (list_fmap nat Z Z.of_nat (seq (S (length pre)) (length suf)))
        with (Z.of_nat <$> seq (S (length pre)) (length suf)).
      replace (S (length pre)) with (length (pre ++ [x]))
        by (rewrite length_app; cbn; lia).
      rewrite IH by (by rewrite <- app_assoc).
      rewrite length_app. cbn [length].
      replace (Z.of_nat (length pre + 1)) with (Z.of_nat (length pre) + 1) by lia.
      destruct (_ || _); by rewrite <- ?app_assoc. }
  exact (Hgen path [] [] eq_refl).
Qed.

Lemma keep_from_interior (n : Z) (P : Z → bool) (i : Z) (mid : list Z) (y : Z) :
  1 ≤ i →
  i + Z.of_nat (length mid) = n - 1 →
  keep_from n (fun _ v => P v) i (mid ++ [y]) = List.filter P mid ++ [y].
Proof.
  revert i. induction mid as [|x mid IH]; intros i Hi Hn.
  - cbn in *. destruct (Z.eqb_spec i 0); [lia|].
    destruct (Z.eqb_spec i (n - 1)); [done|lia].
  - cbn [app keep_from List.filter length] in *.
    destruct (Z.eqb_spec i 0); [lia|].
    destruct (Z.eqb_spec i (n - 1)); [lia|]. cbn [orb].
    rewrite IH by lia. by destruct (P x).
Qed.

(** The observation of a path with at least two links: its first link, the
    interior links that carry a detector, its last link. *)
Lemma sparse_observation_ends (avi_ids : list Z) (o d : Z) (mid : list Z) :
  sparse_observation avi_ids (o :: mid ++ [d])
  = o :: List.filter (fun v => py_in v avi_ids) mid ++ [d].
Proof.
  unfold sparse_observation. rewrite keep_links_from.
  cbn [keep_from length]. cbn [Z.eqb orb app]. f_equal.
  apply (keep_from_interior _ (fun v => py_in v avi_ids)); [lia|].
  rewrite length_app. cbn [length]. lia.
Qed.

Lemma filter_filter_same (P : Z → bool) (l : list Z) :
  List.filter P (List.filter P l) = List.filter P l.
Proof.
  induction l as [|x l IH]; [done|]. cbn. destruct (P x) eqn:HP; [|done].
  cbn. by rewrite HP, IH.
Qed.

(** X10. [prepare_sparse_observations] keeps, of a path with at least two
    links, the first link, the last link and exactly the interior links
    that carry a detector, in order, and keeps a shorter path whole.
    Observing an observation changes nothing, and the ground-truth path
    always passes [is_path_subsequence_of_path] for its observation. On a
    whole dictionary the keys are kept. *)
Theorem prepare_sparse_observations_keeps (avi_ids : list Z) :
  (∀ (o d : Z) (mid : list Z),
     sparse_observation avi_ids (o :: mid ++ [d])
     = o :: List.filter (fun v => py_in v avi_ids) mid ++ [d])
  ∧ (∀ o : Z, sparse_observation avi_ids [o] = [o])
  ∧ sparse_observation avi_ids [] = []
  ∧ (∀ path : list Z,
       sparse_observation avi_ids (sparse_observation avi_ids path)
       = sparse_observation avi_ids path)
  ∧ (∀ path : list Z,
       is_path_subsequence_of_path (sparse_observation avi_ids path) path = true)
  ∧ (∀ gt_paths : gmap Z (list Z),
       ∃ sparse_paths,
         prepare_sparse_observations gt_paths avi_ids None = Ok sparse_paths
         ∧ dom sparse_paths = dom gt_paths
         ∧ prepare_sparse_observations sparse_paths avi_ids None
           = Ok sparse_paths).
Proof.
  assert (Hidem : ∀ path : list Z,
    sparse_observation avi_ids (sparse_observation avi_ids path)
    = sparse_observation avi_ids path).
  { intros [|o rest]; [done|].
    destruct rest as [|x rest] using rev_ind; [done|].
    rewrite !sparse_observation_ends. by rewrite filter_filter_same. }
  split; [apply sparse_observation_ends|]. split; [done|]. split; [done|].
  split; [exact Hidem|]. split.
  - intros path. apply is_path_subsequence_of_path_sublist.
    apply keep_links_anchors.
  - intros gt_paths. eexists. split; [done|]. split.
    + apply dom_fmap_L.
    + cbn. f_equal. rewrite <- map_fmap_compose. apply map_fmap_ext.
      intros i path _. apply Hidem.
Qed.

Lemma listed_observations_lookup (gt_paths : gmap Z (list Z))
    (avi_ids idxs : list Z) (j : Z) :
  (sparse_observation avi_ids
     <$> filter (fun kv : Z * list Z => kv.1 ∈ idxs) gt_paths) !! j
  = if decide (j ∈ idxs) then sparse_observation avi_ids <$> gt_paths !! j
    else None.
Proof.
  rewrite lookup_fmap. destruct (decide (j ∈ idxs)) as [Hin|Hout].
  - f_equal. apply option_eq. intros path.
    rewrite map_lookup_filter_Some. cbn. tauto.
  - replace (filter _ gt_paths !! j) with (@None (list Z)); [done|].
    symmetry. apply map_lookup_filter_None. right. intros path _. done.
Qed.

(** X11. With an explicit list of path indices
    [prepare_sparse_observations] returns exactly when every listed index
    is a key of the ground truth, and raises [KeyError] otherwise; what
    it returns is the observation of the listed paths and of no other
    path, whatever the order and the repetitions of the list. *)
Theorem prepare_sparse_observations_listed (gt_paths : gmap Z (list Z))
    (avi_ids idxs : list Z) :
  prepare_sparse_observations gt_paths avi_ids (Some idxs)
  = if decide (Forall (fun i => is_Some (gt_paths !! i)) idxs)
    then Ok (sparse_observation avi_ids
               <$> filter (fun kv : Z * list Z => kv.1 ∈ idxs) gt_paths)
    else Raise KeyError.
Proof.
  unfold prepare_sparse_observations.
  induction idxs as [|i idxs IH] using rev_ind.
  - cbn. rewrite decide_True by constructor. f_equal.
    apply map_eq. intros j. rewrite listed_observations_lookup.
    rewrite decide_False by apply not_elem_of_nil. done.
  - rewrite fold_left_app. cbn [fold_left]. rewrite IH. clear IH.
    destruct (decide (Forall _ idxs)) as [Hall|Hnot].
    + cbn [bind]. destruct (gt_paths !! i) as [path|] eqn:Hi.
      * rewrite decide_True
          by (apply Forall_app; split; [done|]; repeat constructor; by rewrite Hi).
        f_equal. apply map_eq. intros j.
        rewrite listed_observations_lookup.
        destruct (decide (j = i)) as [->|Hji].
        -- rewrite lookup_insert_eq.
           rewrite decide_True by (apply elem_of_app; right; by apply list_elem_of_singleton).
           by rewrite Hi.
        -- rewrite lookup_insert_ne by done.
           rewrite listed_observations_lookup.
           destruct (decide (j ∈ idxs)) as [Hin|Hout].
           ++ by rewrite decide_True by (apply elem_of_app; by left).
           ++ rewrite decide_False; [done|].
              rewrite elem_of_app, list_elem_of_singleton. tauto.
      * rewrite decide_False; [done|].
        rewrite Forall_app, Forall_singleton, Hi. intros [_ [? ?]]. done.
    + cbn [bind]. rewrite decide_False; [done|].
      rewrite Forall_app. tauto.
Qed.

Lemma prepare_discontinuous_path_sound (permutation path : list Z)
    (ratio : mask_ratio) (sparse : list Z) :
  prepare_discontinuous_path permutation path ratio = Ok sparse →
  head sparse = head path ∧ last sparse = last path
  ∧ (ratio ≠ OD ∨ (2 ≤ length path)%nat → sparse `sublist_of` path).
Proof.
  destruct ratio as [|r].
  - destruct path as [|o rest].
    { discriminate. }
    rewrite prepare_discontinuous_path_OD. intros [= <-].
    split; [done|]. split.
    + rewrite (last_cons o rest). by destruct (last rest).
    + intros [H|Hlen]; [done|].
      destruct rest as [|d rest _] using rev_ind; [cbn in Hlen; lia|].
      rewrite last_snoc. cbn.
      apply sublist_skip. apply sublist_inserts_l. done.
  - unfold prepare_discontinuous_path.
    destruct (py_int _) as [k|e]; [|discriminate]. cbn. intros [= <-].
    destruct (keep_links_anchors path
                (fun i _ => py_in i (take (Z.to_nat (0 `max` (k - 2))) permutation)))
      as (Hsub & Hhead & Hlast).
    done.
Qed.

Lemma training_fold_raise (draw : nat → list Z) (gt_paths : gmap Z (list Z))
    (ratio : mask_ratio) (idxs : list Z) (e : exn) :
  fold_left (training_step draw gt_paths ratio) idxs (Raise e) = Raise e.
Proof. induction idxs; [done|]. cbn. done. Qed.

Lemma training_fold_sound (draw : nat → list Z) (gt_paths : gmap Z (list Z))
    (ratio : mask_ratio) (idxs : list Z) :
  ∀ (k : nat) (m : gmap Z (list Z)) (state : nat * gmap Z (list Z)),
    fold_left (training_step draw gt_paths ratio) idxs (Ok (k, m)) = Ok state →
    (∀ i, i ∈ idxs ∨ is_Some (m !! i) → is_Some (snd state !! i))
    ∧ (∀ i sparse, snd state !! i = Some sparse →
         m !! i = Some sparse
         ∨ (i ∈ idxs ∧ sampled_from gt_paths ratio i sparse)).
Proof.
  induction idxs as [|path_i idxs IH]; intros k m state.
  - cbn. intros [= <-]. cbn. split.
    + intros i [Hin|Hm]; [by apply elem_of_nil in Hin|done].
    + intros i sparse Hi. by left.
  - cbn [fold_left]. unfold training_step at 2. cbn [bind fst snd].
    unfold lookup_path.
    destruct (gt_paths !! path_i) as [path|] eqn:Hpath;
      [|cbn [bind]; rewrite training_fold_raise; discriminate].
    cbn [bind].
    destruct (prepare_discontinuous_path (draw k) path ratio) as [sp|e] eqn:Hsp;
      [|cbn [bind]; rewrite training_fold_raise; discriminate].
    cbn [bind]. intros Hfold.
    destruct (IH _ _ _ Hfold) as [Hdom Hval]. split.
    + intros i [Hin|Hm].
      * apply elem_of_cons in Hin as [->|Hin].
        -- apply Hdom. right. rewrite lookup_insert_eq. by eexists.
        -- apply Hdom. by left.
      * apply Hdom. right.
        destruct (decide (i = path_i)) as [->|Hne].
        -- rewrite lookup_insert_eq. by eexists.
        -- by rewrite lookup_insert_ne.
    + intros i sparse Hi.
      destruct (Hval i sparse Hi) as [Hins|[Hin Hs]].
      * destruct (decide (i = path_i)) as [->|Hne].
        -- rewrite lookup_insert_eq in Hins. injection Hins as <-.
           right. split; [apply elem_of_cons; by left|].
           destruct (prepare_discontinuous_path_sound _ _ _ _ Hsp)
             as (Hh & Hl & Hsub).
           exists path. repeat split; [done..|].
           intros Hc. apply is_path_subsequence_of_path_sublist. by apply Hsub.
        -- rewrite lookup_insert_ne in Hins by done. by left.
      * right. split; [apply elem_of_cons; by right|done].
Qed.

(** X12. Whenever [prepare_training_samples] returns, every requested
    path index has a sample, every sample belongs to a requested index
    whose path is in the ground truth, and the sample has the first and
    the last link of that path; it passes
    [is_path_subsequence_of_path] against the path when the ratio is a
    number, or when the path has at least two links. All of this holds
    whatever permutations are drawn and when an index is listed twice. *)
Theorem prepare_training_samples_sound (draw : nat → list Z)
    (gt_paths : gmap Z (list Z)) (ratio : mask_ratio)
    (path_idxs : option (list Z)) (samples : gmap Z (list Z)) :
  prepare_training_samples draw gt_paths ratio path_idxs = Ok samples →
  (∀ i, i ∈ default (fst <$> map_to_list gt_paths) path_idxs →
        is_Some (samples !! i))
  ∧ (∀ i sparse, samples !! i = Some sparse →
       i ∈ default (fst <$> map_to_list gt_paths) path_idxs
       ∧ sampled_from gt_paths ratio i sparse).
Proof.
  unfold prepare_training_samples. intros H.
  set (idxs := default (fst <$> map_to_list gt_paths) path_idxs).
  assert (Hidxs : match path_idxs with
                  | Some l => l
                  | None => fst <$> map_to_list gt_paths
                  end = idxs) by (by destruct path_idxs).
  rewrite Hidxs in H.
  change (fold_left _ idxs (Ok (0%nat, ∅)))
    with (fold_left (training_step draw gt_paths ratio) idxs (Ok (0%nat, ∅))) in H.
  destruct (fold_left _ idxs _) as [state|e] eqn:Hfold; [|discriminate].
  cbn in H. injection H as <-.
  destruct (training_fold_sound _ _ _ _ _ _ _ Hfold) as [Hdom Hval]. split.
  - intros i Hi. apply Hdom. by left.
  - intros i sparse Hi. destruct (Hval i sparse Hi) as [Hempty|?]; [|done].
    by rewrite lookup_empty in Hempty.
Qed.

Lemma py_slice_prefix {A : Type} (l : list A) (k : Z) :
  ∃ c : nat, py_slice l 0 k = take c l
           ∧ py_slice l k (Z.of_nat (length l)) = drop c l.
Proof.
  unfold py_slice.
  set (n := Z.of_nat (length l)).
  exists (Z.to_nat (Z.max 0 (Z.min n (if k <? 0 then n + k else k)))).
  split.
  - replace (Z.to_nat (0 `max` (n `min` (if 0 <? 0 then n + 0 else 0))))
      with 0%nat by (cbn [Z.ltb Z.compare]; lia).
    by rewrite drop_0.
  - replace (Z.to_nat (0 `max` (n `min` (if n <? 0 then n + n else n))))
      with (length l) by (destruct (Z.ltb_spec n 0); lia).
    by rewrite firstn_all.
Qed.

(** X13. Whenever [train_test_split] returns, the training indices
    followed by the test indices are the drawn permutation: for every
    ratio that is not a NaN or an infinity, also a negative one or one above 1, each
    position of [range(path_num)] goes to exactly one of the two sides.
    The indices are positions, not keys of the ground-truth
    dictionary. *)
Theorem train_test_split_partitions (per : list Z) (gt_paths : gmap Z (list Z))
    (train_ratio : float) (train test : list Z) :
  per ≡ₚ py_range (Z.of_nat (size gt_paths)) →
  train_test_split per gt_paths train_ratio = Ok (train, test) →
  train ++ test = per
  ∧ NoDup (train ++ test)
  ∧ (∀ i, i ∈ train ∨ i ∈ test ↔ 0 ≤ i < Z.of_nat (size gt_paths)).
Proof.
  intros Hper. unfold train_test_split.
  destruct (py_int _) as [train_num|e]; [|discriminate]. cbn [bind].
  destruct (py_slice_prefix per train_num) as (c & -> & ->).
  intros [= <- <-]. rewrite take_drop.
  assert (Hrange : ∀ i, i ∈ py_range (Z.of_nat (size gt_paths))
                        ↔ 0 ≤ i < Z.of_nat (size gt_paths)).
  { intros i. unfold py_range. rewrite Nat2Z.id, list_elem_of_fmap. split.
    - intros (j & -> & Hj). apply elem_of_seq in Hj. lia.
    - intros Hi. exists (Z.to_nat i). split; [lia|]. apply elem_of_seq. lia. }
  split; [done|]. split.
  - rewrite Hper. unfold py_range.
    apply NoDup_fmap_2; [apply Nat2Z.inj'|apply NoDup_seq].
  - intros i. rewrite <- elem_of_app, take_drop, Hper. apply Hrange.
Qed.

(** ** The edit distance *)

Lemma levenshtein_distance_loops (path1 path2 : list Z) :
  levenshtein_distance path1 path2
  = matrix_get
      (fold_left (levenshtein_row path1 path2) (seq 1 (length path1))
         (levenshtein_table path1 path2))
      (length path1) (length path2).
Proof. reflexivity. Qed.

Lemma lev_prefix_S_S (path1 path2 : list Z) (i j : nat) :
  lev_prefix path1 path2 (S i) (S j)
  = Z.min (Z.min (lev_prefix path1 path2 i (S j) + 1)
                 (lev_prefix path1 path2 (S i) j + 1))
          (lev_prefix path1 path2 i j
           + (if bool_decide (path1 !! i = path2 !! j) then 0 else 1)).
Proof. reflexivity. Qed.

Lemma lev_prefix_S_0 (path1 path2 : list Z) (i : nat) :
  lev_prefix path1 path2 (S i) 0 = Z.of_nat (S i).
Proof. reflexivity. Qed.

Lemma lev_prefix_0 (path1 path2 : list Z) (j : nat) :
  lev_prefix path1 path2 0 j = Z.of_nat j.
Proof. reflexivity. Qed.

Lemma lev_prefix_n_0 (path1 path2 : list Z) (i : nat) :
  lev_prefix path1 path2 i 0 = Z.of_nat i.
Proof. by destruct i. Qed.

Lemma matrix_get_set (matrix : list (list Z)) (i j a b : nat) (v : Z)
    (row : list Z) :
  matrix !! i = Some row → (j < length row)%nat →
  matrix_get (matrix_set matrix i j v) a b
  = if decide (a = i ∧ b = j) then v else matrix_get matrix a b.
Proof.
  intros Hrow Hj. unfold matrix_get, matrix_set. rewrite Hrow.
  assert (Hi : (i < length matrix)%nat) by (by eapply lookup_lt_Some).
  destruct (decide (a = i)) as [->|Hai].
  - rewrite list_lookup_insert_eq by done. cbn.
    destruct (decide (b = j)) as [->|Hbj].
    + rewrite list_lookup_insert_eq by done. by rewrite decide_True.
    + rewrite list_lookup_insert_ne by done. rewrite decide_False by tauto.
      by rewrite Hrow.
  - rewrite list_lookup_insert_ne by done. by rewrite decide_False by tauto.
Qed.

Lemma levenshtein_cell_fills (path1 path2 : list Z) (matrix : list (list Z))
    (i j : nat) :
  (1 ≤ i ≤ length path1)%nat → (1 ≤ j ≤ length path2)%nat →
  levenshtein_cells path1 path2 matrix i j →
  levenshtein_cells path1 path2 (levenshtein_cell path1 path2 i matrix j) i (S j).
Proof.
  intros Hi Hj (Hrows & Hcols & Hcells).
  destruct (lookup_lt_is_Some_2 matrix i ltac:(lia)) as [row Hrow].
  assert (Hlen : length row = S (length path2))
    by (by eapply (proj1 (Forall_lookup _ _) Hcols)).
  unfold levenshtein_cell. split; [|split].
  - unfold matrix_set. rewrite Hrow. by rewrite length_insert.
  - unfold matrix_set. rewrite Hrow. apply Forall_insert; [done|].
    by rewrite length_insert.
  - intros a b Ha Hb Hab.
    rewrite (matrix_get_set _ _ _ _ _ _ row) by (done || lia).
    destruct (decide (a = i ∧ b = j)) as [[-> ->]|Hne].
    + rewrite !Hcells by lia.
      destruct i as [|i']; [lia|]. destruct j as [|j']; [lia|].
      replace (S i' - 1)%nat with i' by lia.
      replace (S j' - 1)%nat with j' by lia.
      by rewrite lev_prefix_S_S.
    + apply Hcells; lia.
Qed.

Lemma levenshtein_row_fills (path1 path2 : list Z) (i : nat) :
  (1 ≤ i ≤ length path1)%nat →
  ∀ (n j : nat) (matrix : list (list Z)),
    (1 ≤ j)%nat → (j + n = S (length path2))%nat →
    levenshtein_cells path1 path2 matrix i j →
    levenshtein_cells path1 path2
      (fold_left (levenshtein_cell path1 path2 i) (seq j n) matrix)
      i (S (length path2)).
Proof.
  intros Hi. induction n as [|n IH]; intros j matrix Hj Hn Hcells.
  - cbn. by replace (S (length path2)) with j by lia.
  - cbn [seq fold_left]. apply IH; [lia..|].
    apply levenshtein_cell_fills; [done|lia|done].
Qed.

Lemma levenshtein_rows_fill (path1 path2 : list Z) :
  ∀ (n i : nat) (matrix : list (list Z)),
    (1 ≤ i)%nat → (i + n = S (length path1))%nat →
    levenshtein_cells path1 path2 matrix i 1 →
    levenshtein_cells path1 path2
      (fold_left (levenshtein_row path1 path2) (seq i n) matrix)
      (S (length path1)) 1.
Proof.
  induction n as [|n IH]; intros i matrix Hi Hn Hcells.
  - cbn. by replace (S (length path1)) with i by lia.
  - cbn [seq fold_left]. apply IH; [lia..|].
    destruct (levenshtein_row_fills path1 path2 i ltac:(lia)
                (length path2) 1%nat matrix ltac:(lia) ltac:(lia) Hcells)
      as (Hrows & Hcols & Hfilled).
    split; [done|]. split; [done|].
    intros a b Ha Hb Hab. apply Hfilled; lia.
Qed.

Lemma levenshtein_table_cells (path1 path2 : list Z) :
  levenshtein_cells path1 path2 (levenshtein_table path1 path2) 1 1.
Proof.
  unfold levenshtein_table. split; [|split].
  - by rewrite length_fmap, length_seq.
  - apply Forall_fmap, Forall_forall. intros i _. cbn.
    by rewrite length_fmap, length_seq.
  - intros a b Ha Hb Hab. unfold matrix_get.
    rewrite list_lookup_fmap, lookup_seq_lt by lia.
    cbn [fmap option_fmap option_map mbind option_bind].
    rewrite list_lookup_fmap, lookup_seq_lt by lia.
    cbn [fmap option_fmap option_map default Nat.add].
    destruct a as [|a'].
    + by rewrite lev_prefix_0.
    + assert (b = 0%nat) as -> by lia. rewrite lev_prefix_S_0.
      unfold id. lia.
Qed.

(** The table of [levenshtein_distance] holds, when the loops end, the
    distance of the two paths as the recurrence defines it. *)
Lemma levenshtein_distance_prefix (path1 path2 : list Z) :
  levenshtein_distance path1 path2
  = lev_prefix path1 path2 (length path1) (length path2).
Proof.
  rewrite levenshtein_distance_loops.
  destruct (levenshtein_rows_fill path1 path2 (length path1) 1%nat
              (levenshtein_table path1 path2) ltac:(lia) ltac:(lia)
              (levenshtein_table_cells path1 path2))
    as (_ & _ & Hfilled).
  apply Hfilled; lia.
Qed.

Lemma lev_prefix_ext (path1 path2 other1 other2 : list Z) :
  ∀ i j : nat,
    (∀ k, (k < i)%nat → path1 !! k = other1 !! k) →
    (∀ k, (k < j)%nat → path2 !! k = other2 !! k) →
    lev_prefix path1 path2 i j = lev_prefix other1 other2 i j.
Proof.
  induction i as [|i IHi]; [done|].
  induction j as [|j IHj]; intros H1 H2; [done|].
  rewrite !lev_prefix_S_S.
  rewrite (IHi (S j)) by (intros; (apply H1 || apply H2); lia).
  rewrite (IHi j) by (intros; (apply H1 || apply H2); lia).
  rewrite IHj by (intros; (apply H1 || apply H2); lia).
  by rewrite (H1 i), (H2 j) by lia.
Qed.

Lemma lev_prefix_bounds (path1 path2 : list Z) :
  ∀ i j : nat,
    Z.abs (Z.of_nat i - Z.of_nat j) ≤ lev_prefix path1 path2 i j
    ≤ Z.max (Z.of_nat i) (Z.of_nat j).
Proof.
  induction i as [|i IHi]; [intros j; rewrite lev_prefix_0; lia|].
  induction j as [|j IHj]; [rewrite lev_prefix_S_0; lia|].
  rewrite lev_prefix_S_S.
  pose proof (IHi (S j)). pose proof (IHi j).
  destruct (bool_decide _); lia.
Qed.

Lemma lev_prefix_sym (path1 path2 : list Z) :
  ∀ i j : nat, lev_prefix path1 path2 i j = lev_prefix path2 path1 j i.
Proof.
  induction i as [|i IHi]; [intros j; by rewrite lev_prefix_n_0|].
  induction j as [|j IHj]; [done|].
  rewrite !lev_prefix_S_S, (IHi (S j)), (IHi j), IHj.
  rewrite (Z.min_comm (lev_prefix path2 path1 (S j) i + 1)).
  do 2 f_equal.
  destruct (bool_decide_reflect (path1 !! i = path2 !! j)) as [Heq|Hne].
  - by rewrite bool_decide_eq_true_2.
  - by rewrite bool_decide_eq_false_2.
Qed.

Lemma lev_prefix_zero (path1 path2 : list Z) :
  ∀ i j : nat,
    lev_prefix path1 path2 i j = 0
    ↔ i = j ∧ ∀ k, (k < i)%nat → path1 !! k = path2 !! k.
Proof.
  induction i as [|i IHi].
  { intros j. rewrite lev_prefix_0. split.
    - intros Hj. split; [lia|]. intros k Hk. lia.
    - intros [<- _]. done. }
  induction j as [|j IHj].
  { rewrite lev_prefix_S_0. split; [lia|]. intros [[=] _]. }
  rewrite lev_prefix_S_S.
  pose proof (lev_prefix_bounds path1 path2 i (S j)).
  pose proof (lev_prefix_bounds path1 path2 (S i) j).
  pose proof (lev_prefix_bounds path1 path2 i j).
  specialize (IHi j).
  destruct (bool_decide_reflect (path1 !! i = path2 !! j)) as [Heq|Hne].
  - split.
    + intros Hzero. assert (Hij : lev_prefix path1 path2 i j = 0) by lia.
      apply IHi in Hij as [-> Hk]. split; [done|].
      intros k Hlt. destruct (decide (k = j)) as [->|?]; [done|].
      apply Hk. lia.
    + intros [[= ->] Hk].
      assert (Hij : lev_prefix path1 path2 j j = 0)
        by (apply IHi; split; [done|]; intros; apply Hk; lia).
      lia.
  - split; [lia|]. intros [[= ->] Hk]. destruct Hne. apply Hk. lia.
Qed.

(** X14. [levenshtein_distance] satisfies the recurrence of the edit
    distance on whole paths: against the empty path it is the length of
    the other path, and when both paths end in a link it is the least of
    the distance without the last link of the first path plus 1, the
    distance without the last link of the second plus 1, and the
    distance without both, plus 1 unless the two last links are equal.
    The cells that the nested loops overwrite in place are read only
    after they are final. *)
Theorem levenshtein_distance_recurrence :
  (∀ path : list Z, levenshtein_distance [] path = Z.of_nat (length path))
  ∧ (∀ path : list Z, levenshtein_distance path [] = Z.of_nat (length path))
  ∧ (∀ (path1 path2 : list Z) (x y : Z),
       levenshtein_distance (path1 ++ [x]) (path2 ++ [y])
       = Z.min (Z.min (levenshtein_distance path1 (path2 ++ [y]) + 1)
                      (levenshtein_distance (path1 ++ [x]) path2 + 1))
               (levenshtein_distance path1 path2 + (if x =? y then 0 else 1))).
Proof.
  split; [|split].
  - intros path. by rewrite levenshtein_distance_prefix.
  - intros path. rewrite levenshtein_distance_prefix. apply lev_prefix_n_0.
  - intros path1 path2 x y. rewrite !levenshtein_distance_prefix.
    rewrite !length_app. cbn [length].
    replace (length path1 + 1)%nat with (S (length path1)) by lia.
    replace (length path2 + 1)%nat with (S (length path2)) by lia.
    rewrite lev_prefix_S_S.
    rewrite !list_lookup_middle by done.
    f_equal; [f_equal|f_equal].
    + f_equal. apply lev_prefix_ext; [|done].
      intros k Hk. by rewrite lookup_app_l.
    + f_equal. apply lev_prefix_ext; [done|].
      intros k Hk. by rewrite lookup_app_l.
    + apply lev_prefix_ext; intros k Hk; by rewrite lookup_app_l.
    + destruct (Z.eqb_spec x y) as [->|Hne].
      * by rewrite bool_decide_eq_true_2.
      * rewrite bool_decide_eq_false_2; [done|]. by intros [= ?].
Qed.

(** X15. [levenshtein_distance] is 0 exactly on equal paths, does not
    depend on the order of its two arguments, is at least the difference
    of the two lengths and at most the greater of them. *)
Theorem levenshtein_distance_metric (path1 path2 : list Z) :
  (levenshtein_distance path1 path2 = 0 ↔ path1 = path2)
  ∧ levenshtein_distance path1 path2 = levenshtein_distance path2 path1
  ∧ Z.abs (Z.of_nat (length path1) - Z.of_nat (length path2))
    ≤ levenshtein_distance path1 path2
    ≤ Z.max (Z.of_nat (length path1)) (Z.of_nat (length path2)).
Proof.
  rewrite !levenshtein_distance_prefix. split; [|split].
  - rewrite lev_prefix_zero. split.
    + intros [Hlen Hk]. apply (list_eq_same_length _ _ (length path1)); [done..|].
      intros k x y Hlt Hx Hy. specialize (Hk k Hlt). congruence.
    + intros ->. done.
  - apply lev_prefix_sym.
  - apply lev_prefix_bounds.
Qed.

(** ** The adjacency of links and the random paths *)

Lemma append_link_lookup (d : gmap Z (list Z)) (node link_id n : Z) :
  default [] (append_link d node link_id !! n)
  = default [] (d !! n) ++ (if decide (node = n) then [link_id] else []).
Proof.
  unfold append_link. destruct (decide (node = n)) as [->|Hne].
  - by rewrite lookup_insert_eq.
  - rewrite lookup_insert_ne by done. by rewrite app_nil_r.
Qed.

Lemma node_to_links_spec (edges : list edge) (n : Z) :
  default [] ((node_to_links edges).1 !! n) = outgoing edges n
  ∧ default [] ((node_to_links edges).2 !! n) = incoming edges n.
Proof.
  unfold node_to_links, outgoing, incoming.
  induction edges as [|e edges IH] using rev_ind; [done|].
  rewrite fold_left_app. cbn [fold_left fst snd].
  rewrite !append_link_lookup, !filter_app, !fmap_app.
  destruct IH as [-> ->]. split; f_equal.
  - rewrite filter_cons, filter_nil. by destruct (decide (edge_u e = n)).
  - rewrite filter_cons, filter_nil. by destruct (decide (edge_v e = n)).
Qed.

Lemma neighbor_fold_lookup (value1 value2 : edge → list Z) (edges : list edge) :
  let maps :=
    fold_left
      (fun (maps : gmap Z (list Z) * gmap Z (list Z)) e =>
         (<[edge_id e := value1 e]> maps.1, <[edge_id e := value2 e]> maps.2))
      edges (∅, ∅) in
  (∀ a, is_Some (maps.1 !! a) ↔ a ∈ edge_id <$> edges)
  ∧ (∀ a, is_Some (maps.2 !! a) ↔ a ∈ edge_id <$> edges)
  ∧ (NoDup (edge_id <$> edges) →
     ∀ e, e ∈ edges →
       maps.1 !! edge_id e = Some (value1 e)
       ∧ maps.2 !! edge_id e = Some (value2 e)).
Proof.
  cbn zeta. induction edges as [|e0 edges IH] using rev_ind.
  - cbn. split; [|split].
    + intros a. rewrite lookup_empty, elem_of_nil. split; [by intros [? ?]|done].
    + intros a. rewrite lookup_empty, elem_of_nil. split; [by intros [? ?]|done].
    + intros _ e He. by apply elem_of_nil in He.
  - rewrite fold_left_app. cbn [fold_left fst snd].
    destruct IH as (Hdom1 & Hdom2 & Hval).
    rewrite fmap_app. cbn [fmap list_fmap].
    split; [|split].
    + intros a. rewrite elem_of_app, list_elem_of_singleton, <- Hdom1.
      destruct (decide (a = edge_id e0)) as [->|Hne].
      * rewrite lookup_insert_eq. split; [by right|by eexists].
      * rewrite lookup_insert_ne by done. tauto.
    + intros a. rewrite elem_of_app, list_elem_of_singleton, <- Hdom2.
      destruct (decide (a = edge_id e0)) as [->|Hne].
      * rewrite lookup_insert_eq. split; [by right|by eexists].
      * rewrite lookup_insert_ne by done. tauto.
    + intros Hnodup e He.
      apply NoDup_app in Hnodup as (Hnodup & Hfresh & _).
      apply elem_of_app in He as [He|He].
      * assert (Hne : edge_id e0 ≠ edge_id e).
        { intros Heq. apply (Hfresh (edge_id e)).
          - by apply list_elem_of_fmap_2.
          - rewrite <- Heq. by apply list_elem_of_singleton. }
        rewrite !lookup_insert_ne by done. by apply Hval.
      * apply list_elem_of_singleton in He as ->.
        by rewrite !lookup_insert_eq.
Qed.

(** The entries of the two dictionaries, and what they relate. *)
Lemma create_neighbor_links_entries (edges : list edge)
    (neighbor_links_O neighbor_links_D : gmap Z (list Z)) :
  NoDup (edge_id <$> edges) →
  create_neighbor_links edges = (neighbor_links_O, neighbor_links_D) →
  (∀ a, is_Some (neighbor_links_O !! a) ↔ a ∈ edge_id <$> edges)
  ∧ (∀ a, is_Some (neighbor_links_D !! a) ↔ a ∈ edge_id <$> edges)
  ∧ (∀ u v a, (u, v, a) ∈ edges →
       neighbor_links_O !! a = Some (outgoing edges v)
       ∧ neighbor_links_D !! a = Some (incoming edges u)).
Proof.
  intros Hnodup Hcreate. unfold create_neighbor_links in Hcreate.
  cbv zeta in Hcreate.
  destruct (neighbor_fold_lookup
              (fun e => default [] ((node_to_links edges).1 !! edge_v e))
              (fun e => default [] ((node_to_links edges).2 !! edge_u e))
              edges) as (Hdom1 & Hdom2 & Hval).
  cbv zeta in Hdom1, Hdom2, Hval. rewrite Hcreate in Hdom1, Hdom2, Hval.
  cbn [fst snd] in Hdom1, Hdom2, Hval.
  split; [done|]. split; [done|].
  intros u v a He. destruct (Hval Hnodup _ He) as [HO HD].
  cbn in HO, HD.
  destruct (node_to_links_spec edges v) as [Hout _].
  destruct (node_to_links_spec edges u) as [_ Hin].
  by rewrite <- Hout, <- Hin.
Qed.

Lemma edge_id_elem (edges : list edge) (a : Z) :
  a ∈ edge_id <$> edges ↔ ∃ u v, (u, v, a) ∈ edges.
Proof.
  rewrite list_elem_of_fmap. split.
  - intros ([[u v] a'] & -> & He). by exists u, v.
  - intros (u & v & He). by exists (u, v, a).
Qed.

Lemma neighbor_links_adjacent (edges : list edge)
    (neighbor_links_O neighbor_links_D : gmap Z (list Z)) :
  NoDup (edge_id <$> edges) →
  create_neighbor_links edges = (neighbor_links_O, neighbor_links_D) →
  (∀ a b, b ∈ default [] (neighbor_links_O !! a) ↔ adjacent edges a b)
  ∧ (∀ a b, a ∈ default [] (neighbor_links_D !! b) ↔ adjacent edges a b).
Proof.
  intros Hnodup Hcreate.
  destruct (create_neighbor_links_entries _ _ _ Hnodup Hcreate)
    as (Hdom1 & Hdom2 & Hentry).
  split.
  - intros a b. split.
    + intros Hb.
      destruct (neighbor_links_O !! a) as [l|] eqn:HOa;
        [|by apply elem_of_nil in Hb].
      destruct (proj1 (edge_id_elem edges a)) as (ua & va & Ha);
        [apply Hdom1; by eexists|].
      destruct (Hentry _ _ _ Ha) as [HO _].
      assert (l = outgoing edges va) as -> by congruence.
      cbn in Hb. unfold outgoing in Hb.
      apply list_elem_of_fmap in Hb as ([[ub vb] b'] & -> & Hb).
      apply list_elem_of_filter in Hb as [Hu Hb]. cbn in Hu. subst ub.
      by exists ua, va, vb.
    + intros (ua & va & vb & Ha & Hb).
      destruct (Hentry _ _ _ Ha) as [-> _]. cbn. unfold outgoing.
      apply (list_elem_of_fmap_2' _ _ (va, vb, b)); [|done].
      by apply list_elem_of_filter.
  - intros a b. split.
    + intros Ha.
      destruct (neighbor_links_D !! b) as [l|] eqn:HDb;
        [|by apply elem_of_nil in Ha].
      destruct (proj1 (edge_id_elem edges b)) as (ub & vb & Hb);
        [apply Hdom2; by eexists|].
      destruct (Hentry _ _ _ Hb) as [_ HD].
      assert (l = incoming edges ub) as -> by congruence.
      cbn in Ha. unfold incoming in Ha.
      apply list_elem_of_fmap in Ha as ([[ua va] a'] & -> & Ha).
      apply list_elem_of_filter in Ha as [Hv Ha]. cbn in Hv. subst va.
      by exists ua, ub, vb.
    + intros (ua & va & vb & Ha & Hb).
      destruct (Hentry _ _ _ Hb) as [_ ->]. cbn. unfold incoming.
      apply (list_elem_of_fmap_2' _ _ (ua, va, a)); [|done].
      by apply list_elem_of_filter.
Qed.

(** X16. When the ['EDGEID']s of the graph are distinct,
    [create_neighbor_links] gives every link, and nothing else, an
    entry in both dictionaries: its downstream list holds the links that
    leave the node where it ends, its upstream list the links that enter
    the node where it starts, both in the order of the edges. So the two
    dictionaries are converse relations: [b] is downstream of [a]
    exactly when [a] is upstream of [b], which is when [b] starts
    where [a] ends. *)
Theorem create_neighbor_links_converse (edges : list edge)
    (neighbor_links_O neighbor_links_D : gmap Z (list Z)) :
  NoDup (edge_id <$> edges) →
  create_neighbor_links edges = (neighbor_links_O, neighbor_links_D) →
  (∀ a, is_Some (neighbor_links_O !! a) ↔ a ∈ edge_id <$> edges)
  ∧ (∀ a, is_Some (neighbor_links_D !! a) ↔ a ∈ edge_id <$> edges)
  ∧ (∀ u v a, (u, v, a) ∈ edges →
       neighbor_links_O !! a = Some (outgoing edges v)
       ∧ neighbor_links_D !! a = Some (incoming edges u))
  ∧ (∀ a b, b ∈ default [] (neighbor_links_O !! a) ↔ adjacent edges a b)
  ∧ (∀ a b, a ∈ default [] (neighbor_links_D !! b) ↔ adjacent edges a b)
  ∧ (∀ a b, b ∈ default [] (neighbor_links_O !! a)
            ↔ a ∈ default [] (neighbor_links_D !! b)).
Proof.
  intros Hnodup Hcreate.
  destruct (create_neighbor_links_entries _ _ _ Hnodup Hcreate)
    as (Hdom1 & Hdom2 & Hentry).
  destruct (neighbor_links_adjacent _ _ _ Hnodup Hcreate) as [HO HD].
  repeat (split; [done|]).
  intros a b. by rewrite HO, HD.
Qed.

Lemma extend_path_connected (network : Network) (choice : nat → list Z → Z)
    (target : Z) :
  (∀ k l, l ≠ [] → choice k l ∈ l) →
  ∀ (fuel : nat) (pre : list Z) (current : Z),
    connected network (pre ++ [current]) →
    connected network
      (extend_path fuel (neighbor_links_O network) choice target
         (pre ++ [current]) current)
    ∧ head (extend_path fuel (neighbor_links_O network) choice target
              (pre ++ [current]) current)
      = head (pre ++ [current]).
Proof.
  intros Hchoice. induction fuel as [|fuel IH]; intros pre current Hc; [done|].
  cbn [extend_path]. destruct (_ <? target); [|done].
  destruct (default [] (neighbor_links_O network !! current))
    as [|n ns] eqn:Hn; [done|].
  cbv zeta.
  match goal with
  | |- context [choice _ ?l] => set (available := l)
  end.
  assert (Havailable : available ≠ [] ∧ ∀ x, x ∈ available → x ∈ n :: ns).
  { subst available.
    destruct (List.filter _ (n :: ns)) as [|y ys] eqn:Hfilter; [done|].
    split; [done|]. intros x Hx. rewrite <- Hfilter in Hx.
    apply list_elem_of_In, filter_In in Hx as [Hx _].
    by apply list_elem_of_In. }
  destruct Havailable as [Hne Hsub].
  set (next_link := choice (length (pre ++ [current])) available).
  assert (Hnext : next_link ∈ downstream network current).
  { unfold downstream. rewrite Hn. apply Hsub, Hchoice, Hne. }
  destruct (IH (pre ++ [current]) next_link
              (connected_snoc _ _ _ _ Hc Hnext)) as [Hconn Hhead].
  split; [done|]. rewrite Hhead. by destruct pre.
Qed.

Lemma py_slice_whole {A : Type} (l : list A) (b : Z) :
  Z.of_nat (length l) ≤ b → py_slice l 0 b = l.
Proof.
  intros Hb. unfold py_slice.
  replace (Z.to_nat (0 `max` (Z.of_nat (length l)
             `min` (if 0 <? 0 then Z.of_nat (length l) + 0 else 0))))
    with 0%nat by (cbn [Z.ltb Z.compare]; lia).
  replace (Z.to_nat (0 `max` (Z.of_nat (length l)
             `min` (if b <? 0 then Z.of_nat (length l) + b else b))))
    with (length l) by (destruct (Z.ltb_spec b 0); lia).
  by rewrite drop_0, firstn_all.
Qed.

Lemma random_attempt_connected (network : Network) (all_links : list edge)
    (min_length max_length : Z) (draws : attempt_draws) (path : list Z) :
  (∀ k l, l ≠ [] → next_choice draws k l ∈ l) →
  random_attempt all_links (neighbor_links_O network) min_length max_length draws
  = Ok path →
  (∃ e, e ∈ all_links ∧ head path = Some (edge_id e))
  ∧ connected network path.
Proof.
  intros Hchoice. unfold random_attempt.
  destruct (Nat.eqb _ 0); [discriminate|].
  destruct (py_getitem all_links _) as [e|err] eqn:He; [|discriminate].
  cbn [bind]. destruct (_ <=? min_length); [discriminate|].
  intros [= <-].
  destruct (extend_path_connected network (next_choice draws)
              (target_length draws) Hchoice
              (Z.to_nat (target_length draws)) [] (edge_id e) I)
    as [Hconn Hhead].
  split; [|done]. exists e. split; [by eapply py_getitem_elem|done].
Qed.

Lemma attempts_loop_connected (network : Network) (all_links : list edge)
    (min_length max_length : Z) (attempts : list attempt_draws) :
  (∀ draws k l, draws ∈ attempts → l ≠ [] → next_choice draws k l ∈ l) →
  ∀ previous path : list Z,
    (attempts = [] →
     (∃ e, e ∈ all_links ∧ head previous = Some (edge_id e))
     ∧ connected network previous) →
    attempts_loop all_links (neighbor_links_O network) min_length max_length
      attempts previous = Ok path →
    (∃ e, e ∈ all_links ∧ head path = Some (edge_id e))
    ∧ connected network path.
Proof.
  induction attempts as [|draws rest IH]; intros Hchoice previous path Hprev.
  - cbn. rewrite py_slice_whole by lia. intros [= <-]. by apply Hprev.
  - cbn [attempts_loop].
    destruct (random_attempt _ _ _ _ draws) as [attempt|err] eqn:Hattempt;
      [|discriminate].
    cbn [bind].
    assert (Hgood : (∃ e, e ∈ all_links ∧ head attempt = Some (edge_id e))
                    ∧ connected network attempt).
    { eapply random_attempt_connected; [|done].
      intros k l. apply Hchoice. by left. }
    destruct (min_length <=? _).
    + by intros [= <-].
    + apply IH; [|done]. intros d k l Hd. apply Hchoice. by right.
Qed.

(** X17. Whenever [generate_random_path] returns, the path starts with
    the link of an edge of the graph and every link of it is followed by
    one of its downstream neighbours in [neighbor_links_O], whatever the
    random draws; the path is therefore not empty. This also holds for
    the path returned after the last failed attempt, which may be
    shorter than [min_length]. *)
Theorem generate_random_path_connected (network : Network)
    (all_links : list edge) (min_length max_length : Z)
    (first : attempt_draws) (more : list attempt_draws) (path : list Z) :
  (∀ draws k l, draws ∈ first :: more → l ≠ [] → next_choice draws k l ∈ l) →
  generate_random_path all_links (neighbor_links_O network)
    min_length max_length first more = Ok path →
  (∃ e, e ∈ all_links ∧ head path = Some (edge_id e))
  ∧ connected network path.
Proof.
  intros Hchoice. unfold generate_random_path.
  by apply attempts_loop_connected.
Qed.

(** The fuel of [extend_path] is enough: the loop stops by its own test,
    and more fuel changes nothing. *)
Lemma extend_path_fuel (neighbor_links : gmap Z (list Z))
    (choice : nat → list Z → Z) (target : Z) (extra : nat) :
  ∀ (fuel : nat) (path : list Z) (current : Z),
    target - Z.of_nat (length path) ≤ Z.of_nat fuel →
    extend_path (fuel + extra) neighbor_links choice target path current
    = extend_path fuel neighbor_links choice target path current.
Proof.
  induction fuel as [|fuel IH]; intros path current Hfuel.
  - cbn [Nat.add extend_path]. destruct extra as [|extra]; [done|].
    cbn [extend_path]. destruct (Z.ltb_spec (Z.of_nat (length path)) target); [lia|done].
  - cbn [Nat.add extend_path]. destruct (_ <? target); [|done].
    destruct (default [] (neighbor_links !! current)); [done|].
    cbv zeta. apply IH. rewrite length_app. cbn [length]. lia.
Qed.

(** ** The grid network *)

Lemma add_edge_numbered (pairs : list (Z * Z)) (state : list edge * Z)
    (u v : Z) (c : bool) :
  numbered pairs state →
  numbered (pairs ++ (if c then [(u, v)] else []))
    (if c then add_edge state u v else state).
Proof.
  intros [Hid Hedges]. destruct c; [|by rewrite app_nil_r].
  unfold numbered, add_edge, number_edges in *. cbn [fst snd]. split.
  - rewrite length_app. cbn [length]. lia.
  - rewrite imap_app, <- Hedges, Hid. cbn. by rewrite Nat.add_0_r.
Qed.

Lemma grid_cell_numbered (m n i j : Z) (pairs : list (Z * Z))
    (state : list edge * Z) :
  numbered pairs state →
  numbered (pairs ++ grid_neighbours m n i j) (grid_cell m n i state j).
Proof.
  intros H. unfold grid_cell, grid_neighbours. cbv zeta.
  rewrite !app_assoc.
  by do 4 apply add_edge_numbered.
Qed.

Lemma fold_numbered {A : Type} (step : list edge * Z → A → list edge * Z)
    (produced : A → list (Z * Z)) :
  (∀ pairs state x,
     numbered pairs state → numbered (pairs ++ produced x) (step state x)) →
  ∀ (l : list A) (pairs : list (Z * Z)) (state : list edge * Z),
    numbered pairs state →
    numbered (pairs ++ (l ≫= produced)) (fold_left step l state).
Proof.
  intros Hstep. induction l as [|x l IH]; intros pairs state H.
  - cbn. by rewrite app_nil_r.
  - rewrite bind_cons, app_assoc. cbn [fold_left]. by apply IH, Hstep.
Qed.

(** The edges are the pairs of the grid, numbered in their order. *)
Lemma create_grid_network_pairs (m n : Z) :
  create_grid_network m n = number_edges (grid_pairs m n).
Proof.
  unfold create_grid_network, grid_pairs.
  assert (H : numbered ([] ++ (py_range m ≫= fun i =>
                                 py_range n ≫= fun j => grid_neighbours m n i j))
                (fold_left
                   (fun state i => fold_left (grid_cell m n i) (py_range n) state)
                   (py_range m) ([], 0))).
  { apply (fold_numbered
             (fun state i => fold_left (grid_cell m n i) (py_range n) state)
             (fun i => py_range n ≫= fun j => grid_neighbours m n i j)).
    - intros pairs state i Hst.
      apply (fold_numbered (grid_cell m n i) (grid_neighbours m n i)); [|done].
      intros pairs' state' j. apply grid_cell_numbered.
    - done. }
  by destruct H as [_ ->].
Qed.

Lemma elem_of_py_range (n i : Z) : i ∈ py_range n ↔ 0 ≤ i < n.
Proof.
  unfold py_range. rewrite list_elem_of_fmap. split.
  - intros (k & -> & Hk). apply elem_of_seq in Hk. lia.
  - intros Hi. exists (Z.to_nat i). split; [lia|]. apply elem_of_seq. lia.
Qed.

Lemma NoDup_py_range (n : Z) : NoDup (py_range n).
Proof.
  unfold py_range. apply NoDup_fmap_2; [apply Nat2Z.inj'|apply NoDup_seq].
Qed.

Lemma elem_of_optional_pair (c : bool) (a b u v : Z) :
  (u, v) ∈ (if c then [(a, b)] else []) ↔ c = true ∧ u = a ∧ v = b.
Proof.
  destruct c.
  - rewrite list_elem_of_singleton. split.
    + by intros [= -> ->].
    + by intros (_ & -> & ->).
  - rewrite elem_of_nil. split; [done|]. by intros [? _].
Qed.

Lemma elem_of_grid_neighbours (m n i j u v : Z) :
  (u, v) ∈ grid_neighbours m n i j
  ↔ u = i * n + j
    ∧ ((j < n - 1 ∧ v = i * n + (j + 1))
       ∨ (i < m - 1 ∧ v = (i + 1) * n + j)
       ∨ (0 < j ∧ v = i * n + (j - 1))
       ∨ (0 < i ∧ v = (i - 1) * n + j)).
Proof.
  unfold grid_neighbours. cbv zeta.
  rewrite !elem_of_app, !elem_of_optional_pair, !Z.ltb_lt. tauto.
Qed.

Lemma elem_of_grid_pairs (m n u v : Z) :
  (u, v) ∈ grid_pairs m n
  ↔ ∃ i j, 0 ≤ i < m ∧ 0 ≤ j < n ∧ (u, v) ∈ grid_neighbours m n i j.
Proof.
  unfold grid_pairs. rewrite list_elem_of_bind. split.
  - intros (i & Hin & Hi). apply list_elem_of_bind in Hin as (j & Hin & Hj).
    apply elem_of_py_range in Hi, Hj. by exists i, j.
  - intros (i & j & Hi & Hj & Hin). exists i. split; [|by apply elem_of_py_range].
    apply list_elem_of_bind. exists j. split; [done|by apply elem_of_py_range].
Qed.

Lemma grid_node_inj (n i j i' j' : Z) :
  0 ≤ j < n → 0 ≤ j' < n → i * n + j = i' * n + j' → i = i' ∧ j = j'.
Proof.
  intros Hj Hj' Heq.
  assert (i = i') as ->; [|lia].
  destruct (Z.lt_trichotomy i i') as [Hlt|[?|Hlt]]; [|done|]; nia.
Qed.

Lemma NoDup_grid_neighbours (m n i j : Z) :
  0 ≤ j < n → NoDup (grid_neighbours m n i j).
Proof.
  intros Hj. apply (NoDup_fmap_1 snd).
  unfold grid_neighbours. cbv zeta.
  destruct (Z.ltb_spec j (n - 1)), (Z.ltb_spec i (m - 1)),
    (Z.ltb_spec 0 j), (Z.ltb_spec 0 i);
    cbn [app fmap list_fmap snd];
    repeat (apply NoDup_cons; split; [|]);
    try apply NoDup_nil_2;
    rewrite ?elem_of_cons, ?elem_of_nil; lia.
Qed.

Lemma NoDup_grid_pairs (m n : Z) : NoDup (grid_pairs m n).
Proof.
  unfold grid_pairs. apply NoDup_bind; [| |apply NoDup_py_range].
  - intros i i' [u v] Hi Hi' Hin Hin'.
    apply list_elem_of_bind in Hin as (j & Hin & Hj).
    apply list_elem_of_bind in Hin' as (j' & Hin' & Hj').
    apply elem_of_py_range in Hj, Hj'.
    apply elem_of_grid_neighbours in Hin as [-> _].
    apply elem_of_grid_neighbours in Hin' as [Heq _].
    by destruct (grid_node_inj n i j i' j').
  - intros i Hi. apply NoDup_bind; [| |apply NoDup_py_range].
    + intros j j' [u v] Hj Hj' Hin Hin'.
      apply elem_of_py_range in Hj, Hj'.
      apply elem_of_grid_neighbours in Hin as [-> _].
      apply elem_of_grid_neighbours in Hin' as [Heq _]. lia.
    + intros j Hj. apply elem_of_py_range in Hj.
      by apply NoDup_grid_neighbours.
Qed.

Lemma grid_pairs_sym (m n u v : Z) :
  (u, v) ∈ grid_pairs m n → (v, u) ∈ grid_pairs m n.
Proof.
  rewrite !elem_of_grid_pairs. intros (i & j & Hi & Hj & Hin).
  apply elem_of_grid_neighbours in Hin
    as [-> [[? ->]|[[? ->]|[[? ->]|[? ->]]]]].
  - exists i, (j + 1). split; [lia|]. split; [lia|].
    apply elem_of_grid_neighbours. split; [done|]. right. right. left.
    split; [lia|]. f_equal. lia.
  - exists (i + 1), j. split; [lia|]. split; [lia|].
    apply elem_of_grid_neighbours. split; [done|]. right. right. right.
    split; [lia|]. f_equal. f_equal. lia.
  - exists i, (j - 1). split; [lia|]. split; [lia|].
    apply elem_of_grid_neighbours. split; [done|]. left.
    split; [lia|]. f_equal. lia.
  - exists (i - 1), j. split; [lia|]. split; [lia|].
    apply elem_of_grid_neighbours. split; [done|]. right. left.
    split; [lia|]. f_equal. f_equal. lia.
Qed.

Lemma grid_pairs_nodes (m n u v : Z) :
  (u, v) ∈ grid_pairs m n → 0 ≤ u < m * n ∧ 0 ≤ v < m * n.
Proof.
  assert (Hu : ∀ a b, (a, b) ∈ grid_pairs m n → 0 ≤ a < m * n).
  { intros a b (i & j & Hi & Hj & Hin)%elem_of_grid_pairs.
    apply elem_of_grid_neighbours in Hin as [-> _]. nia. }
  intros H. split; [by eapply Hu|]. apply grid_pairs_sym in H. by eapply Hu.
Qed.

Lemma elem_of_number_edges (pairs : list (Z * Z)) (u v id : Z) :
  (u, v, id) ∈ number_edges pairs
  ↔ ∃ k : nat, id = Z.of_nat k ∧ pairs !! k = Some (u, v).
Proof.
  unfold number_edges. rewrite list_elem_of_lookup. split.
  - intros (k & Hk). rewrite list_lookup_imap in Hk.
    destruct (pairs !! k) as [pair|] eqn:Hpair; [|done].
    cbn in Hk. injection Hk as -> <-. by exists k.
  - intros (k & -> & Hk). exists k. by rewrite list_lookup_imap, Hk.
Qed.

Lemma number_edges_ids (pairs : list (Z * Z)) :
  edge_id <$> number_edges pairs
  = py_range (Z.of_nat (length (number_edges pairs))).
Proof.
  unfold number_edges, py_range. rewrite length_imap, Nat2Z.id.
  apply list_eq. intros k.
  rewrite list_lookup_fmap, list_lookup_imap, list_lookup_fmap.
  destruct (pairs !! k) as [pair|] eqn:Hpair.
  - rewrite lookup_seq_lt by (by eapply lookup_lt_Some). done.
  - rewrite lookup_seq_ge by (by apply lookup_ge_None). done.
Qed.

(** X18. The edges that [create_grid_network(m, n)] adds carry the
    ['EDGEID']s [0, 1, ...] in the order in which they are added, so the
    ids are distinct and are the numbers below the number of edges; no
    ordered pair of nodes is joined twice; both ends of every edge are
    nodes of the grid, and with every edge the grid has the opposite
    edge. *)
Theorem create_grid_network_edges (m n : Z) :
  edge_id <$> create_grid_network m n
  = py_range (Z.of_nat (length (create_grid_network m n)))
  ∧ NoDup (edge_id <$> create_grid_network m n)
  ∧ NoDup ((fun e => (edge_u e, edge_v e)) <$> create_grid_network m n)
  ∧ (∀ u v id, (u, v, id) ∈ create_grid_network m n →
       0 ≤ u < m * n ∧ 0 ≤ v < m * n
       ∧ ∃ id', (v, u, id') ∈ create_grid_network m n).
Proof.
  rewrite create_grid_network_pairs.
  split; [apply number_edges_ids|]. split; [|split].
  - rewrite number_edges_ids. apply NoDup_py_range.
  - replace ((fun e => (edge_u e, edge_v e)) <$> number_edges (grid_pairs m n))
      with (grid_pairs m n); [apply NoDup_grid_pairs|].
    unfold number_edges. apply list_eq. intros k.
    rewrite list_lookup_fmap, list_lookup_imap.
    by destruct (grid_pairs m n !! k) as [[u v]|].
  - intros u v id Hin. apply elem_of_number_edges in Hin as (k & -> & Hk).
    apply list_elem_of_lookup_2 in Hk.
    destruct (grid_pairs_nodes _ _ _ _ Hk) as [Hu Hv].
    split; [done|]. split; [done|].
    apply grid_pairs_sym, list_elem_of_lookup_1 in Hk as [k' Hk'].
    exists (Z.of_nat k'). apply elem_of_number_edges. by exists k'.
Qed.

Lemma length_bind_line {A : Type} (h : Z → list A) (N w c : Z) :
  1 ≤ N →
  (∀ x, 0 ≤ x < N →
        Z.of_nat (length (h x))
        = w * (if x <? N - 1 then 1 else 0) + w * (if 0 <? x then 1 else 0) + c) →
  Z.of_nat (length (py_range N ≫= h)) = 2 * w * (N - 1) + c * N.
Proof.
  intros HN Hh.
  assert (Hk : ∀ k : nat,
    Z.of_nat k ≤ N →
    Z.of_nat (length ((Z.of_nat <$> seq 0 k) ≫= h))
    = w * (if Z.of_nat k =? N then N - 1 else Z.of_nat k)
      + w * (if Z.of_nat k =? 0 then 0 else Z.of_nat k - 1)
      + c * Z.of_nat k).
  { induction k as [|k IH]; intros Hle.
    - cbn [seq fmap list_fmap mbind list_bind length].
      destruct (Z.eqb_spec (Z.of_nat 0) N); [lia|].
      destruct (Z.eqb_spec (Z.of_nat 0) 0); lia.
    - rewrite seq_S, fmap_app, bind_app, length_app, Nat2Z.inj_add.
      rewrite IH by lia. cbn [fmap list_fmap Nat.add].
      rewrite bind_singleton, Hh by lia.
      destruct (Z.eqb_spec (Z.of_nat k) N); [lia|].
      destruct (Z.eqb_spec (Z.of_nat (S k)) N),
        (Z.eqb_spec (Z.of_nat (S k)) 0),
        (Z.eqb_spec (Z.of_nat k) 0),
        (Z.ltb_spec (Z.of_nat k) (N - 1)),
        (Z.ltb_spec 0 (Z.of_nat k)); lia. }
  unfold py_range. rewrite Hk by lia. rewrite Z2Nat.id by lia.
  destruct (Z.eqb_spec N N); [|done].
  destruct (Z.eqb_spec N 0); lia.
Qed.

(** X19. For [m, n >= 1] the grid of [create_grid_network(m, n)] has
    [2 (m (n - 1) + n (m - 1))] edges: 360 for the 10 x 10 grid of the
    script. *)
Theorem create_grid_network_size (m n : Z) :
  1 ≤ m → 1 ≤ n →
  Z.of_nat (length (create_grid_network m n))
  = 2 * (m * (n - 1) + n * (m - 1)).
Proof.
  intros Hm Hn. rewrite create_grid_network_pairs.
  unfold number_edges. rewrite length_imap. unfold grid_pairs.
  rewrite (length_bind_line _ m n (2 * (n - 1))); [lia|done|].
  intros i Hi.
  rewrite (length_bind_line _ n 1
             ((if i <? m - 1 then 1 else 0) + (if 0 <? i then 1 else 0)));
    [|done|].
  - destruct (i <? m - 1), (0 <? i); lia.
  - intros j Hj. unfold grid_neighbours. cbv zeta.
    destruct (j <? n - 1), (i <? m - 1), (0 <? j), (0 <? i); cbn; lia.
Qed.

Lemma connected_segments (network : Network) (path : list Z) :
  adjacency_closed network →
  (∀ a, head path = Some a → segment network a) →
  connected network path →
  Forall (segment network) path.
Proof.
  intros Hadj. induction path as [|a rest IH]; intros Hhead Hconn; [done|].
  apply Forall_cons. split; [by apply Hhead|].
  apply IH.
  - intros b Hb. destruct rest as [|b' rest]; [done|].
    injection Hb as ->. cbn in Hconn. destruct Hconn as [Hin _].
    unfold downstream in Hin.
    destruct (neighbor_links_O network !! a) as [l|] eqn:Hl;
      [|by apply elem_of_nil in Hin].
    specialize (Hadj a l Hl). cbn in Hadj.
    by apply (proj1 (Forall_forall _ _) Hadj).
  - destruct rest as [|b rest]; [done|]. cbn in Hconn. by destruct Hconn.
Qed.

(** X20. The sample data fits the decoder. For a network whose adjacency
    is the one [create_neighbor_links] builds from the grid of
    [create_grid_network(m, n)] and that has the grid's number of edges:
    every recorded downstream neighbour is a link id, [b] is downstream
    of [a] exactly when [b] starts where [a] ends, and every path that
    [generate_random_path] returns is a non-empty sequence of link ids
    in which every link is followed by one of its downstream
    neighbours. *)
Theorem generated_path_fits_decoder (m n : Z) (network : Network)
    (min_length max_length : Z) (first : attempt_draws)
    (more : list attempt_draws) (path : list Z) :
  neighbor_links_O network = (create_neighbor_links (create_grid_network m n)).1 →
  edges_count network = length (create_grid_network m n) →
  (∀ draws k l, draws ∈ first :: more → l ≠ [] → next_choice draws k l ∈ l) →
  generate_random_path (create_grid_network m n) (neighbor_links_O network)
    min_length max_length first more = Ok path →
  adjacency_closed network
  ∧ (∀ a b, b ∈ downstream network a ↔ adjacent (create_grid_network m n) a b)
  ∧ path ≠ []
  ∧ Forall (segment network) path
  ∧ connected network path.
Proof.
  intros HO Hcount Hchoice Hpath.
  assert (Hids : edge_id <$> create_grid_network m n
                 = py_range (Z.of_nat (length (create_grid_network m n))))
    by (rewrite create_grid_network_pairs; apply number_edges_ids).
  set (edges := create_grid_network m n) in *.
  assert (Hnodup : NoDup (edge_id <$> edges))
    by (rewrite Hids; apply NoDup_py_range).
  assert (Hsegment : ∀ a, a ∈ edge_id <$> edges → segment network a).
  { intros a Ha. rewrite Hids in Ha. apply elem_of_py_range in Ha.
    unfold segment, get_num_links. by rewrite Hcount. }
  destruct (create_neighbor_links edges) as [links_O links_D] eqn:Hcreate.
  cbn [fst] in HO.
  destruct (neighbor_links_adjacent _ _ _ Hnodup Hcreate) as [Hadjacent _].
  assert (Hdown : ∀ a b, b ∈ downstream network a ↔ adjacent edges a b).
  { intros a b. unfold downstream. rewrite HO. apply Hadjacent. }
  assert (Hclosed : adjacency_closed network).
  { intros a l Hl. cbn. apply Forall_forall. intros b Hb.
    assert (Hab : adjacent edges a b).
    { apply Hdown. unfold downstream. by rewrite Hl. }
    destruct Hab as (ua & va & vb & _ & Hb').
    apply Hsegment, edge_id_elem. by exists va, vb. }
  unfold generate_random_path in Hpath.
  destruct (attempts_loop_connected network edges min_length max_length
              (first :: more) Hchoice [] path ltac:(done) Hpath)
    as [(e & He & Hhead) Hconn].
  split; [done|]. split; [done|]. split; [by intros ->|]. split; [|done].
  apply connected_segments; [done| |done].
  intros a Ha. assert (a = edge_id e) as -> by congruence.
  by apply Hsegment, list_elem_of_fmap_2.
Qed.

(** * Further instances *)

(** The greedy path of the cycle scenario has four links, within the
    thirty steps allowed. *)
Lemma greedy_path_length_witness :
  Z.of_nat (length [0; 1; 2; 3]) ≤ Z.max 0 (rf_max_len cycle_decoder).
Proof.
  apply (greedy_path_length cycle_decoder cycle_network cycle_observations 0
           [0; 1; 2; 3]).
  vm_compute. reflexivity.
Defined.

Lemma greedy_path_connected_witness :
  connected cycle_network [0; 1; 2; 3].
Proof.
  refine (greedy_path_connected cycle_decoder cycle_network cycle_observations
            0 [0; 3] [0; 1; 2; 3] _ _ _ _ _).
  - reflexivity.
  - apply (bool_decide_unpack _). vm_compute. exact I.
  - unfold adjacency_closed. apply (bool_decide_unpack _). vm_compute. exact I.
  - vm_compute. discriminate.
  - vm_compute. reflexivity.
Defined.

Lemma predicted_path_joins_anchors_witness :
  head [0; 1; 2; 3] = head [0; 3]
  ∧ last [0; 1; 2; 3] = last [0; 3]
  ∧ connected cycle_network [0; 1; 2; 3].
Proof.
  refine (predicted_path_joins_anchors cycle_decoder cycle_network
            cycle_observations 0 [0; 3] [0; 1; 2; 3]
            {[ [0; 1; 2; 3] := 1%float ]} _ _ _ _ _ _ _).
  - reflexivity.
  - reflexivity.
  - apply (bool_decide_unpack _). vm_compute. exact I.
  - unfold adjacency_closed. apply (bool_decide_unpack _). vm_compute. exact I.
  - vm_compute. discriminate.
  - vm_compute. reflexivity.
  - exists 1%float. apply lookup_singleton_eq.
Defined.

(** On the broken cycle the greedy path stops at link [2]; with the
    fallback enabled the stitched path is returned. *)
Lemma fallback_always_predicts_witness :
  ∃ path : list Z,
    ({[ [0; 1; 2; 3] := 1%float ]} : gmap (list Z) float) = {[ path := 1%float ]}
    ∧ [0; 3] `sublist_of` path ∧ path ≠ [].
Proof.
  refine (fallback_always_predicts
            (set_use_shortest_path broken_cycle_decoder true)
            broken_cycle_network cycle_observations 0 [0; 3]
            {[ [0; 1; 2; 3] := 1%float ]} _ _ _ _ _).
  - reflexivity.
  - reflexivity.
  - reflexivity.
  - unfold link_nodes_known.
    apply Forall_cons. split; [by exists (0, 1)|].
    apply Forall_cons. split; [by exists (3, 0)|].
    apply Forall_nil_2.
  - vm_compute. reflexivity.
Defined.

Lemma encode_discontinuous_path_never_truncates_witness :
  ∃ rows : list (list Z),
    encode_discontinuous_path (data_generator cycle_decoder) cycle_network
      cycle_observations 0 = Ok rows
    ∧ Z.of_nat (length rows)
      = Z.max (dg_max_len (data_generator cycle_decoder))
          (Z.of_nat (length (encoded_content cycle_network [0; 3]))).
Proof.
  eexists. split; [vm_compute; reflexivity|].
  refine (proj1 (encode_discontinuous_path_never_truncates
                   (data_generator cycle_decoder) cycle_network
                   cycle_observations 0 [0; 3] _ _ _ _)).
  - reflexivity.
  - intros Honehot. vm_compute in Honehot. discriminate.
  - vm_compute. reflexivity.
Defined.

Lemma create_samples_alignment_witness :
  ∃ path_srcs path_tgts path_tgts_y,
    _create_samples_from_dict (data_generator cycle_decoder) cycle_network
      cycle_ground_truth cycle_observations [0]
    = Ok (path_srcs, path_tgts, path_tgts_y)
    ∧ [0] ≠ ([] : list Z).
Proof.
  eexists _, _, _. split; [vm_compute; reflexivity|].
  refine (proj1 (create_samples_alignment (data_generator cycle_decoder)
                   cycle_network cycle_ground_truth cycle_observations [0]
                   _ _ _ _)).
  vm_compute. reflexivity.
Defined.

Lemma src_padding_mask_marks_padding_witness :
  ∃ rows : list (list Z),
    encode_discontinuous_path (data_generator cycle_decoder) cycle_network
      cycle_observations 0 = Ok rows
    ∧ src_key_padding_mask (dg_token_indexs (data_generator cycle_decoder))
        (is_onehot_embedding (data_generator cycle_decoder)) rows
      = Ok (replicate (length (encoded_content cycle_network [0; 3])) false
            ++ replicate
                 (length rows - length (encoded_content cycle_network [0; 3]))
                 true).
Proof.
  eexists. split; [vm_compute; reflexivity|].
  refine (src_padding_mask_marks_padding (data_generator cycle_decoder)
            cycle_network cycle_observations 0 [0; 3] _ _ _ _ _ _).
  - by intros [].
  - intros _. vm_compute. discriminate.
  - reflexivity.
  - apply (bool_decide_unpack _). vm_compute. exact I.
  - vm_compute. reflexivity.
Defined.

Lemma tgt_padding_mask_marks_padding_witness :
  ∃ target : list Z,
    create_sequence_target (data_generator cycle_decoder) cycle_ground_truth 0
    = Ok target
    ∧ tgt_key_padding_mask (dg_token_indexs (data_generator cycle_decoder)) target
      = replicate (length [0; 1; 2; 3] + 2) false
        ++ replicate (length target - (length [0; 1; 2; 3] + 2)) true.
Proof.
  eexists. split; [vm_compute; reflexivity|].
  refine (tgt_padding_mask_marks_padding (data_generator cycle_decoder)
            cycle_network cycle_ground_truth 0 [0; 1; 2; 3] _ _ _ _ _).
  - by intros [].
  - reflexivity.
  - apply (bool_decide_unpack _). vm_compute. exact I.
  - vm_compute. reflexivity.
Defined.

(** Half of the four links of the cycle's path are to be kept: the two
    ends, whatever the permutation. *)
Lemma prepare_training_samples_sound_witness :
  is_Some (({[ 0 := [0; 3] ]} : gmap Z (list Z)) !! 0).
Proof.
  refine (proj1 (prepare_training_samples_sound (fun _ => [2; 1; 0; 3])
                   cycle_ground_truth (Ratio 0.5) None {[ 0 := [0; 3] ]} _)
            0 _).
  - vm_compute. reflexivity.
  - apply (bool_decide_unpack _). vm_compute. exact I.
Defined.

Lemma train_test_split_partitions_witness :
  [2; 0] ++ [1; 3] = [2; 0; 1; 3].
Proof.
  refine (proj1 (train_test_split_partitions [2; 0; 1; 3] four_paths 0.5
                   [2; 0] [1; 3] _ _)).
  - apply (bool_decide_unpack _). vm_compute. exact I.
  - vm_compute. reflexivity.
Defined.

(** The adjacency of the cycle network is the one that
    [create_neighbor_links] builds from the edges of the cycle. *)
Lemma create_neighbor_links_converse_witness :
  1 ∈ default [] (neighbor_links_O cycle_network !! 0)
  ↔ adjacent cycle_edges 0 1.
Proof.
  refine (proj1 (proj2 (proj2 (proj2
            (create_neighbor_links_converse cycle_edges
               (neighbor_links_O cycle_network)
               {[ 0 := [3]; 1 := [0]; 2 := [1]; 3 := [2] ]} _ _)))) 0 1).
  - apply (bool_decide_unpack _). vm_compute. exact I.
  - vm_compute. reflexivity.
Defined.

Lemma generate_random_path_connected_witness :
  (∃ e, e ∈ cycle_edges ∧ head [0; 1; 2; 3] = Some (edge_id e))
  ∧ connected cycle_network [0; 1; 2; 3].
Proof.
  refine (generate_random_path_connected cycle_network cycle_edges 3 4
            first_neighbour [] [0; 1; 2; 3] _ _).
  - intros draws k l Hdraws Hl. apply list_elem_of_singleton in Hdraws as ->.
    destruct l as [|x l]; [done|]. apply elem_of_cons. by left.
  - vm_compute. reflexivity.
Defined.

(** A start link without downstream neighbour gives a path of one link,
    shorter than [min_length], after the last attempt. *)
Example generate_random_path_dead_end :
  generate_random_path [(0, 1, 0)] ∅ 8 25
    {| start_edge := 0; target_length := 8;
       next_choice := fun _ available => default 0 (head available) |} []
  = Ok [0].
Proof. vm_compute. reflexivity. Qed.

Lemma create_grid_network_size_witness :
  Z.of_nat (length (create_grid_network 10 10))
  = 2 * (10 * (10 - 1) + 10 * (10 - 1)).
Proof. apply (create_grid_network_size 10 10); lia. Defined.

(** A path of four links drawn on the 2 x 2 grid. *)
Lemma generated_path_fits_decoder_witness :
  adjacency_closed two_by_two_network
  ∧ (∀ a b, b ∈ downstream two_by_two_network a
            ↔ adjacent (create_grid_network 2 2) a b)
  ∧ [0; 2; 6; 4] ≠ []
  ∧ Forall (segment two_by_two_network) [0; 2; 6; 4]
  ∧ connected two_by_two_network [0; 2; 6; 4].
Proof.
  refine (generated_path_fits_decoder 2 2 two_by_two_network 3 4
            first_neighbour [] [0; 2; 6; 4] _ _ _ _).
  - reflexivity.
  - reflexivity.
  - intros draws k l Hdraws Hl. apply list_elem_of_singleton in Hdraws as ->.
    destruct l as [|x l]; [done|]. apply elem_of_cons. by left.
  - vm_compute. reflexivity.
Defined.
